(** * Hand-history analyzer: parser, position resolver and statistics aggregator

    A shallow embedding of [handhistory.py] and the properties of it that the
    specification states.

    Modelling conventions.
    - A Python [str] is a [string]; every [ascii] stands for one code point
      below 256.  The character predicates below are Python's own, restricted
      to that range.
    - A Python [float] is an exact rational ([Q]): rounding error, overflow
      and the non-finite values are outside the model.  Division is the one
      float operation that can raise, and it is modelled as such.  Python
      computes in binary doubles, where a quotient can fall just below a tie
      that the exact value hits (23 / 160 * 100 is 14.374999999999998 there and
      is reported as 14.37; the exact 14.375 rounds to 14.38).  The statements
      about the statistics are therefore of three kinds that hold of the
      doubles as well: which inputs raise, bounds and orders (rounding to the
      nearest double is monotone), and values at inputs where every
      intermediate value is an integer or a short binary fraction.  No
      statement gives a two-decimal value that rests on a quotient being
      exact.
    - An exception is a value of the error monad [exc]; [try ... except
      Exception] is a case distinction on it.
    - The fixed patterns of the parser are terms of a small regular-expression
      type with a backtracking matcher.  The conversions [int] and [float], and
      [re.search] on a pattern that starts with the hero's name (which the
      code splices in unescaped), are parameters of the parser: its
      properties hold whatever these library functions answer.
    - A [dict] is a [gmap]; the aggregator, which Python mutates in place, is
      passed explicitly from one call to the next. *)

From Stdlib Require Import String Ascii ZArith QArith Qround Lia Lqa List Permutation Sorted.
From stdpp Require Import base option list gmap strings.

Local Open Scope string_scope.
Local Open Scope list_scope.

(* ================================================================== *)
(** ** Exceptions *)

Inductive exn : Set :=
| ValueError | TypeError | IndexError | ReError | ZeroDivisionError | StatisticsError.

Inductive exc (A : Type) : Type :=
| Ret (a : A)
| Raise (e : exn).
Arguments Ret {A} a.
Arguments Raise {A} e.

#[global] Instance exc_ret : MRet exc := fun A a => Ret a.
#[global] Instance exc_bind : MBind exc := fun A B f m =>
  match m with
  | Ret a => f a
  | Raise e => Raise e
  end.

#[global] Instance exc_fmap : FMap exc := fun A B f m =>
  match m with
  | Ret a => Ret (f a)
  | Raise e => Raise e
  end.

(** [try: return body except Exception: return None]. *)
Definition try_except {A} (body : exc A) : option A :=
  match body with
  | Ret a => Some a
  | Raise _ => None
  end.

(** [for x in xs: acc = f(acc, x)] where the body may raise. *)
Fixpoint foldM {A B} (f : B -> A -> exc B) (acc : B) (xs : list A) : exc B :=
  match xs with
  | [] => Ret acc
  | x :: xs' => acc' ← f acc x; foldM f acc' xs'
  end.

(* ================================================================== *)
(** ** Text primitives *)

Definition code (a : ascii) : N := N_of_ascii a.

(** [\d] and [str.isdigit] below code point 256. *)
Definition is_digit (a : ascii) : bool :=
  ((48 <=? code a) && (code a <=? 57))%N.

(** [\s], [str.isspace]: TAB LF VT FF CR, FS GS RS US, space, NEL, NBSP. *)
Definition is_space (a : ascii) : bool :=
  (((9 <=? code a) && (code a <=? 13)) || ((28 <=? code a) && (code a <=? 32))
   || (code a =? 133) || (code a =? 160))%N.

(** Line boundaries of [str.splitlines]: LF VT FF CR, FS GS RS, NEL. *)
Definition is_linebreak (a : ascii) : bool :=
  (((10 <=? code a) && (code a <=? 13)) || ((28 <=? code a) && (code a <=? 30))
   || (code a =? 133))%N.

Definition LF : ascii := ascii_of_N 10.
Definition CR : ascii := ascii_of_N 13.
Definition nl : string := String LF "".

Definition snoc (s : string) (a : ascii) : string := s +:+ String a "".

Definition is_empty (s : string) : bool :=
  match s with "" => true | _ => false end.

Fixpoint splitlines_from (s cur : string) : list string :=
  match s with
  | "" => if is_empty cur then [] else [cur]
  | String a s' =>
      if is_linebreak a then
        cur :: match s' with
               | String b s'' =>
                   if Ascii.eqb a CR && Ascii.eqb b LF
                   then splitlines_from s'' ""
                   else splitlines_from s' ""
               | "" => []
               end
      else splitlines_from s' (snoc cur a)
  end.

(** [s.splitlines()] *)
Definition str_splitlines (s : string) : list string := splitlines_from s "".

Fixpoint lstrip (s : string) : string :=
  match s with
  | String a s' => if is_space a then lstrip s' else s
  | "" => ""
  end.

Fixpoint rstrip (s : string) : string :=
  match s with
  | String a s' =>
      let r := rstrip s' in
      if is_space a && is_empty r then "" else String a r
  | "" => ""
  end.

(** [s.strip()] *)
Definition str_strip (s : string) : string := rstrip (lstrip s).

Fixpoint split_from (s cur : string) : list string :=
  match s with
  | "" => if is_empty cur then [] else [cur]
  | String a s' =>
      if is_space a then
        if is_empty cur then split_from s' "" else cur :: split_from s' ""
      else split_from s' (snoc cur a)
  end.

(** [s.split()] *)
Definition str_split (s : string) : list string := split_from s "".

(** [s.startswith(p)] *)
Definition str_startswith (p s : string) : bool := String.prefix p s.

(** [needle in s] *)
Fixpoint str_contains (needle s : string) : bool :=
  String.prefix needle s ||
  match s with
  | String _ s' => str_contains needle s'
  | "" => false
  end.

(** [s.replace(c, "")] for a one-character [c]. *)
Fixpoint remove_char (c : ascii) (s : string) : string :=
  match s with
  | String a s' => if Ascii.eqb a c then remove_char c s' else String a (remove_char c s')
  | "" => ""
  end.

Fixpoint drop_chars (n : nat) (s : string) : string :=
  match n, s with
  | S n', String _ s' => drop_chars n' s'
  | _, _ => s
  end.

Fixpoint take_chars (n : nat) (s : string) : string :=
  match n, s with
  | S n', String a s' => String a (take_chars n' s')
  | _, _ => ""
  end.

(** The number a run of decimal digits writes. *)
Definition int_of_digits (s : string) : Z :=
  fold_left (fun acc a => acc * 10 + (Z.of_N (code a) - 48))%Z (list_ascii_of_string s) 0%Z.

(* ================================================================== *)
(** ** Regular expressions

    The fragment of [re] that the parser's patterns are written in, with a
    backtracking matcher in continuation-passing style: the first way to match
    that the continuation accepts wins, which is the order in which [re] tries
    them (greedy: longest first; lazy: shortest first; alternatives: left to
    right). *)

Inductive cclass : Set :=
| CDigit       (* \d *)
| CSpace       (* \s *)
| CNonSpace    (* \S *)
| CAny         (* .  : anything but a newline *)
| CDigitDot.   (* [\d\.] *)

Definition in_class (c : cclass) (a : ascii) : bool :=
  match c with
  | CDigit => is_digit a
  | CSpace => is_space a
  | CNonSpace => negb (is_space a)
  | CAny => negb (Ascii.eqb a LF)
  | CDigitDot => is_digit a || Ascii.eqb a "."
  end.

Inductive re : Type :=
| Eps
| Lit (s : string)              (* literal text *)
| Plus (c : cclass)             (* c+   greedy *)
| LazyStar (c : cclass)         (* c*?  lazy *)
| OptChar (a : ascii)           (* a?   greedy *)
| Alt (ws : list string)        (* w1|w2|...  of literal words *)
| Group (n : nat) (r : re)      (* ( r ), the pattern's n-th group *)
| OptNC (r : re)                (* (?: r )? greedy *)
| Seq (r1 r2 : re).

Definition cat (rs : list re) : re := foldr Seq Eps rs.

(** The groups that took part in a match, by number. *)
Abbreviation captures := (gmap nat string).

Section Matcher.
Context {R : Type}.

Fixpoint star_greedy (c : cclass) (s : string) (k : string -> option R) : option R :=
  match s with
  | String a s' =>
      if in_class c a then
        match star_greedy c s' k with
        | Some r => Some r
        | None => k s
        end
      else k s
  | "" => k s
  end.

Fixpoint star_lazy (c : cclass) (s : string) (k : string -> option R) : option R :=
  match k s with
  | Some r => Some r
  | None =>
      match s with
      | String a s' => if in_class c a then star_lazy c s' k else None
      | "" => None
      end
  end.

Fixpoint first_word (ws : list string) (s : string) (k : string -> option R) : option R :=
  match ws with
  | [] => None
  | w :: ws' =>
      match (if String.prefix w s then k (drop_chars (String.length w) s) else None) with
      | Some r => Some r
      | None => first_word ws' s k
      end
  end.

Fixpoint rmatch (r : re) (s : string) (caps : captures)
  (k : string -> captures -> option R) : option R :=
  match r with
  | Eps => k s caps
  | Lit l => if String.prefix l s then k (drop_chars (String.length l) s) caps else None
  | Plus c =>
      match s with
      | String a s' => if in_class c a then star_greedy c s' (fun t => k t caps) else None
      | "" => None
      end
  | LazyStar c => star_lazy c s (fun t => k t caps)
  | OptChar a =>
      match s with
      | String b s' =>
          if Ascii.eqb a b then
            match k s' caps with
            | Some x => Some x
            | None => k s caps
            end
          else k s caps
      | "" => k s caps
      end
  | Alt ws => first_word ws s (fun t => k t caps)
  | Group n r1 =>
      rmatch r1 s caps (fun t caps' =>
        k t (<[n := take_chars (String.length s - String.length t) s]> caps'))
  | OptNC r1 =>
      match rmatch r1 s caps k with
      | Some x => Some x
      | None => k s caps
      end
  | Seq r1 r2 => rmatch r1 s caps (fun t caps' => rmatch r2 t caps' k)
  end.

End Matcher.

(** [re.match(r, s)]: the groups, and the text left after the match. *)
Definition re_match (r : re) (s : string) : option (captures * string) :=
  rmatch r s ∅ (fun t caps => Some (caps, t)).

(** [re.search(r, s)]: the leftmost match. *)
Fixpoint re_search (r : re) (s : string) : option (captures * string) :=
  match re_match r s with
  | Some m => Some m
  | None =>
      match s with
      | String _ s' => re_search r s'
      | "" => None
      end
  end.

(** [re.findall(r, s)]: the matches from left to right, none overlapping;
    [skip] counts the characters of the last match still to pass over. *)
Fixpoint findall_from (r : re) (s : string) (skip : nat) : list captures :=
  match skip with
  | S n =>
      match s with
      | String _ s' => findall_from r s' n
      | "" => []
      end
  | O =>
      match re_match r s with
      | Some (caps, t) =>
          caps :: match s with
                  | String _ s' =>
                      findall_from r s' (String.length s - String.length t - 1)
                  | "" => []
                  end
      | None =>
          match s with
          | String _ s' => findall_from r s' 0
          | "" => []
          end
      end
  end.

Definition re_findall (r : re) (s : string) : list captures := findall_from r s 0.

(** [m.group(n)] for a group that takes part in every match of its pattern. *)
Definition group (n : nat) (caps : captures) : string := default "" (caps !! n).

(* ================================================================== *)
(** ** Data classes *)

Record Player : Type := {
  seat : Z;
  name : string;
  stack : Q;
}.

(** The four values the [street] field of an [Action] is documented to take. *)
Inductive Street : Set := preflop | flop | turn | river.

#[global] Instance Street_eq_dec : EqDecision Street.
Proof. solve_decision. Defined.

Record Action : Type := {
  street : Street;
  actor : string;
  action : string;
  amount : option Q;
}.

Record Hand : Type := {
  hand_id : string;
  datetime : option string;
  table : string;
  sb : Q;
  bb : Q;
  hero : string;
  hero_cards : list (option string);
  players : list Player;
  actions : list Action;
  board : list string;
  hero_result : Q;
}.

(* ================================================================== *)
(** ** The hand parser *)

(** The parser's fixed patterns. *)
Definition ID_RE : re :=                  (* Poker Hand #(\d+) *)
  cat [Lit "Poker Hand #"; Group 1 (Plus CDigit)].
Definition TABLE_RE : re :=               (* Table\s+(.+) *)
  cat [Lit "Table"; Plus CSpace; Group 1 (Plus CAny)].
Definition STAKE_RE : re :=               (* Blinds\s+(\S+)/(\S+) *)
  cat [Lit "Blinds"; Plus CSpace; Group 1 (Plus CNonSpace); Lit "/"; Group 2 (Plus CNonSpace)].
Definition SEAT_RE : re :=                (* Seat (\d+): (\S+) \(([\d\.]+)\) *)
  cat [Lit "Seat "; Group 1 (Plus CDigit); Lit ": "; Group 2 (Plus CNonSpace);
       Lit " ("; Group 3 (Plus CDigitDot); Lit ")"].
Definition BOARD_RE : re :=               (* Board \[(.*?)\] *)
  cat [Lit "Board ["; Group 1 (LazyStar CAny); Lit "]"].
Definition ACTION_RE : re :=
  (* (\S+): (folds|checks|calls|bets|raises|all-in)(?: (\$?[\d\.]+))? *)
  cat [Group 1 (Plus CNonSpace); Lit ": ";
       Group 2 (Alt ["folds"; "checks"; "calls"; "bets"; "raises"; "all-in"]);
       OptNC (cat [Lit " "; Group 3 (cat [OptChar "$"; Plus CDigitDot])])].

(** What follows the hero's name in the three patterns built from it. *)
Definition CARDS_SUFFIX : re :=           (* : Card dealt to \S+ \[(\S+) (\S+)\] *)
  cat [Lit ": Card dealt to "; Plus CNonSpace; Lit " ["; Group 1 (Plus CNonSpace);
       Lit " "; Group 2 (Plus CNonSpace); Lit "]"].
Definition COLLECTED_SUFFIX : re :=       (*  collected \$?([\d\.]+) *)
  cat [Lit " collected "; OptChar "$"; Group 1 (Plus CDigitDot)].
Definition LOST_SUFFIX : re :=            (*  lost \$?([\d\.]+) *)
  cat [Lit " lost "; OptChar "$"; Group 1 (Plus CDigitDot)].

(** The outcome of [re.search(hero_name + suffix, text)].  The hero's name is
    spliced into the pattern as it is, so it is read as a regular expression:
    compiling it may fail, and its own groups come first in the numbering. *)
Inductive hero_match : Type :=
| HError                                   (* re.error *)
| HNoMatch                                 (* None *)
| HMatch (groups : list (option string)).  (* m.group(1), m.group(2), ... *)

(** [m.group(n)] of such a match. *)
Definition hgroup (n : nat) (groups : list (option string)) : exc (option string) :=
  match n with
  | O => Raise IndexError
  | S i =>
      match groups !! i with
      | Some g => Ret g
      | None => Raise IndexError
      end
  end.

Section Parser.

(** Python's [int(s)]: [None] is its [ValueError] (a run of digits too long
    for the interpreter's limit on conversions is refused). *)
Variable py_int : string -> option Z.

(** Python's [float(s)]: [None] is its [ValueError]. *)
Variable py_float : string -> option Q.

(** Python's [re.search(hero_name + suffix, text)], as
    [re_search_hero hero_name suffix text]. *)
Variable re_search_hero : string -> re -> string -> hero_match.

Definition to_int (s : string) : exc Z :=
  match py_int s with
  | Some n => Ret n
  | None => Raise ValueError
  end.

Definition to_float (s : string) : exc Q :=
  match py_float s with
  | Some q => Ret q
  | None => Raise ValueError
  end.

(** [float(None)] is a [TypeError]. *)
Definition to_float_opt (s : option string) : exc Q :=
  match s with
  | Some s => to_float s
  | None => Raise TypeError
  end.

(* ---------------- HEADER ---------------- *)

Definition parse_hand_id (hand_text : string) : string :=
  match re_search ID_RE hand_text with
  | Some (m, _) => group 1 m
  | None => "UNKNOWN"
  end.

Definition parse_table (hand_text : string) : string :=
  match re_search TABLE_RE hand_text with
  | Some (m, _) => str_strip (group 1 m)
  | None => "UnknownTable"
  end.

Definition parse_stakes (hand_text : string) : exc (Q * Q) :=
  match re_search STAKE_RE hand_text with
  | Some (m, _) =>
      sb ← to_float (remove_char "$" (group 1 m));
      bb ← to_float (remove_char "$" (group 2 m));
      Ret (sb, bb)
  | None => Ret (1 # 2, 1)%Q
  end.

(* ---------------- PLAYERS ---------------- *)

Definition parse_player (m : captures) : exc Player :=
  seat ← to_int (group 1 m);
  stack ← to_float (group 3 m);
  Ret {| seat := seat; name := group 2 m; stack := stack |}.

Definition parse_players (hand_text : string) : exc (list Player) :=
  foldM (fun players m => p ← parse_player m; Ret (players ++ [p]))
        [] (re_findall SEAT_RE hand_text).

(* ---------------- HERO CARDS ---------------- *)

Definition parse_hero_cards (hero_name hand_text : string) : exc (list (option string)) :=
  match re_search_hero hero_name CARDS_SUFFIX hand_text with
  | HError => Raise ReError
  | HNoMatch => Ret []
  | HMatch gs => c1 ← hgroup 1 gs; c2 ← hgroup 2 gs; Ret [c1; c2]
  end.

(* ---------------- BOARD ---------------- *)

Definition parse_board (hand_text : string) : list string :=
  match re_search BOARD_RE hand_text with
  | Some (m, _) => str_split (group 1 m)
  | None => []
  end.

(* ---------------- ACTIONS ---------------- *)

(** The street a [***] line switches to. *)
Definition marker_street (line : string) : Street :=
  if str_contains "FLOP" line then flop
  else if str_contains "TURN" line then turn
  else if str_contains "RIVER" line then river
  else preflop.

(** One turn of the loop over the lines: the state is the variable [street]
    ([None] until the first marker) and the list [actions].  Group 3 has at
    least one character when it takes part, so [if amount:] asks whether it
    did. *)
Definition action_step (st : option Street * list Action) (raw_line : string)
  : exc (option Street * list Action) :=
  let '(street, actions) := st in
  let line := str_strip raw_line in
  if str_startswith "***" line then Ret (Some (marker_street line), actions)
  else
    match re_match ACTION_RE line, street with
    | Some (m, _), Some s =>
        amount ← match m !! 3 with
                 | Some a =>
                     if is_empty a then Ret None
                     else Some <$> to_float (remove_char "$" a)
                 | None => Ret None
                 end;
        Ret (street, actions ++ [{| street := s; actor := group 1 m;
                                    action := group 2 m; amount := amount |}])
    | _, _ => Ret (street, actions)
    end.

(** The loop, from a given state. *)
Definition run_lines (st : option Street * list Action) (lines : list string)
  : exc (option Street * list Action) :=
  foldM action_step st lines.

Definition parse_actions (hand_text : string) : exc (list Action) :=
  snd <$> run_lines (None, []) (str_splitlines hand_text).

(* ---------------- HERO RESULT ---------------- *)

Definition hero_amount (hero_name : string) (suffix : re) (hand_text : string) : exc Q :=
  match re_search_hero hero_name suffix hand_text with
  | HError => Raise ReError
  | HNoMatch => Ret 0%Q
  | HMatch gs => g ← hgroup 1 gs; to_float_opt g
  end.

Definition parse_result (hero_name hand_text : string) : exc Q :=
  win ← hero_amount hero_name COLLECTED_SUFFIX hand_text;
  lose ← hero_amount hero_name LOST_SUFFIX hand_text;
  Ret (0 + win - lose)%Q.

(** The body of [parse_hand]'s [try]. *)
Definition parse_hand_body (hand_text hero_name : string) : exc Hand :=
  let hand_id := parse_hand_id hand_text in
  let table := parse_table hand_text in
  stakes ← parse_stakes hand_text;
  players ← parse_players hand_text;
  hero_cards ← parse_hero_cards hero_name hand_text;
  let board := parse_board hand_text in
  actions ← parse_actions hand_text;
  result ← parse_result hero_name hand_text;
  Ret {| hand_id := hand_id; datetime := None; table := table;
         sb := fst stakes; bb := snd stakes; hero := hero_name;
         hero_cards := hero_cards; players := players; actions := actions;
         board := board; hero_result := result |}.

Definition parse_hand (hand_text hero_name : string) : option Hand :=
  try_except (parse_hand_body hand_text hero_name).

End Parser.

(* ================================================================== *)
(** ** The library functions on plain inputs

    The instances at which the sample blocks below are parsed; no general
    statement uses them.

    [decimal_int] is [int] on a short run of digits.  [decimal_float] is
    [float] on digits with at most one dot, read exactly: Python's [float]
    also reads a sign, an exponent, [inf] and [nan], and rounds what it reads
    to a double.  Every number of the sample blocks is one a double holds
    exactly.  [literal_search] is [re.search] for a hero name of letters and
    digits only, which as a pattern matches itself: a name with a character
    that is special in a pattern is matched as a pattern by Python, or refused
    with [re.error], and is outside this instance. *)

Fixpoint all_digits (s : string) : bool :=
  match s with
  | String a s' => is_digit a && all_digits s'
  | "" => true
  end.

Definition decimal_int (s : string) : option Z :=
  if all_digits s && negb (is_empty s) then Some (int_of_digits s) else None.

(** The text before the first dot and, when there is a dot, the text after it. *)
Fixpoint split_dot (s : string) : string * option string :=
  match s with
  | String a s' =>
      if Ascii.eqb a "." then ("", Some s')
      else let '(i, f) := split_dot s' in (String a i, f)
  | "" => ("", None)
  end.

Definition decimal_float (s : string) : option Q :=
  let '(ip, f) := split_dot s in
  let fp := default "" f in
  if all_digits ip && all_digits fp && negb (is_empty (ip +:+ fp))
  then Some (int_of_digits (ip +:+ fp) # Z.to_pos (10 ^ Z.of_nat (String.length fp)))
  else None.

Fixpoint group_count (r : re) : nat :=
  match r with
  | Group _ r1 => S (group_count r1)
  | OptNC r1 => group_count r1
  | Seq r1 r2 => group_count r1 + group_count r2
  | _ => O
  end.

Definition literal_search (hero_name : string) (suffix : re) (text : string) : hero_match :=
  match re_search (Seq (Lit hero_name) suffix) text with
  | Some (m, _) => HMatch (map (fun n => m !! n) (seq 1 (group_count suffix)))
  | None => HNoMatch
  end.

(* ================================================================== *)
(** ** Position logic *)

(** [sorted(players, key=lambda p: p.seat)]: the stable sort by seat, written
    as an insertion sort that puts a player before the first one whose seat is
    not smaller. *)
Fixpoint insert_by_seat (p : Player) (l : list Player) : list Player :=
  match l with
  | [] => [p]
  | q :: l' => if (seat p <=? seat q)%Z then p :: q :: l' else q :: insert_by_seat p l'
  end.

Definition sorted_by_seat (l : list Player) : list Player := foldr insert_by_seat [] l.

Definition positions : list string := ["BTN"; "SB"; "BB"; "UTG"; "MP"; "CO"].

(** [enumerate(l)] *)
Definition enumerate {A} (l : list A) : list (nat * A) := combine (seq 0 (length l)) l.

(** [positions[i % len(positions)]] *)
Definition position_at (i : nat) : string := nth (i mod length positions) positions "".

(** The loop [for i, p in enumerate(sorted_players): pos_map[p.name] = ...]. *)
Definition assign_positions (sorted_players : list Player) : gmap string string :=
  fold_left (fun pos_map '(i, p) => <[name p := position_at i]> pos_map)
            (enumerate sorted_players) ∅.

Definition determine_positions (hand : Hand) : gmap string string :=
  match players hand with
  | [] => ∅
  | _ => assign_positions (sorted_by_seat (players hand))
  end.

(* ================================================================== *)
(** ** Float arithmetic of the statistics

    Exact, as said at the top: where Python rounds every quotient, product and
    mean to a double, these definitions do not.  They raise where Python
    raises, except for a mean that underflows to zero or overflows. *)

(** [x / y] *)
Definition pydiv (x y : Q) : exc Q :=
  if Qeq_bool y 0 then Raise ZeroDivisionError else Ret (x / y)%Q.

(** [sum(xs)] *)
Definition py_sum (xs : list Q) : Q := fold_left Qplus xs 0%Q.

(** [statistics.mean(xs)] *)
Definition mean (xs : list Q) : exc Q :=
  match xs with
  | [] => Raise StatisticsError
  | _ => Ret (py_sum xs / inject_Z (Z.of_nat (length xs)))%Q
  end.

(** Rounding to the nearest integer, a tie going to the even one. *)
Definition round_half_even (x : Q) : Z :=
  let f := Qfloor x in
  match (x - inject_Z f ?= 1 # 2)%Q with
  | Lt => f
  | Gt => (f + 1)%Z
  | Eq => if Z.even f then f else (f + 1)%Z
  end.

(** [round(x, 2)], of the exact value: the nearest number of two decimals, a
    tie going to the even one.  Python applies the same rule to the double it
    has computed. *)
Definition round2 (x : Q) : Q := (inject_Z (round_half_even (x * 100)) / 100)%Q.

(** [n or 1] *)
Definition or1 (n : Z) : Z := if (n =? 0)%Z then 1%Z else n.

(** [a / b * 100] for two counters. *)
Definition ratio100 (a b : Z) : exc Q :=
  q ← pydiv (inject_Z a) (inject_Z b); Ret (q * 100)%Q.

(* ================================================================== *)
(** ** What the two compute operations return *)

(** The dict of [compute], by key. *)
Module Stats.
Record t : Type := {
  hands : Z;
  vpip_pct : Q;
  pfr_pct : Q;
  vpip_pfr_gap : Q;
  cbet_flop_pct : Q;
  cbet_turn_pct : Q;
  wtsd_pct : Q;
  wsd_pct : Q;
  total_won_chips : Q;
  bb_per_100 : Q;
}.
End Stats.

(** One position's dict in the result of [compute_positional], by key. *)
Module PosRow.
Record t : Type := {
  hands : Z;
  vpip_pct : Q;
  pfr_pct : Q;
  bb_per_100 : Q;
}.
End PosRow.

(* ================================================================== *)
(** ** The stats aggregator *)

Module StatsAggregator.

Record t : Type := {
  hero : string;
  hands : list Hand;
  total_won_chips : Q;
  vpip : Z;
  pfr : Z;
  hands_count : Z;
  threebet : Z;
  threebet_opportunities : Z;
  fold_to_3bet : Z;
  vs_3bet_opportunities : Z;
  cbet_flop : Z;
  cbet_flop_opportunities : Z;
  cbet_turn : Z;
  cbet_turn_opportunities : Z;
  wtsd : Z;
  wsd_wins : Z;
  saw_flop : Z;
  pos_stats : gmap string (gmap string Z);
}.

(** [StatsAggregator(hero=hero)] *)
Definition new (hero : string) : t := {|
  hero := hero; hands := []; total_won_chips := 0;
  vpip := 0; pfr := 0; hands_count := 0;
  threebet := 0; threebet_opportunities := 0;
  fold_to_3bet := 0; vs_3bet_opportunities := 0;
  cbet_flop := 0; cbet_flop_opportunities := 0;
  cbet_turn := 0; cbet_turn_opportunities := 0;
  wtsd := 0; wsd_wins := 0; saw_flop := 0;
  pos_stats := ∅;
|}.

(** [cnt.get(key, d)] *)
Definition get (key : string) (d : Z) (cnt : gmap string Z) : Z := default d (cnt !! key).

(** [pos_stats[pos][key] += 1] on a [defaultdict(Counter)]. *)
Definition bump (pos key : string) (ps : gmap string (gmap string Z))
  : gmap string (gmap string Z) :=
  let cnt := default ∅ (ps !! pos) in
  <[pos := <[key := (get key 0 cnt + 1)%Z]> cnt]> ps.

(** [[a for a in hand.actions if a.street == "preflop" and a.actor == hero]] *)
Definition preflop_actions (hero : string) (hand : Hand) : list Action :=
  filter (fun a => street a = preflop ∧ actor a = hero) (actions hand).

(** [[a for a in hand.actions if a.street == s]] *)
Definition street_actions (s : Street) (hand : Hand) : list Action :=
  filter (fun a => street a = s) (actions hand).

(** [any(a.action in verbs for a in acts)] *)
Definition any_action (verbs : list string) (acts : list Action) : bool :=
  existsb (fun a => bool_decide (action a ∈ verbs)) acts.

Definition did_vpip (hero : string) (hand : Hand) : bool :=
  any_action ["calls"; "raises"; "bets"; "all-in"] (preflop_actions hero hand).

Definition did_pfr (hero : string) (hand : Hand) : bool :=
  any_action ["raises"; "bets"; "all-in"] (preflop_actions hero hand).

(** [positions.get(hero, "UNKNOWN")] *)
Definition hero_pos (hero : string) (hand : Hand) : string :=
  default "UNKNOWN" (determine_positions hand !! hero).

(** A c-bet block of [add_hand]: the opportunity counter, the hit counter and
    the positional counters after it. *)
Definition cbet_update (self_hero pos key : string) (did_pfr : bool) (acts : list Action)
  (opportunities hits : Z) (ps : gmap string (gmap string Z))
  : Z * Z * gmap string (gmap string Z) :=
  match did_pfr, acts with
  | true, first :: _ =>
      let first_actor := actor first in
      if bool_decide (first_actor = self_hero)
      then ((opportunities + 1)%Z, (hits + 1)%Z, bump pos key ps)
      else ((opportunities + 1)%Z, hits, ps)
  | _, _ => (opportunities, hits, ps)
  end.

Definition add_hand (self : t) (hand : Hand) : t :=
  let hero_pos := hero_pos (hero self) hand in
  let ps := bump hero_pos "hands" (pos_stats self) in
  (* VPIP / PFR *)
  let did_vpip := did_vpip (hero self) hand in
  let did_pfr := did_pfr (hero self) hand in
  let '(vpip', ps) :=
    if did_vpip then ((vpip self + 1)%Z, bump hero_pos "vpip" ps) else (vpip self, ps) in
  let '(pfr', ps) :=
    if did_pfr then ((pfr self + 1)%Z, bump hero_pos "pfr" ps) else (pfr self, ps) in
  (* Flop C-bet *)
  let flop_actions := street_actions flop hand in
  let saw_flop' :=
    match flop_actions with
    | [] => saw_flop self
    | _ => (saw_flop self + 1)%Z
    end in
  (* WTSD / W$SD *)
  let '(wtsd', wsd_wins') :=
    if bool_decide (length (board hand) = 5%nat) then
      ((wtsd self + 1)%Z,
       if negb (Qle_bool (hero_result hand) 0) then (wsd_wins self + 1)%Z else wsd_wins self)
    else (wtsd self, wsd_wins self) in
  (* Flop C-bet opportunity *)
  let '(cbet_flop_opportunities', cbet_flop', ps) :=
    cbet_update (hero self) hero_pos "cbet_flop" did_pfr flop_actions
                (cbet_flop_opportunities self) (cbet_flop self) ps in
  (* Turn C-bet opportunity *)
  let turn_actions := street_actions turn hand in
  let '(cbet_turn_opportunities', cbet_turn', ps) :=
    cbet_update (hero self) hero_pos "cbet_turn" did_pfr turn_actions
                (cbet_turn_opportunities self) (cbet_turn self) ps in
  {| hero := hero self;
     hands := hands self ++ [hand];
     total_won_chips := (total_won_chips self + hero_result hand)%Q;
     vpip := vpip';
     pfr := pfr';
     hands_count := (hands_count self + 1)%Z;
     threebet := threebet self;
     threebet_opportunities := threebet_opportunities self;
     fold_to_3bet := fold_to_3bet self;
     vs_3bet_opportunities := vs_3bet_opportunities self;
     cbet_flop := cbet_flop';
     cbet_flop_opportunities := cbet_flop_opportunities';
     cbet_turn := cbet_turn';
     cbet_turn_opportunities := cbet_turn_opportunities';
     wtsd := wtsd';
     wsd_wins := wsd_wins';
     saw_flop := saw_flop';
     pos_stats := ps |}.

(** A fresh aggregator after [add_hand] on each hand in turn. *)
Definition ingest (hero : string) (hs : list Hand) : t := fold_left add_hand hs (new hero).

(* ---------------- STATS COMPUTATION ---------------- *)

(** [(hits / opportunities * 100) if opportunities else 0.0] *)
Definition cbet_pct (hits opportunities : Z) : exc Q :=
  if (opportunities =? 0)%Z then Ret 0%Q else ratio100 hits opportunities.

(** [mean([h.bb for h in self.hands]) if self.hands else 1] *)
Definition avg_bb (self : t) : exc Q :=
  match hands self with
  | [] => Ret 1%Q
  | _ => mean (map bb (hands self))
  end.

Definition compute (self : t) : exc Stats.t :=
  let total := or1 (hands_count self) in
  vp ← ratio100 (vpip self) total;
  let vpip_pct := round2 vp in
  pf ← ratio100 (pfr self) total;
  let pfr_pct := round2 pf in
  let vpip_pfr_gap := round2 (vpip_pct - pfr_pct) in
  cf ← cbet_pct (cbet_flop self) (cbet_flop_opportunities self);
  ct ← cbet_pct (cbet_turn self) (cbet_turn_opportunities self);
  wt ← ratio100 (wtsd self) (or1 (saw_flop self));
  ws ← ratio100 (wsd_wins self) (or1 (wtsd self));
  (* bb/100 *)
  avg_bb ← avg_bb self;
  q ← pydiv (total_won_chips self) avg_bb;
  bb100 ← pydiv (q * 100) (inject_Z total);
  Ret {| Stats.hands := hands_count self;
         Stats.vpip_pct := vpip_pct;
         Stats.pfr_pct := pfr_pct;
         Stats.vpip_pfr_gap := vpip_pfr_gap;
         Stats.cbet_flop_pct := round2 cf;
         Stats.cbet_turn_pct := round2 ct;
         Stats.wtsd_pct := round2 wt;
         Stats.wsd_pct := round2 ws;
         Stats.total_won_chips := round2 (total_won_chips self);
         Stats.bb_per_100 := round2 bb100 |}.

(** The local [cbf] of [compute_positional]:
    [cnt.get("cbet_flop", 0) / (cnt.get("cbet_flop_opportunities", hands) or 1) * 100]. *)
Definition positional_cbf (cnt : gmap string Z) (hands : Z) : exc Q :=
  ratio100 (get "cbet_flop" 0 cnt) (or1 (get "cbet_flop_opportunities" hands cnt)).

(** [[h.hero_result for h in self.hands if determine_positions(h).get(self.hero) == pos]] *)
Definition results_at (self : t) (pos : string) : list Q :=
  map hero_result
      (filter (fun h => determine_positions h !! hero self = Some pos) (hands self)).

(** The positional bb/100: [0.0] unless the position has results. *)
Definition positional_bb100 (self : t) (pos : string) : exc Q :=
  match results_at self pos with
  | [] => Ret 0%Q
  | results =>
      avg_bb ← mean (map bb (hands self));
      q ← pydiv (py_sum results) avg_bb;
      pydiv (q * 100) (inject_Z (Z.of_nat (length results)))
  end.

(** One turn of the loop of [compute_positional]: [None] is its [continue]. *)
Definition positional_row (self : t) (pos : string) (cnt : gmap string Z)
  : exc (option PosRow.t) :=
  let hands := get "hands" 0 cnt in
  if (hands =? 0)%Z then Ret None
  else
    vp ← ratio100 (get "vpip" 0 cnt) hands;
    pf ← ratio100 (get "pfr" 0 cnt) hands;
    cbf ← positional_cbf cnt hands;
    bb100 ← positional_bb100 self pos;
    Ret (Some {| PosRow.hands := hands;
                 PosRow.vpip_pct := round2 vp;
                 PosRow.pfr_pct := round2 pf;
                 PosRow.bb_per_100 := round2 bb100 |}).

Definition compute_positional (self : t) : exc (gmap string PosRow.t) :=
  map_fold (fun pos cnt acc =>
              pos_output ← acc;
              row ← positional_row self pos cnt;
              Ret (match row with
                   | Some r => <[pos := r]> pos_output
                   | None => pos_output
                   end))
           (Ret ∅) (pos_stats self).

End StatsAggregator.

(* ================================================================== *)
(** ** Vocabulary of the statements about the parser *)

(** A section marker: a line that starts with three stars once stripped. *)
Definition is_marker (raw_line : string) : bool :=
  str_startswith "***" (str_strip raw_line).

Section ParserVocabulary.

Variable py_int : string -> option Z.
Variable py_float : string -> option Q.
Variable re_search_hero : string -> re -> string -> hero_match.

(** The record [parse_hand] builds from the results of its steps. *)
Definition hand_of (hand_text hero_name : string) (stakes : Q * Q) (ps : list Player)
  (cards : list (option string)) (acts : list Action) (res : Q) : Hand :=
  {| hand_id := parse_hand_id hand_text; datetime := None;
     table := parse_table hand_text;
     sb := fst stakes; bb := snd stakes; hero := hero_name;
     hero_cards := cards; players := ps; actions := acts;
     board := parse_board hand_text; hero_result := res |}.

(** The five steps of the body that can raise.  [steps_raise] says one of
    them does. *)
Definition steps_raise (hand_text hero_name : string) : Prop :=
  exists e,
    parse_stakes py_float hand_text = Raise e
    \/ parse_players py_int py_float hand_text = Raise e
    \/ parse_hero_cards re_search_hero hero_name hand_text = Raise e
    \/ parse_actions py_float hand_text = Raise e
    \/ parse_result py_float re_search_hero hero_name hand_text = Raise e.

End ParserVocabulary.

(* ================================================================== *)
(** ** Vocabulary of the statements about the aggregator *)

(** The value of one positional counter, [0] while it was never written. *)
Definition counter (pos key : string) (ps : gmap string (gmap string Z)) : Z :=
  StatsAggregator.get key 0 (default ∅ (ps !! pos)).

(** Hero was the preflop raiser: he has a preflop action that raises, bets or
    goes all-in. *)
Definition hero_was_pfr (hero_name : string) (hand : Hand) : Prop :=
  exists a, a ∈ actions hand /\ street a = preflop /\ actor a = hero_name
            /\ action a ∈ ["raises"; "bets"; "all-in"].

(** Hero put money in voluntarily: he has a preflop action that calls, raises,
    bets or goes all-in. *)
Definition hero_was_vpip (hero_name : string) (hand : Hand) : Prop :=
  exists a, a ∈ actions hand /\ street a = preflop /\ actor a = hero_name
            /\ action a ∈ ["calls"; "raises"; "bets"; "all-in"].

(** The hand has an action on street [s]. *)
Definition has_action_on (s : Street) (hand : Hand) : Prop :=
  exists a, a ∈ actions hand /\ street a = s.

(** The first action on street [s], in the order of play. *)
Fixpoint first_on_street (s : Street) (acts : list Action) : option Action :=
  match acts with
  | [] => None
  | a :: rest => if decide (street a = s) then Some a else first_on_street s rest
  end.

(** The first action on street [s] is hero's. *)
Definition hero_acts_first_on (s : Street) (hero_name : string) (hand : Hand) : Prop :=
  actor <$> first_on_street s (actions hand) = Some hero_name.

(** A positional counter bumped, or not. *)
Definition opt_bump (b : bool) (pos key : string) (ps : gmap string (gmap string Z))
  : gmap string (gmap string Z) :=
  if b then StatsAggregator.bump pos key ps else ps.

(** The condition of a c-bet block, and of its inner [if]. *)
Definition cbet_opportunity (did_pfr : bool) (acts : list Action) : bool :=
  did_pfr && match acts with [] => false | _ => true end.

Definition cbet_hit (self_hero : string) (did_pfr : bool) (acts : list Action) : bool :=
  did_pfr && match acts with
             | first :: _ => bool_decide (actor first = self_hero)
             | [] => false
             end.

(** The hero's cumulative result and the arithmetic mean of the big blinds
    over a list of hands, as sums over the list. *)
Definition total_result (hs : list Hand) : Q :=
  foldr (fun h acc => hero_result h + acc)%Q 0%Q hs.

Definition mean_big_blind (hs : list Hand) : Q :=
  (foldr (fun h acc => bb h + acc) 0 hs / inject_Z (Z.of_nat (length hs)))%Q.

(** What holds of the counters of an aggregator whatever hands it was fed. *)
Record counters_ok (st : StatsAggregator.t) : Prop := {
  ok_count : StatsAggregator.hands_count st = Z.of_nat (length (StatsAggregator.hands st));
  ok_total : (StatsAggregator.total_won_chips st == total_result (StatsAggregator.hands st))%Q;
  ok_pfr : (0 <= StatsAggregator.pfr st <= StatsAggregator.vpip st)%Z;
  ok_vpip : (StatsAggregator.vpip st <= StatsAggregator.hands_count st)%Z;
  ok_cbet_flop :
    (0 <= StatsAggregator.cbet_flop st <= StatsAggregator.cbet_flop_opportunities st)%Z;
  ok_cbet_turn :
    (0 <= StatsAggregator.cbet_turn st <= StatsAggregator.cbet_turn_opportunities st)%Z;
  ok_wsd : (0 <= StatsAggregator.wsd_wins st <= StatsAggregator.wtsd st)%Z;
  ok_saw_flop : (0 <= StatsAggregator.saw_flop st)%Z;
  ok_pos_seen : forall pos,
    is_Some (StatsAggregator.pos_stats st !! pos) ->
    (0 < counter pos "hands" (StatsAggregator.pos_stats st))%Z;
  ok_pos_order : forall pos,
    (0 <= counter pos "pfr" (StatsAggregator.pos_stats st)
     <= counter pos "vpip" (StatsAggregator.pos_stats st))%Z
    /\ (counter pos "vpip" (StatsAggregator.pos_stats st)
        <= counter pos "hands" (StatsAggregator.pos_stats st))%Z;
  ok_pos_keys : forall pos cnt,
    StatsAggregator.pos_stats st !! pos = Some cnt ->
    cnt !! "cbet_flop_opportunities" = None;
}.

(** The dict [compute] returns when no division raises, for a mean big blind
    [avg]: every quotient written with the total division of [Q]. *)
Definition stats_with (self : StatsAggregator.t) (avg : Q) : Stats.t :=
  let total := inject_Z (or1 (StatsAggregator.hands_count self)) in
  let pct (a b : Z) : Q := (inject_Z a / inject_Z b * 100)%Q in
  let cbet (hits opportunities : Z) : Q :=
    if (opportunities =? 0)%Z then 0%Q else pct hits opportunities in
  let vpip_pct := round2 (pct (StatsAggregator.vpip self) (or1 (StatsAggregator.hands_count self))) in
  let pfr_pct := round2 (pct (StatsAggregator.pfr self) (or1 (StatsAggregator.hands_count self))) in
  {| Stats.hands := StatsAggregator.hands_count self;
     Stats.vpip_pct := vpip_pct;
     Stats.pfr_pct := pfr_pct;
     Stats.vpip_pfr_gap := round2 (vpip_pct - pfr_pct);
     Stats.cbet_flop_pct :=
       round2 (cbet (StatsAggregator.cbet_flop self) (StatsAggregator.cbet_flop_opportunities self));
     Stats.cbet_turn_pct :=
       round2 (cbet (StatsAggregator.cbet_turn self) (StatsAggregator.cbet_turn_opportunities self));
     Stats.wtsd_pct :=
       round2 (pct (StatsAggregator.wtsd self) (or1 (StatsAggregator.saw_flop self)));
     Stats.wsd_pct :=
       round2 (pct (StatsAggregator.wsd_wins self) (or1 (StatsAggregator.wtsd self)));
     Stats.total_won_chips := round2 (StatsAggregator.total_won_chips self);
     Stats.bb_per_100 := round2 (StatsAggregator.total_won_chips self / avg * 100 / total) |}.

(** The order the resolver sorts by. *)
Definition seat_le (p q : Player) : Prop := (seat p <= seat q)%Z.

(** How many players of a list sit at a smaller seat number than [p]. *)
Definition seat_rank (p : Player) (l : list Player) : nat :=
  length (filter (fun q => (seat q < seat p)%Z) l).

(** The assignment loop, from any index and any map. *)
Definition assign_from (start : nat) (sp : list Player) (m : gmap string string)
  : gmap string string :=
  fold_left (fun pos_map '(i, p) => <[name p := position_at i]> pos_map)
            (combine (seq start (length sp)) sp) m.

(** The row [compute_positional] writes for a position, if it writes one. *)
Definition row_of (self : StatsAggregator.t) (pos : string) (cnt : gmap string Z)
  : option PosRow.t :=
  match StatsAggregator.positional_row self pos cnt with
  | Ret row => row
  | Raise _ => None
  end.

(** ** Sample inputs *)

(** A block from its lines, each ended by a newline. *)
Definition block (lines : list string) : string :=
  foldr (fun l rest => l +:+ nl +:+ rest) "" lines.

(** An action line of the hero before any section marker. *)
Definition early_action_block : string :=
  block ["Poker Hand #1"; "Hero: calls"; "*** FLOP *** [2c 3d 4h]"; "Hero: checks"].

(** A Board line with two cards. *)
Definition short_board_block : string :=
  block ["Poker Hand #1"; "Board [Ah Kd]"].

(** A Board line with six cards. *)
Definition long_board_block : string :=
  block ["Poker Hand #1"; "Board [Ah Kd Qc Js Th 9d]"].

(** Hero all-in before the flop and called: five board cards, no flop action. *)
Definition preflop_showdown_block : string :=
  block ["Poker Hand #7"; "Blinds $0.5/$1"; "Seat 1: Hero (100)"; "Seat 2: Bob (100)";
         "*** HOLE CARDS ***"; "Hero: all-in 100"; "Bob: calls 100";
         "Board [2c 3d 4h 5s 6s]"].

Definition preflop_showdown_hand : Hand :=
  {| hand_id := "7"; datetime := None; table := "UnknownTable";
     sb := 0.5; bb := 1; hero := "Hero"; hero_cards := [];
     players := [{| seat := 1; name := "Hero"; stack := 100 |};
                 {| seat := 2; name := "Bob"; stack := 100 |}];
     actions := [{| street := preflop; actor := "Hero"; action := "all-in";
                    amount := Some 100%Q |};
                 {| street := preflop; actor := "Bob"; action := "calls";
                    amount := Some 100%Q |}];
     board := ["2c"; "3d"; "4h"; "5s"; "6s"]; hero_result := 0 + 0 - 0 |}.

(** A table whose blinds are written as zero. *)
Definition zero_blind_block : string :=
  block ["Poker Hand #8"; "Blinds 0/0"; "Seat 1: Hero (100)"].

Definition zero_blind_hand : Hand :=
  {| hand_id := "8"; datetime := None; table := "UnknownTable";
     sb := 0; bb := 0; hero := "Hero"; hero_cards := [];
     players := [{| seat := 1; name := "Hero"; stack := 100 |}];
     actions := []; board := []; hero_result := 0 + 0 - 0 |}.

(** The same table, hero not seated. *)
Definition zero_blind_away_block : string :=
  block ["Poker Hand #9"; "Blinds 0/0"; "Seat 2: Bob (100)"].

Definition zero_blind_away_hand : Hand :=
  {| hand_id := "9"; datetime := None; table := "UnknownTable";
     sb := 0; bb := 0; hero := "Hero"; hero_cards := [];
     players := [{| seat := 2; name := "Bob"; stack := 100 |}];
     actions := []; board := []; hero_result := 0 + 0 - 0 |}.

(** The scenario of the specification: hero, at seat 1, raises before the
    flop, bets the flop first and checks the turn; five board cards; hero
    collects 20 at a big blind of 1. *)
Definition scenario_block : string :=
  block ["Poker Hand #123"; "Blinds $0.5/$1"; "Seat 1: Hero (100)"; "Seat 2: Bob (100)";
         "*** HOLE CARDS ***"; "Hero: raises $3"; "Bob: calls 3";
         "*** FLOP *** [2c 3d 4h]"; "Hero: bets 4"; "Bob: calls 4";
         "*** TURN *** [2c 3d 4h] [5s]"; "Hero: checks"; "Bob: checks";
         "Board [2c 3d 4h 5s 6s]"; "Hero collected $20"].

Definition scenario_hand : Hand :=
  {| hand_id := "123"; datetime := None; table := "UnknownTable";
     sb := 0.5; bb := 1; hero := "Hero"; hero_cards := [];
     players := [{| seat := 1; name := "Hero"; stack := 100 |};
                 {| seat := 2; name := "Bob"; stack := 100 |}];
     actions :=
       [{| street := preflop; actor := "Hero"; action := "raises"; amount := Some 3%Q |};
        {| street := preflop; actor := "Bob"; action := "calls"; amount := Some 3%Q |};
        {| street := flop; actor := "Hero"; action := "bets"; amount := Some 4%Q |};
        {| street := flop; actor := "Bob"; action := "calls"; amount := Some 4%Q |};
        {| street := turn; actor := "Hero"; action := "checks"; amount := None |};
        {| street := turn; actor := "Bob"; action := "checks"; amount := None |}];
     board := ["2c"; "3d"; "4h"; "5s"; "6s"]; hero_result := 0 + 20 - 0 |}.

(** Hero, at seat 1 again, folds before the flop. *)
Definition folded_block : string :=
  block ["Poker Hand #124"; "Blinds $0.5/$1"; "Seat 1: Hero (100)"; "Seat 2: Bob (100)";
         "*** HOLE CARDS ***"; "Hero: folds"].

Definition folded_hand : Hand :=
  {| hand_id := "124"; datetime := None; table := "UnknownTable";
     sb := 0.5; bb := 1; hero := "Hero"; hero_cards := [];
     players := [{| seat := 1; name := "Hero"; stack := 100 |};
                 {| seat := 2; name := "Bob"; stack := 100 |}];
     actions := [{| street := preflop; actor := "Hero"; action := "folds"; amount := None |}];
     board := []; hero_result := 0 + 0 - 0 |}.

(** A hand hero is not seated in. *)
Definition away_block : string :=
  block ["Poker Hand #125"; "Blinds $0.5/$1"; "Seat 2: Bob (100)"; "Seat 3: Carl (100)"].

Definition away_hand : Hand :=
  {| hand_id := "125"; datetime := None; table := "UnknownTable";
     sb := 0.5; bb := 1; hero := "Hero"; hero_cards := [];
     players := [{| seat := 2; name := "Bob"; stack := 100 |};
                 {| seat := 3; name := "Carl"; stack := 100 |}];
     actions := []; board := []; hero_result := 0 + 0 - 0 |}.

(* ================================================================== *)
(** ** The block splitter *)

(** The text of [HAND_SPLIT_RE], after its [^]. *)
Definition HAND_MARKER : string := "Poker Hand #".

(** [HAND_SPLIT_RE.split(text)], for [^Poker Hand #] in multi-line mode: the
    marker matches at the start of the text and right after a newline.  The
    scan keeps whether it stands at the start of a line ([bol]), how many
    characters of a matched marker are still to pass over ([skip]) and the
    part read so far ([cur]). *)
Fixpoint re_split_from (s : string) (bol : bool) (skip : nat) (cur : string) : list string :=
  match skip with
  | S n =>
      match s with
      | String _ s' => re_split_from s' false n cur
      | "" => [cur]
      end
  | O =>
      if bol && String.prefix HAND_MARKER s then
        cur :: match s with
               | String _ s' => re_split_from s' false (String.length HAND_MARKER - 1) ""
               | "" => [""]
               end
      else
        match s with
        | String a s' => re_split_from s' (Ascii.eqb a LF) 0 (snoc cur a)
        | "" => [cur]
        end
  end.

Definition re_split (text : string) : list string := re_split_from text true 0 "".

(** The blocks [iter_hand_texts] yields, in order. *)
Definition iter_hand_texts (text : string) : list string :=
  match re_split text with
  | [] | [_] => []
  | _ :: parts => map (fun part => HAND_MARKER +:+ part) parts
  end.

(* ================================================================== *)
(** ** The loop of [main] over one text *)

Section Main.

Variable py_int : string -> option Z.
Variable py_float : string -> option Q.
Variable re_search_hero : string -> re -> string -> hero_match.

(** [for block in iter_hand_texts(text): hand = parse_hand(block, hero);
    if hand: aggregator.add_hand(hand)].  A [Hand] is always true. *)
Definition feed_text (hero_name : string) (aggregator : StatsAggregator.t) (text : string)
  : StatsAggregator.t :=
  fold_left (fun agg block =>
               match parse_hand py_int py_float re_search_hero block hero_name with
               | Some hand => StatsAggregator.add_hand agg hand
               | None => agg
               end)
            (iter_hand_texts text) aggregator.

End Main.

(** The concatenation of a list of strings. *)
Definition concat_strings (l : list string) : string := foldr String.append "" l.

(** The parts put together again, each after the first behind a marker. *)
Definition rejoin (parts : list string) : string :=
  concat_strings (map (fun part => HAND_MARKER +:+ part) parts).

(** A counter added up over the positions. *)
Definition pos_total (key : string) (ps : gmap string (gmap string Z)) : Z :=
  map_fold (fun _ cnt acc => (StatsAggregator.get key 0 cnt + acc)%Z) 0%Z ps.

(** A hand with its players replaced. *)
Definition with_players (h : Hand) (ps : list Player) : Hand :=
  {| hand_id := hand_id h; datetime := datetime h; table := table h;
     sb := sb h; bb := bb h; hero := hero h; hero_cards := hero_cards h;
     players := ps; actions := actions h; board := board h;
     hero_result := hero_result h |}.

(* ================================================================== *)
(** ** Vocabulary of the statements about the shape of a parsed hand *)

(** Every character of [u] is in the class [c]. *)
Fixpoint all_in (c : cclass) (u : string) : bool :=
  match u with
  | String a u' => in_class c a && all_in c u'
  | "" => true
  end.

(** What a match of [r] is: it takes a prefix of [s] and leaves [t], turning
    the groups [caps] into [caps']. *)
Fixpoint matches (r : re) (s : string) (caps : captures) (t : string) (caps' : captures)
  : Prop :=
  match r with
  | Eps => t = s /\ caps' = caps
  | Lit l => s = l +:+ t /\ caps' = caps
  | Plus c => exists u, s = u +:+ t /\ u <> "" /\ all_in c u = true /\ caps' = caps
  | LazyStar c => exists u, s = u +:+ t /\ all_in c u = true /\ caps' = caps
  | OptChar a => (s = String a t \/ s = t) /\ caps' = caps
  | Alt ws => exists w, w ∈ ws /\ s = w +:+ t /\ caps' = caps
  | Group n r1 =>
      exists u caps1, s = u +:+ t /\ matches r1 s caps t caps1 /\ caps' = <[n := u]> caps1
  | OptNC r1 => matches r1 s caps t caps' \/ (t = s /\ caps' = caps)
  | Seq r1 r2 => exists m capsm, matches r1 s caps m capsm /\ matches r2 m capsm t caps'
  end.

Definition ACTION_VERBS : list string :=
  ["folds"; "checks"; "calls"; "bets"; "raises"; "all-in"].

(** A non-empty run of characters of the class [c]. *)
Definition token (c : cclass) (s : string) : Prop := s <> "" /\ all_in c s = true.

Section ShapeVocabulary.

Variable py_int : string -> option Z.
Variable py_float : string -> option Q.

(** An action as the action pattern yields it from the lines [lines]. *)
Definition action_ok (lines : list string) (a : Action) : Prop :=
  action a ∈ ACTION_VERBS
  /\ token CNonSpace (actor a)
  /\ (forall q, amount a = Some q ->
                exists tok, token CDigitDot tok /\ py_float tok = Some q)
  /\ exists l, l ∈ lines /\ is_marker l = true /\ marker_street (str_strip l) = street a.

(** A player as the seat pattern yields it. *)
Definition player_ok (p : Player) : Prop :=
  token CNonSpace (name p)
  /\ (exists d, token CDigit d /\ py_int d = Some (seat p))
  /\ (exists tok, token CDigitDot tok /\ py_float tok = Some (stack p)).

End ShapeVocabulary.

(** The street variable of the action loop, as the markers among [lines] can
    set it. *)
Definition street_ok (lines : list string) (st : option Street) : Prop :=
  forall s, st = Some s ->
            exists l, l ∈ lines /\ is_marker l = true /\ marker_street (str_strip l) = s.

(* ================================================================== *)
(** ** Vocabulary of the statements about the board *)

(** [s.find(needle)]; [None] is its [-1]. *)
Fixpoint str_find (needle s : string) : option nat :=
  if String.prefix needle s then Some 0%nat
  else match s with
       | String _ s' => S <$> str_find needle s'
       | "" => None
       end.

(** [" ".join(ts)] *)
Fixpoint join_spaces (ts : list string) : string :=
  match ts with
  | [] => ""
  | [t] => t
  | t :: ts' => t +:+ " " +:+ join_spaces ts'
  end.

(** The character [c] does not occur in [s]. *)
Fixpoint lacks (c : ascii) (s : string) : bool :=
  match s with
  | String a s' => negb (Ascii.eqb a c) && lacks c s'
  | "" => true
  end.

(** A card as a Board line can show it: a non-empty run of characters that
    are neither white space nor the closing bracket. *)
Definition card_token (t : string) : Prop :=
  t <> "" /\ all_in CNonSpace t = true /\ lacks "]" t = true.

(* ================================================================== *)
(** ** Vocabulary of the statements about the block splitter *)

(** No marker stands at the start of a line of [s]; [bol] says whether [s]
    itself starts a line. *)
Fixpoint marker_free (s : string) (bol : bool) : bool :=
  negb (bol && String.prefix HAND_MARKER s)
  && match s with
     | String a s' => marker_free s' (Ascii.eqb a LF)
     | "" => true
     end.

(** What follows [s] starts a line: [s] is empty or ends with a newline. *)
Fixpoint ends_line (s : string) : bool :=
  match s with
  | "" => true
  | String a s' =>
      match s' with
      | "" => Ascii.eqb a LF
      | _ => ends_line s'
      end
  end.

(** What it is to cut [text] at its markers into [preamble] and [blocks],
    told without the splitter. *)
Definition split_at_markers (text preamble : string) (blocks : list string) : Prop :=
  text = preamble +:+ concat_strings blocks
  /\ marker_free preamble true = true
  /\ (blocks <> [] -> ends_line preamble = true)
  /\ forall i b,
       blocks !! i = Some b ->
       (exists part, b = HAND_MARKER +:+ part /\ marker_free part false = true)
       /\ ((S i < length blocks)%nat -> ends_line b = true).

(* ================================================================== *)
(** * Properties *)

(** ** The error monad *)

Lemma foldM_app {A B} (f : B -> A -> exc B) (acc : B) (xs ys : list A) :
  foldM f acc (xs ++ ys) = acc' ← foldM f acc xs; foldM f acc' ys.
Proof.
  revert acc. induction xs as [|x xs IH]; intros acc; simpl; [reflexivity|].
  destruct (f acc x) as [acc'|e]; simpl; [apply IH | reflexivity].
Qed.

Lemma try_except_Some {A} (body : exc A) (a : A) :
  try_except body = Some a <-> body = Ret a.
Proof. destruct body; simpl; split; congruence. Qed.

Lemma try_except_None {A} (body : exc A) :
  try_except body = None <-> exists e, body = Raise e.
Proof.
  destruct body as [a|e]; simpl; split; try congruence.
  - intros [e He]. congruence.
  - eauto.
Qed.

(** ** The street-tracking loop *)

Section ParserFacts.

Variable py_int : string -> option Z.
Variable py_float : string -> option Q.
Variable re_search_hero : string -> re -> string -> hero_match.

Lemma action_step_no_street (acts : list Action) (l : string) :
  is_marker l = false ->
  action_step py_float (None, acts) l = Ret (None, acts).
Proof.
  unfold is_marker, action_step. intros ->.
  destruct (re_match ACTION_RE (str_strip l)) as [[m t]|]; reflexivity.
Qed.

Lemma action_step_marker (st : option Street) (acts : list Action) (l : string) :
  is_marker l = true ->
  action_step py_float (st, acts) l = Ret (Some (marker_street (str_strip l)), acts).
Proof. unfold is_marker, action_step. intros ->. reflexivity. Qed.

Lemma run_lines_no_street (acts : list Action) (pre : list string) :
  Forall (fun l => is_marker l = false) pre ->
  run_lines py_float (None, acts) pre = Ret (None, acts).
Proof.
  unfold run_lines. induction 1 as [|l pre Hl _ IH]; [reflexivity|].
  cbn [foldM]. rewrite action_step_no_street by assumption. exact IH.
Qed.

(** C1, as the code has it.  The street variable starts undefined, not at
    preflop: whatever stands before the first section marker adds no action
    (the loop is still in its initial state there, with an empty action list),
    so the actions of a block are those of the lines from the first marker on;
    and a marker sets the street to preflop exactly when it contains none of
    FLOP, TURN and RIVER. *)
Theorem actions_before_first_marker_dropped (hand_text : string) (pre rest : list string) :
  str_splitlines hand_text = pre ++ rest ->
  Forall (fun l => is_marker l = false) pre ->
  run_lines py_float (None, []) pre = Ret (None, [])
  /\ parse_actions py_float hand_text = snd <$> run_lines py_float (None, []) rest
  /\ (forall l st acts,
        is_marker l = true ->
        (action_step py_float (st, acts) l = Ret (Some preflop, acts)
         <-> str_contains "FLOP" (str_strip l) = false
             /\ str_contains "TURN" (str_strip l) = false
             /\ str_contains "RIVER" (str_strip l) = false)).
Proof.
  intros Hlines Hpre. split; [|split].
  - apply run_lines_no_street, Hpre.
  - unfold parse_actions. rewrite Hlines. unfold run_lines at 1.
    rewrite foldM_app. fold (run_lines py_float (None, []) pre).
    rewrite run_lines_no_street by assumption. reflexivity.
  - intros l st acts Hm. rewrite action_step_marker by assumption.
    unfold marker_street.
    destruct (str_contains "FLOP" (str_strip l));
      [split; [discriminate | intros [H _]; discriminate H]|].
    destruct (str_contains "TURN" (str_strip l));
      [split; [discriminate | intros (_ & H & _); discriminate H]|].
    destruct (str_contains "RIVER" (str_strip l));
      [split; [discriminate | intros (_ & _ & H); discriminate H]|].
    split; [auto | reflexivity].
Qed.

(** ** The parser as a whole *)

Lemma parse_hand_body_Ret (hand_text hero_name : string) stakes ps cards acts res :
  parse_stakes py_float hand_text = Ret stakes ->
  parse_players py_int py_float hand_text = Ret ps ->
  parse_hero_cards re_search_hero hero_name hand_text = Ret cards ->
  parse_actions py_float hand_text = Ret acts ->
  parse_result py_float re_search_hero hero_name hand_text = Ret res ->
  parse_hand_body py_int py_float re_search_hero hand_text hero_name
  = Ret (hand_of hand_text hero_name stakes ps cards acts res).
Proof.
  intros H1 H2 H3 H4 H5. unfold parse_hand_body.
  rewrite H1; simpl. rewrite H2; simpl. rewrite H3; simpl.
  rewrite H4; simpl. rewrite H5; simpl. reflexivity.
Qed.

Lemma parse_hand_body_cases (hand_text hero_name : string) :
  (exists stakes ps cards acts res,
      parse_stakes py_float hand_text = Ret stakes
      /\ parse_players py_int py_float hand_text = Ret ps
      /\ parse_hero_cards re_search_hero hero_name hand_text = Ret cards
      /\ parse_actions py_float hand_text = Ret acts
      /\ parse_result py_float re_search_hero hero_name hand_text = Ret res
      /\ parse_hand_body py_int py_float re_search_hero hand_text hero_name
         = Ret (hand_of hand_text hero_name stakes ps cards acts res))
  \/ (steps_raise py_int py_float re_search_hero hand_text hero_name
      /\ exists e, parse_hand_body py_int py_float re_search_hero hand_text hero_name = Raise e).
Proof.
  unfold steps_raise, parse_hand_body.
  destruct (parse_stakes py_float hand_text) as [stakes|e] eqn:H1; simpl;
    [|right; split; exists e; auto].
  destruct (parse_players py_int py_float hand_text) as [ps|e] eqn:H2; simpl;
    [|right; split; exists e; auto].
  destruct (parse_hero_cards re_search_hero hero_name hand_text) as [cards|e] eqn:H3; simpl;
    [|right; split; exists e; auto].
  destruct (parse_actions py_float hand_text) as [acts|e] eqn:H4; simpl;
    [|right; split; exists e; auto 6].
  destruct (parse_result py_float re_search_hero hero_name hand_text) as [res|e] eqn:H5; simpl;
    [|right; split; exists e; auto 6].
  left. exists stakes, ps, cards, acts, res. auto 10.
Qed.

(** C5.  [parse_hand] is a total function into [Hand] or [None]: either every
    step returns and the result is the complete record built from all of them,
    or some step raises and the result is [None], with nothing of the hand
    kept. *)
Theorem parse_hand_complete_or_none (hand_text hero_name : string) :
  (exists stakes ps cards acts res,
      parse_stakes py_float hand_text = Ret stakes
      /\ parse_players py_int py_float hand_text = Ret ps
      /\ parse_hero_cards re_search_hero hero_name hand_text = Ret cards
      /\ parse_actions py_float hand_text = Ret acts
      /\ parse_result py_float re_search_hero hero_name hand_text = Ret res
      /\ parse_hand py_int py_float re_search_hero hand_text hero_name
         = Some (hand_of hand_text hero_name stakes ps cards acts res))
  \/ (steps_raise py_int py_float re_search_hero hand_text hero_name
      /\ parse_hand py_int py_float re_search_hero hand_text hero_name = None).
Proof.
  unfold parse_hand.
  destruct (parse_hand_body_cases hand_text hero_name)
    as [(stakes & ps & cards & acts & res & H1 & H2 & H3 & H4 & H5 & Hb) | [Hr [e He]]].
  - left. exists stakes, ps, cards, acts, res. rewrite Hb. auto 10.
  - right. split; [exact Hr|]. rewrite He. reflexivity.
Qed.

End ParserFacts.

(** ** The parser on sample blocks *)

(** C1: the hero's call stands before the first marker and is not among the
    parsed actions; the check after the flop marker is. *)
Lemma early_action_is_dropped :
  parse_hand decimal_int decimal_float literal_search early_action_block "Hero"
  = Some {| hand_id := "1"; datetime := None; table := "UnknownTable";
            sb := 1 # 2; bb := 1; hero := "Hero"; hero_cards := []; players := [];
            actions := [{| street := flop; actor := "Hero"; action := "checks";
                           amount := None |}];
            board := []; hero_result := 0 + 0 - 0 |}.
Proof. vm_compute. reflexivity. Qed.

Lemma actions_before_first_marker_dropped_witness :
  run_lines decimal_float (None, []) ["Poker Hand #1"; "Hero: calls"] = Ret (None, [])
  /\ parse_actions decimal_float early_action_block
     = snd <$> run_lines decimal_float (None, []) ["*** FLOP *** [2c 3d 4h]"; "Hero: checks"]
  /\ (forall l st acts,
        is_marker l = true ->
        (action_step decimal_float (st, acts) l = Ret (Some preflop, acts)
         <-> str_contains "FLOP" (str_strip l) = false
             /\ str_contains "TURN" (str_strip l) = false
             /\ str_contains "RIVER" (str_strip l) = false)).
Proof.
  apply (actions_before_first_marker_dropped decimal_float early_action_block
           ["Poker Hand #1"; "Hero: calls"] ["*** FLOP *** [2c 3d 4h]"; "Hero: checks"]).
  - reflexivity.
  - repeat constructor.
Defined.

(** C3: a block whose Board line has two cards parses to a [Hand] with that
    two-card board. *)
Lemma short_board_is_kept :
  parse_hand decimal_int decimal_float literal_search short_board_block "Hero"
  = Some {| hand_id := "1"; datetime := None; table := "UnknownTable";
            sb := 1 # 2; bb := 1; hero := "Hero"; hero_cards := []; players := [];
            actions := []; board := ["Ah"; "Kd"]; hero_result := 0 + 0 - 0 |}.
Proof. vm_compute. reflexivity. Qed.

(** ** Strings and the lazy star *)

Lemma length_append (s t : string) :
  String.length (s +:+ t) = (String.length s + String.length t)%nat.
Proof. induction s as [|a s IH]; simpl; [reflexivity | rewrite IH; reflexivity]. Qed.

Lemma take_chars_append (s t : string) : take_chars (String.length s) (s +:+ t) = s.
Proof.
  induction s as [|a s IH]; simpl; [destruct t; reflexivity | rewrite IH; reflexivity].
Qed.

Lemma prefix_append (p s : string) : String.prefix p (p +:+ s) = true.
Proof.
  induction p as [|a p IH]; simpl; [destruct s; reflexivity|].
  destruct (ascii_dec a a); [exact IH | congruence].
Qed.

Lemma drop_chars_append (p s : string) : drop_chars (String.length p) (p +:+ s) = s.
Proof. induction p as [|a p IH]; simpl; [destruct s; reflexivity | exact IH]. Qed.

(** The lazy star passes over a character on which the rest of the pattern
    fails. *)
Lemma star_lazy_step {R} (c : cclass) (a : ascii) (s : string) (k : string -> option R) :
  k (String a s) = None -> in_class c a = true ->
  star_lazy c (String a s) k = star_lazy c s k.
Proof. intros Hk Hc. cbn [star_lazy]. rewrite Hk, Hc. reflexivity. Qed.

(** ** Float arithmetic *)

Lemma pydiv_Ret (x y : Q) : ~ (y == 0)%Q -> pydiv x y = Ret (x / y)%Q.
Proof.
  intros Hy. unfold pydiv. destruct (Qeq_bool y 0) eqn:E; [|reflexivity].
  apply Qeq_bool_iff in E. contradiction.
Qed.

Lemma pydiv_Raise (x y : Q) : (y == 0)%Q -> pydiv x y = Raise ZeroDivisionError.
Proof.
  intros Hy. unfold pydiv. apply Qeq_bool_iff in Hy. rewrite Hy. reflexivity.
Qed.

Lemma inject_Z_nonzero (n : Z) : n <> 0%Z -> ~ (inject_Z n == 0)%Q.
Proof.
  intros Hn He. apply Hn. unfold Qeq in He. simpl in He. lia.
Qed.

Lemma ratio100_Ret (a b : Z) :
  b <> 0%Z -> ratio100 a b = Ret (inject_Z a / inject_Z b * 100)%Q.
Proof.
  intros Hb. unfold ratio100. rewrite pydiv_Ret by (apply inject_Z_nonzero, Hb).
  reflexivity.
Qed.

Lemma or1_nonzero (n : Z) : or1 n <> 0%Z.
Proof. unfold or1. destruct (Z.eqb_spec n 0); lia. Qed.

Lemma or1_pos (n : Z) : (0 <= n)%Z -> (0 < or1 n)%Z /\ (n <= or1 n)%Z.
Proof. unfold or1. destruct (Z.eqb_spec n 0); lia. Qed.

(** A share [a] of a total [b], as a percentage. *)
Lemma percentage_bounds (a b : Z) :
  (0 <= a <= b)%Z -> (0 < b)%Z ->
  (0 <= inject_Z a / inject_Z b * 100 /\ inject_Z a / inject_Z b * 100 <= 100)%Q.
Proof.
  intros [Ha Hab] Hb.
  assert (0 < inject_Z b)%Q as Hb' by (unfold Qlt; simpl; lia).
  assert (0 <= inject_Z a)%Q as Ha' by (unfold Qle; simpl; lia).
  assert (inject_Z a <= inject_Z b)%Q as Hab' by (rewrite <- Zle_Qle; exact Hab).
  assert (0 <= inject_Z a / inject_Z b)%Q as H0.
  { apply Qle_shift_div_l; [exact Hb'|]. lra. }
  assert (inject_Z a / inject_Z b <= 1)%Q as H1.
  { apply Qle_shift_div_r; [exact Hb'|]. lra. }
  split; lra.
Qed.

#[global] Instance round_half_even_proper : Proper (Qeq ==> eq) round_half_even.
Proof.
  intros x y Hxy. unfold round_half_even.
  rewrite (Qfloor_comp x y Hxy).
  assert ((x - inject_Z (Qfloor y) ?= 1 # 2) = (y - inject_Z (Qfloor y) ?= 1 # 2))%Q as ->
    by (rewrite Hxy; reflexivity).
  reflexivity.
Qed.

#[global] Instance round2_proper : Proper (Qeq ==> Qeq) round2.
Proof.
  intros x y Hxy. unfold round2.
  assert (round_half_even (x * 100) = round_half_even (y * 100)) as ->
    by (apply round_half_even_proper; rewrite Hxy; reflexivity).
  reflexivity.
Qed.

Lemma round_half_even_cases (x : Q) :
  round_half_even x = Qfloor x
  \/ (round_half_even x = (Qfloor x + 1)%Z /\ (inject_Z (Qfloor x) < x)%Q).
Proof.
  unfold round_half_even.
  destruct (Qcompare_spec (x - inject_Z (Qfloor x)) (1 # 2)) as [He|Hl|Hg].
  - destruct (Z.even (Qfloor x)); [left; reflexivity|].
    right. split; [reflexivity|]. lra.
  - left. reflexivity.
  - right. split; [reflexivity|]. lra.
Qed.

(** Rounding keeps a value between two integers between them. *)
Lemma round_half_even_bounds (a b : Z) (x : Q) :
  (inject_Z a <= x)%Q -> (x <= inject_Z b)%Q ->
  (a <= round_half_even x <= b)%Z.
Proof.
  intros Ha Hb.
  assert (a <= Qfloor x)%Z as Hfa.
  { rewrite <- (Qfloor_Z a). apply Qfloor_resp_le, Ha. }
  assert (Qfloor x <= b)%Z as Hfb.
  { rewrite <- (Qfloor_Z b). apply Qfloor_resp_le, Hb. }
  destruct (round_half_even_cases x) as [->|[-> Hlt]]; [lia|].
  split; [lia|].
  assert (inject_Z (Qfloor x) < inject_Z b)%Q as H by lra.
  rewrite <- Zlt_Qlt in H. lia.
Qed.

Lemma round2_bounds (a b : Z) (x : Q) :
  (inject_Z a <= x)%Q -> (x <= inject_Z b)%Q ->
  (inject_Z a <= round2 x /\ round2 x <= inject_Z b)%Q.
Proof.
  intros Ha Hb.
  destruct (round_half_even_bounds (a * 100) (b * 100) (x * 100)) as [H1 H2].
  - rewrite inject_Z_mult. change (inject_Z 100) with 100%Q. lra.
  - rewrite inject_Z_mult. change (inject_Z 100) with 100%Q. lra.
  - unfold round2. rewrite Zle_Qle, inject_Z_mult in H1, H2.
    change (inject_Z 100) with 100%Q in H1, H2.
    split.
    + apply Qle_shift_div_l; [reflexivity | exact H1].
    + apply Qle_shift_div_r; [reflexivity | exact H2].
Qed.

Lemma round2_lower (a : Z) (x : Q) :
  (inject_Z a <= x)%Q -> (inject_Z a <= round2 x)%Q.
Proof.
  intros Ha.
  assert (a * 100 <= round_half_even (x * 100))%Z as H.
  { assert (a * 100 <= Qfloor (x * 100))%Z as Hf.
    { rewrite <- (Qfloor_Z (a * 100)). apply Qfloor_resp_le.
      rewrite inject_Z_mult. change (inject_Z 100) with 100%Q. lra. }
    destruct (round_half_even_cases (x * 100)) as [->|[-> _]]; lia. }
  unfold round2. rewrite Zle_Qle, inject_Z_mult in H.
  change (inject_Z 100) with 100%Q in H.
  apply Qle_shift_div_l; [reflexivity | exact H].
Qed.

(** ** Lists *)

Lemma lookup_map {A B} (f : A -> B) (l : list A) (i : nat) :
  map f l !! i = f <$> l !! i.
Proof.
  revert i. induction l as [|x l IH]; intros [|i]; simpl; try reflexivity. apply IH.
Qed.

(** ** The position resolver *)

Lemma insert_by_seat_perm (p : Player) (l : list Player) :
  Permutation (insert_by_seat p l) (p :: l).
Proof.
  induction l as [|q l IH]; simpl; [reflexivity|].
  destruct (seat p <=? seat q)%Z; [reflexivity|].
  rewrite IH. apply perm_swap.
Qed.

Lemma sorted_by_seat_perm (l : list Player) : Permutation (sorted_by_seat l) l.
Proof.
  induction l as [|p l IH]; simpl; [reflexivity|].
  rewrite insert_by_seat_perm, IH. reflexivity.
Qed.

Lemma insert_by_seat_sorted (p : Player) (l : list Player) :
  StronglySorted seat_le l -> StronglySorted seat_le (insert_by_seat p l).
Proof.
  induction 1 as [|q l Hs IH Hq]; simpl.
  - repeat constructor.
  - destruct (Z.leb_spec (seat p) (seat q)) as [Hle|Hgt].
    + constructor; [constructor; assumption|].
      constructor; [exact Hle|].
      eapply Forall_impl; [exact Hq|]. unfold seat_le. intros r Hr. lia.
    + constructor; [exact IH|].
      rewrite (insert_by_seat_perm p l). constructor; [unfold seat_le; lia | exact Hq].
Qed.

Lemma sorted_by_seat_sorted (l : list Player) : StronglySorted seat_le (sorted_by_seat l).
Proof.
  induction l as [|p l IH]; simpl; [constructor | apply insert_by_seat_sorted, IH].
Qed.

(** The sort is stable: players of one seat number keep their order. *)
Lemma insert_by_seat_stable (k : Z) (p : Player) (l : list Player) :
  filter (fun q => seat q = k) (insert_by_seat p l)
  = filter (fun q => seat q = k) (p :: l).
Proof.
  induction l as [|q l IH]; simpl; [reflexivity|].
  destruct (Z.leb_spec (seat p) (seat q)) as [Hle|Hgt]; [reflexivity|].
  rewrite (filter_cons _ q), IH, !(filter_cons _ p), (filter_cons _ q).
  destruct (decide (seat p = k)), (decide (seat q = k)); try reflexivity. lia.
Qed.

Lemma sorted_by_seat_stable (k : Z) (l : list Player) :
  filter (fun q => seat q = k) (sorted_by_seat l) = filter (fun q => seat q = k) l.
Proof.
  induction l as [|p l IH]; simpl; [reflexivity|].
  rewrite insert_by_seat_stable, !filter_cons, IH. reflexivity.
Qed.

Lemma assign_from_cons (start : nat) (p : Player) (sp : list Player) (m : gmap string string) :
  assign_from start (p :: sp) m
  = assign_from (S start) sp (<[name p := position_at start]> m).
Proof. reflexivity. Qed.

Lemma assign_from_other (n : string) (sp : list Player) :
  forall start m,
    (forall q, q ∈ sp -> name q <> n) ->
    assign_from start sp m !! n = m !! n.
Proof.
  induction sp as [|p sp IH]; intros start m Hn; [reflexivity|].
  rewrite assign_from_cons, IH.
  - apply lookup_insert_ne, Hn. left.
  - intros q Hq. apply Hn. right. exact Hq.
Qed.

Lemma assign_from_last (sp : list Player) :
  forall start m i p,
    sp !! i = Some p ->
    (forall j q, (i < j)%nat -> sp !! j = Some q -> name q <> name p) ->
    assign_from start sp m !! name p = Some (position_at (start + i)).
Proof.
  induction sp as [|x sp IH]; intros start m i p Hi Hlast; [discriminate|].
  rewrite assign_from_cons. destruct i as [|i]; simpl in Hi.
  - injection Hi as ->. rewrite assign_from_other.
    + rewrite Nat.add_0_r. apply lookup_insert_eq.
    + intros q Hq. apply list_elem_of_lookup_1 in Hq as [j Hj].
      apply (Hlast (S j)); [lia | exact Hj].
  - rewrite (IH (S start) _ i p Hi).
    + f_equal. f_equal. lia.
    + intros j q Hij Hj. apply (Hlast (S j)); [lia | exact Hj].
Qed.

(** Every label handed out is one of the six. *)
Lemma position_at_in (i : nat) : position_at i ∈ positions.
Proof.
  unfold position_at. apply list_elem_of_In, nth_In.
  apply Nat.mod_upper_bound. discriminate.
Qed.

Lemma assign_from_values (sp : list Player) :
  forall start m n v,
    assign_from start sp m !! n = Some v ->
    v ∈ positions \/ m !! n = Some v.
Proof.
  induction sp as [|x sp IH]; intros start m n v Hv; [right; exact Hv|].
  rewrite assign_from_cons in Hv. apply IH in Hv as [Hv|Hv]; [left; exact Hv|].
  destruct (decide (name x = n)) as [<-|Hne].
  - rewrite lookup_insert_eq in Hv. injection Hv as <-. left. apply position_at_in.
  - rewrite lookup_insert_ne in Hv by exact Hne. right. exact Hv.
Qed.

Lemma determine_positions_assign (h : Hand) :
  determine_positions h = assign_from 0 (sorted_by_seat (players h)) ∅.
Proof.
  unfold determine_positions, assign_positions, assign_from, enumerate.
  destruct (players h); reflexivity.
Qed.

Lemma determine_positions_absent (h : Hand) (n : string) :
  n ∉ map name (players h) -> determine_positions h !! n = None.
Proof.
  intros Hn. rewrite determine_positions_assign, assign_from_other; [apply lookup_empty|].
  intros q Hq <-. apply Hn.
  apply list_elem_of_In, in_map, list_elem_of_In.
  rewrite <- (sorted_by_seat_perm (players h)). exact Hq.
Qed.

Lemma determine_positions_values (h : Hand) (n v : string) :
  determine_positions h !! n = Some v -> v ∈ positions.
Proof.
  rewrite determine_positions_assign. intros Hv.
  apply assign_from_values in Hv as [Hv|Hv]; [exact Hv|].
  rewrite lookup_empty in Hv. discriminate.
Qed.

(** In a list sorted by seat without a seat number twice, a player's index is
    the number of players at smaller seat numbers. *)
Lemma sorted_index_rank (sp : list Player) :
  StronglySorted seat_le sp -> NoDup (map seat sp) ->
  forall i p, sp !! i = Some p -> i = seat_rank p sp.
Proof.
  unfold seat_rank.
  induction 1 as [|x sp Hs IH Hx]; intros Hnd i p Hi; [discriminate|].
  simpl in Hnd. apply NoDup_cons in Hnd as [Hxn Hnd].
  assert (forall q, q ∈ sp -> (seat x < seat q)%Z) as Hlt.
  { intros q Hq. rewrite Forall_forall in Hx. specialize (Hx q Hq). unfold seat_le in Hx.
    assert (seat q <> seat x); [|lia].
    intros Heq. apply Hxn. rewrite <- Heq. apply list_elem_of_In, in_map, list_elem_of_In, Hq. }
  destruct i as [|i]; simpl in Hi.
  - injection Hi as ->. rewrite filter_cons_False by lia.
    destruct (filter (fun q => (seat q < seat p)%Z) sp) as [|q l] eqn:Hf; [reflexivity|].
    assert (q ∈ filter (fun q => (seat q < seat p)%Z) sp) as Hq by (rewrite Hf; left).
    apply list_elem_of_filter in Hq as [Hq1 Hq2]. specialize (Hlt q Hq2). lia.
  - rewrite filter_cons_True by (apply Hlt, list_elem_of_lookup_2 with i, Hi).
    simpl. f_equal. apply IH; assumption.
Qed.

Lemma seat_rank_perm (p : Player) (l1 l2 : list Player) :
  Permutation l1 l2 -> seat_rank p l1 = seat_rank p l2.
Proof. intros Hp. unfold seat_rank. rewrite Hp. reflexivity. Qed.

Lemma position_at_period (i : nat) : position_at (i + 6) = position_at i.
Proof.
  unfold position_at. change (length positions) with 6%nat.
  rewrite <- (Nat.Div0.add_mod_idemp_r i 6 6). rewrite Nat.Div0.mod_same.
  rewrite Nat.add_0_r. reflexivity.
Qed.

(** C9.  The resolver's list is the hand's players sorted by seat number
    ascending, players of one seat number left in their order.  The player at
    sorted index [i] is given the label at index [i mod 6] of BTN, SB, BB,
    UTG, MP, CO, and the returned mapping holds that label for his name unless
    a player further on in the list carries the same name; a name nobody
    carries has no label.  With seat numbers and names pairwise different the
    label of a player is fixed by the seat numbers alone: it is the one at the
    number of smaller seat numbers, modulo 6. *)
Theorem determine_positions_spec (h : Hand) :
  let sp := sorted_by_seat (players h) in
  Permutation sp (players h)
  /\ StronglySorted seat_le sp
  /\ (forall k, filter (fun p => seat p = k) sp = filter (fun p => seat p = k) (players h))
  /\ (forall i p,
        sp !! i = Some p ->
        (forall j q, (i < j)%nat -> sp !! j = Some q -> name q <> name p) ->
        determine_positions h !! name p = Some (position_at i))
  /\ (forall n, n ∉ map name (players h) -> determine_positions h !! n = None)
  /\ (forall i, position_at i = nth (i mod 6) ["BTN"; "SB"; "BB"; "UTG"; "MP"; "CO"] ""
                /\ position_at (i + 6) = position_at i)
  /\ (NoDup (map seat (players h)) -> NoDup (map name (players h)) ->
      forall p, p ∈ players h ->
        determine_positions h !! name p = Some (position_at (seat_rank p (players h)))).
Proof.
  intros sp.
  pose proof (sorted_by_seat_perm (players h)) as Hperm. fold sp in Hperm.
  pose proof (sorted_by_seat_sorted (players h)) as Hsorted. fold sp in Hsorted.
  assert (forall i p,
            sp !! i = Some p ->
            (forall j q, (i < j)%nat -> sp !! j = Some q -> name q <> name p) ->
            determine_positions h !! name p = Some (position_at i)) as Hlabel.
  { intros i p Hi Hlast. rewrite determine_positions_assign. fold sp.
    rewrite (assign_from_last sp 0 ∅ i p Hi Hlast). reflexivity. }
  split; [exact Hperm|]. split; [exact Hsorted|].
  split; [intros k; apply sorted_by_seat_stable|].
  split; [exact Hlabel|].
  split; [apply determine_positions_absent|].
  split; [intros i; split; [reflexivity | apply position_at_period]|].
  intros Hseats Hnames p Hp.
  assert (NoDup (map seat sp)) as Hseats' by (rewrite Hperm; exact Hseats).
  assert (NoDup (map name sp)) as Hnames' by (rewrite Hperm; exact Hnames).
  rewrite <- Hperm in Hp. apply list_elem_of_lookup_1 in Hp as [i Hi].
  rewrite <- (seat_rank_perm p sp (players h) Hperm).
  rewrite <- (sorted_index_rank sp Hsorted Hseats' i p Hi).
  apply Hlabel; [exact Hi|].
  intros j q Hij Hj Heq.
  assert (map name sp !! i = Some (name p)) as Hni
    by (rewrite lookup_map, Hi; reflexivity).
  assert (map name sp !! j = Some (name p)) as Hnj
    by (rewrite lookup_map, Hj, <- Heq; reflexivity).
  pose proof (proj1 (NoDup_alt (map name sp)) Hnames' i j (name p) Hni Hnj). lia.
Qed.

(** ** One call of [add_hand] *)

Import StatsAggregator.

Lemma counter_bump_same (pos key : string) (ps : gmap string (gmap string Z)) :
  counter pos key (bump pos key ps) = (counter pos key ps + 1)%Z.
Proof.
  unfold counter, bump, get.
  rewrite lookup_insert_eq. simpl. rewrite lookup_insert_eq. reflexivity.
Qed.

Lemma counter_bump_other (pos key pos' key' : string) (ps : gmap string (gmap string Z)) :
  pos <> pos' \/ key <> key' ->
  counter pos' key' (bump pos key ps) = counter pos' key' ps.
Proof.
  intros Hne. unfold counter, bump, get.
  destruct (decide (pos = pos')) as [<-|Hpos].
  - destruct Hne as [Hne|Hne]; [congruence|].
    rewrite lookup_insert_eq. simpl. rewrite lookup_insert_ne by assumption. reflexivity.
  - rewrite lookup_insert_ne by assumption. reflexivity.
Qed.

Lemma any_action_spec (verbs : list string) (acts : list Action) :
  any_action verbs acts = true <-> exists a, a ∈ acts /\ action a ∈ verbs.
Proof.
  unfold any_action. rewrite existsb_exists. split.
  - intros (a & Hin & Hv). exists a. split.
    + apply list_elem_of_In, Hin.
    + apply bool_decide_eq_true in Hv. exact Hv.
  - intros (a & Hin & Hv). exists a. split.
    + apply list_elem_of_In, Hin.
    + apply bool_decide_eq_true. exact Hv.
Qed.

Lemma did_pfr_spec (hero_name : string) (hand : Hand) :
  did_pfr hero_name hand = true <-> hero_was_pfr hero_name hand.
Proof.
  unfold did_pfr, hero_was_pfr, preflop_actions. rewrite any_action_spec. split.
  - intros (a & Hin & Hv). apply list_elem_of_filter in Hin as [[Hs Ha] Hin]. eauto.
  - intros (a & Hin & Hs & Ha & Hv). exists a. split; [|exact Hv].
    apply list_elem_of_filter. auto.
Qed.

Lemma did_vpip_spec (hero_name : string) (hand : Hand) :
  did_vpip hero_name hand = true <-> hero_was_vpip hero_name hand.
Proof.
  unfold did_vpip, hero_was_vpip, preflop_actions. rewrite any_action_spec. split.
  - intros (a & Hin & Hv). apply list_elem_of_filter in Hin as [[Hs Ha] Hin]. eauto.
  - intros (a & Hin & Hs & Ha & Hv). exists a. split; [|exact Hv].
    apply list_elem_of_filter. auto.
Qed.

Lemma did_pfr_vpip (hero_name : string) (hand : Hand) :
  did_pfr hero_name hand = true -> did_vpip hero_name hand = true.
Proof.
  rewrite did_pfr_spec, did_vpip_spec.
  intros (a & Hin & Hs & Ha & Hv). exists a. repeat split; try assumption.
  apply elem_of_cons. right. exact Hv.
Qed.

Lemma street_actions_nil (s : Street) (hand : Hand) :
  street_actions s hand = [] <-> ~ has_action_on s hand.
Proof.
  unfold street_actions, has_action_on. split.
  - intros Hnil (a & Hin & Hs).
    assert (a ∈ filter (fun a => street a = s) (actions hand)) as Hf
      by (apply list_elem_of_filter; auto).
    rewrite Hnil in Hf. inversion Hf.
  - intros Hno. destruct (filter _ _) as [|a l] eqn:Hf; [reflexivity|].
    exfalso. apply Hno. exists a.
    assert (a ∈ filter (fun a => street a = s) (actions hand)) as Hin
      by (rewrite Hf; left).
    apply list_elem_of_filter in Hin as [Hs Hin]. auto.
Qed.

Lemma head_street_actions (s : Street) (hand : Hand) :
  head (street_actions s hand) = first_on_street s (actions hand).
Proof.
  unfold street_actions. induction (actions hand) as [|a l IH]; [reflexivity|].
  rewrite filter_cons. simpl. destruct (decide (street a = s)); [reflexivity | exact IH].
Qed.

(** [add_hand] with its tuples taken apart. *)
Lemma add_hand_unfold (self : t) (hand : Hand) :
  let pos := hero_pos (hero self) hand in
  let dv := did_vpip (hero self) hand in
  let dp := did_pfr (hero self) hand in
  let ps0 := bump pos "hands" (pos_stats self) in
  let ps1 := if dv then bump pos "vpip" ps0 else ps0 in
  let ps2 := if dp then bump pos "pfr" ps1 else ps1 in
  let cf := cbet_update (hero self) pos "cbet_flop" dp (street_actions flop hand)
              (cbet_flop_opportunities self) (cbet_flop self) ps2 in
  let ct := cbet_update (hero self) pos "cbet_turn" dp (street_actions turn hand)
              (cbet_turn_opportunities self) (cbet_turn self) cf.2 in
  let showdown := bool_decide (length (board hand) = 5%nat) in
  add_hand self hand =
  {| hero := hero self;
     hands := hands self ++ [hand];
     total_won_chips := (total_won_chips self + hero_result hand)%Q;
     vpip := if dv then (vpip self + 1)%Z else vpip self;
     pfr := if dp then (pfr self + 1)%Z else pfr self;
     hands_count := (hands_count self + 1)%Z;
     threebet := threebet self;
     threebet_opportunities := threebet_opportunities self;
     fold_to_3bet := fold_to_3bet self;
     vs_3bet_opportunities := vs_3bet_opportunities self;
     cbet_flop := cf.1.2;
     cbet_flop_opportunities := cf.1.1;
     cbet_turn := ct.1.2;
     cbet_turn_opportunities := ct.1.1;
     wtsd := if showdown then (wtsd self + 1)%Z else wtsd self;
     wsd_wins := if showdown && negb (Qle_bool (hero_result hand) 0)
                 then (wsd_wins self + 1)%Z else wsd_wins self;
     saw_flop := match street_actions flop hand with
                 | [] => saw_flop self
                 | _ => (saw_flop self + 1)%Z
                 end;
     pos_stats := ct.2 |}.
Proof.
  cbv zeta. unfold add_hand. cbv zeta.
  destruct (did_vpip (hero self) hand), (did_pfr (hero self) hand),
    (bool_decide (length (board hand) = 5%nat));
    cbv beta iota zeta;
    repeat match goal with
           | |- context [cbet_update ?a ?b ?k ?c ?d ?e ?f ?g] =>
               destruct (cbet_update a b k c d e f g) as [[? ?] ?];
               cbv beta iota zeta delta [fst snd]
           end;
    try reflexivity;
    destruct (Qle_bool (hero_result hand) 0); reflexivity.
Qed.

(** The positional counters after the three unconditional and conditional
    bumps that precede the c-bet blocks. *)
Lemma counter_after_vpip_pfr (pos key : string) (dv dp : bool)
  (ps : gmap string (gmap string Z)) :
  key <> "hands" -> key <> "vpip" -> key <> "pfr" ->
  counter pos key
    (if dp then bump pos "pfr" (if dv then bump pos "vpip" (bump pos "hands" ps)
                                else bump pos "hands" ps)
     else (if dv then bump pos "vpip" (bump pos "hands" ps) else bump pos "hands" ps))
  = counter pos key ps.
Proof.
  intros H1 H2 H3.
  destruct dp, dv; rewrite ?counter_bump_other by (right; congruence); reflexivity.
Qed.

Lemma cbet_update_counter (self_hero pos key key' : string) (dp : bool) (acts : list Action)
  (o c : Z) (ps : gmap string (gmap string Z)) :
  key <> key' ->
  counter pos key' (cbet_update self_hero pos key dp acts o c ps).2 = counter pos key' ps.
Proof.
  intros Hne. unfold cbet_update.
  destruct dp, acts as [|a l]; try reflexivity.
  destruct (bool_decide (actor a = self_hero)); simpl; [|reflexivity].
  apply counter_bump_other. right. exact Hne.
Qed.

(** C7.  The flop c-bet opportunity counter goes up by one exactly when hero
    was the preflop raiser and the hand has a flop action; the hit counter, and
    with it the positional hit counter of hero's position, goes up by one
    exactly when moreover the first flop action is hero's. *)
Theorem flop_cbet_counters (self : t) (hand : Hand) :
  let self' := add_hand self hand in
  let pos := hero_pos (hero self) hand in
  let opportunity := hero_was_pfr (hero self) hand /\ has_action_on flop hand in
  let hit := opportunity /\ hero_acts_first_on flop (hero self) hand in
  (opportunity -> cbet_flop_opportunities self' = (cbet_flop_opportunities self + 1)%Z)
  /\ (~ opportunity -> cbet_flop_opportunities self' = cbet_flop_opportunities self)
  /\ (hit -> cbet_flop self' = (cbet_flop self + 1)%Z
             /\ counter pos "cbet_flop" (pos_stats self')
                = (counter pos "cbet_flop" (pos_stats self) + 1)%Z)
  /\ (~ hit -> cbet_flop self' = cbet_flop self
               /\ counter pos "cbet_flop" (pos_stats self')
                  = counter pos "cbet_flop" (pos_stats self)).
Proof.
  cbv zeta. rewrite add_hand_unfold. cbn [cbet_flop cbet_flop_opportunities pos_stats].
  rewrite cbet_update_counter by congruence.
  unfold hero_acts_first_on. rewrite <- head_street_actions.
  pose proof (did_pfr_spec (hero self) hand) as Hpfr.
  pose proof (street_actions_nil flop hand) as Hnil.
  set (pos := hero_pos (hero self) hand).
  pose proof (counter_after_vpip_pfr pos "cbet_flop" (did_vpip (hero self) hand)
                (did_pfr (hero self) hand) (pos_stats self)) as Hps.
  unfold cbet_update.
  destruct (did_pfr (hero self) hand) eqn:Hdp.
  - destruct (street_actions flop hand) as [|a l] eqn:Hflop.
    + cbn [fst snd head]. rewrite Hps by congruence.
      assert (~ has_action_on flop hand) as Hno by (apply Hnil; reflexivity).
      split; [|split; [|split]]; [tauto | reflexivity | tauto | split; reflexivity].
    + assert (has_action_on flop hand) as Hyes.
      { exists a.
        assert (a ∈ street_actions flop hand) as Hin by (rewrite Hflop; left).
        apply list_elem_of_filter in Hin as [Hs Hin]. auto. }
      assert (hero_was_pfr (hero self) hand) as Hwas by (apply Hpfr; reflexivity).
      cbn [head fmap option_fmap option_map].
      destruct (bool_decide (actor a = hero self)) eqn:Hact; cbn [fst snd].
      * apply bool_decide_eq_true in Hact.
        rewrite counter_bump_same, Hps by congruence.
        split; [|split; [|split]]; [reflexivity | tauto | split; reflexivity |].
        intros Hn. exfalso. apply Hn. split; [tauto | congruence].
      * apply bool_decide_eq_false in Hact. rewrite Hps by congruence.
        split; [|split; [|split]]; [reflexivity | tauto | | split; reflexivity].
        intros [_ Hh]. congruence.
  - assert (~ hero_was_pfr (hero self) hand) as Hwas.
    { intros Hw. apply Hpfr in Hw. discriminate. }
    destruct (street_actions flop hand) as [|a l] eqn:Hflop;
      cbn [fst snd]; rewrite Hps by congruence;
      (split; [|split; [|split]]; [tauto | reflexivity | tauto | split; reflexivity]).
Qed.

(** ** The counters after any number of hands *)

Lemma cbet_update_fst (self_hero pos key : string) (dp : bool) (acts : list Action)
  (o c : Z) (ps : gmap string (gmap string Z)) :
  (cbet_update self_hero pos key dp acts o c ps).1
  = ((o + (if cbet_opportunity dp acts then 1 else 0))%Z,
     (c + (if cbet_hit self_hero dp acts then 1 else 0))%Z).
Proof.
  unfold cbet_update, cbet_opportunity, cbet_hit.
  destruct dp, acts as [|a l]; simpl; try (f_equal; lia).
  destruct (bool_decide (actor a = self_hero)); simpl; f_equal; lia.
Qed.

Lemma cbet_update_snd (self_hero pos key : string) (dp : bool) (acts : list Action)
  (o c : Z) (ps : gmap string (gmap string Z)) :
  (cbet_update self_hero pos key dp acts o c ps).2
  = opt_bump (cbet_hit self_hero dp acts) pos key ps.
Proof.
  unfold cbet_update, cbet_hit, opt_bump.
  destruct dp, acts as [|a l]; simpl; try reflexivity.
  destruct (bool_decide (actor a = self_hero)); reflexivity.
Qed.

Lemma cbet_hit_opportunity (self_hero : string) (dp : bool) (acts : list Action) :
  cbet_hit self_hero dp acts = true -> cbet_opportunity dp acts = true.
Proof. unfold cbet_hit, cbet_opportunity. destruct dp, acts; simpl; congruence. Qed.

(** The positional counters after [add_hand]: five bumps of hero's position,
    four of them conditional. *)
Lemma pos_stats_add_hand (self : t) (hand : Hand) :
  let pos := hero_pos (hero self) hand in
  let dp := did_pfr (hero self) hand in
  pos_stats (add_hand self hand)
  = opt_bump (cbet_hit (hero self) dp (street_actions turn hand)) pos "cbet_turn"
      (opt_bump (cbet_hit (hero self) dp (street_actions flop hand)) pos "cbet_flop"
         (opt_bump dp pos "pfr"
            (opt_bump (did_vpip (hero self) hand) pos "vpip"
               (bump pos "hands" (pos_stats self))))).
Proof.
  cbv zeta. rewrite add_hand_unfold. cbn [pos_stats].
  rewrite !cbet_update_snd. reflexivity.
Qed.

Lemma counter_opt_bump (b : bool) (pos key pos' key' : string)
  (ps : gmap string (gmap string Z)) :
  counter pos' key' (opt_bump b pos key ps)
  = (counter pos' key' ps
     + (if b && bool_decide (pos = pos') && bool_decide (key = key') then 1 else 0))%Z.
Proof.
  unfold opt_bump. destruct b; simpl; [|lia].
  destruct (decide (pos = pos')) as [<-|Hp]; destruct (decide (key = key')) as [<-|Hk].
  - rewrite !bool_decide_eq_true_2 by reflexivity. simpl. apply counter_bump_same.
  - rewrite (bool_decide_eq_false_2 (key = key')) by assumption.
    rewrite andb_false_r. rewrite counter_bump_other by auto. lia.
  - rewrite (bool_decide_eq_false_2 (pos = pos')) by assumption.
    simpl. rewrite counter_bump_other by auto. lia.
  - rewrite (bool_decide_eq_false_2 (pos = pos')) by assumption.
    simpl. rewrite counter_bump_other by auto. lia.
Qed.

Lemma bump_lookup (pos key pos' : string) (ps : gmap string (gmap string Z)) :
  bump pos key ps !! pos'
  = if decide (pos = pos')
    then Some (<[key := (get key 0 (default ∅ (ps !! pos)) + 1)%Z]> (default ∅ (ps !! pos)))
    else ps !! pos'.
Proof.
  unfold bump. destruct (decide (pos = pos')) as [<-|Hne].
  - apply lookup_insert_eq.
  - apply lookup_insert_ne. exact Hne.
Qed.

Lemma bump_is_Some (pos key pos' : string) (ps : gmap string (gmap string Z)) :
  is_Some (bump pos key ps !! pos') <-> pos = pos' \/ is_Some (ps !! pos').
Proof.
  rewrite bump_lookup. destruct (decide (pos = pos')) as [<-|Hne].
  - split; [auto | intros _; eexists; reflexivity].
  - split; [auto | intros [|]; [contradiction | assumption]].
Qed.

Lemma opt_bump_is_Some (b : bool) (pos key pos' : string) (ps : gmap string (gmap string Z)) :
  is_Some (opt_bump b pos key ps !! pos') -> pos = pos' \/ is_Some (ps !! pos').
Proof.
  unfold opt_bump. destruct b; [apply bump_is_Some | auto].
Qed.

(** A key that no counter has and that is not the bumped one stays absent. *)
Lemma bump_keeps_absent (pos key absent : string) (ps : gmap string (gmap string Z)) :
  key <> absent ->
  (forall p cnt, ps !! p = Some cnt -> cnt !! absent = None) ->
  forall p cnt, bump pos key ps !! p = Some cnt -> cnt !! absent = None.
Proof.
  intros Hne Hps p cnt. rewrite bump_lookup.
  destruct (decide (pos = p)) as [<-|Hp]; [|apply Hps].
  intros [= <-]. rewrite lookup_insert_ne by exact Hne.
  destruct (ps !! pos) as [c|] eqn:E; simpl; [eapply Hps, E | apply lookup_empty].
Qed.

Lemma opt_bump_keeps_absent (b : bool) (pos key absent : string)
  (ps : gmap string (gmap string Z)) :
  key <> absent ->
  (forall p cnt, ps !! p = Some cnt -> cnt !! absent = None) ->
  forall p cnt, opt_bump b pos key ps !! p = Some cnt -> cnt !! absent = None.
Proof.
  intros Hne Hps. unfold opt_bump. destruct b; [apply bump_keeps_absent; assumption | exact Hps].
Qed.

Lemma total_result_snoc (hs : list Hand) (h : Hand) :
  (total_result (hs ++ [h]) == total_result hs + hero_result h)%Q.
Proof.
  unfold total_result. induction hs as [|x hs IH]; simpl.
  - lra.
  - rewrite IH. lra.
Qed.

Lemma counters_ok_new (hero_name : string) : counters_ok (new hero_name).
Proof.
  constructor; simpl; try lia; try reflexivity.
  - intros pos [cnt Hc]. rewrite lookup_empty in Hc. discriminate.
  - intros pos. unfold counter, get. rewrite lookup_empty. simpl.
    rewrite !lookup_empty. simpl. lia.
  - intros pos cnt Hc. rewrite lookup_empty in Hc. discriminate.
Qed.

Lemma counter_add_hand (self : t) (hand : Hand) (pos' key' : string) :
  let pos := hero_pos (hero self) hand in
  let dp := did_pfr (hero self) hand in
  counter pos' key' (pos_stats (add_hand self hand))
  = (counter pos' key' (pos_stats self)
     + (if bool_decide (pos = pos') then
          (if bool_decide ("hands" = key') then 1 else 0)
          + (if did_vpip (hero self) hand && bool_decide ("vpip" = key') then 1 else 0)
          + (if dp && bool_decide ("pfr" = key') then 1 else 0)
          + (if cbet_hit (hero self) dp (street_actions flop hand)
                && bool_decide ("cbet_flop" = key') then 1 else 0)
          + (if cbet_hit (hero self) dp (street_actions turn hand)
                && bool_decide ("cbet_turn" = key') then 1 else 0)
        else 0))%Z.
Proof.
  cbv zeta. rewrite pos_stats_add_hand.
  change (bump (hero_pos (hero self) hand) "hands" (pos_stats self))
    with (opt_bump true (hero_pos (hero self) hand) "hands" (pos_stats self)).
  rewrite !counter_opt_bump.
  destruct (bool_decide (hero_pos (hero self) hand = pos')); simpl.
  - rewrite !andb_true_r. lia.
  - rewrite !andb_false_r. simpl. lia.
Qed.

Lemma pos_stats_add_hand_is_Some (self : t) (hand : Hand) (pos' : string) :
  is_Some (pos_stats (add_hand self hand) !! pos') <->
  hero_pos (hero self) hand = pos' \/ is_Some (pos_stats self !! pos').
Proof.
  rewrite pos_stats_add_hand. cbv zeta. unfold opt_bump.
  repeat match goal with
         | |- context [if ?b then _ else _] => destruct b
         end;
    rewrite ?bump_is_Some; tauto.
Qed.

Lemma counters_ok_add_hand (self : t) (hand : Hand) :
  counters_ok self -> counters_ok (add_hand self hand).
Proof.
  intros [Hcount Htotal Hpfr Hvpip Hcf Hct Hwsd Hsaw Hseen Horder Hkeys].
  pose proof (did_pfr_vpip (hero self) hand) as Hdv.
  pose proof (cbet_hit_opportunity (hero self) (did_pfr (hero self) hand)
                (street_actions flop hand)) as Hhf.
  pose proof (cbet_hit_opportunity (hero self) (did_pfr (hero self) hand)
                (street_actions turn hand)) as Hht.
  constructor.
  - rewrite add_hand_unfold. cbn [hands_count hands].
    rewrite length_app. simpl. lia.
  - rewrite add_hand_unfold. cbn [total_won_chips hands].
    rewrite total_result_snoc, Htotal. reflexivity.
  - rewrite add_hand_unfold. cbn [pfr vpip].
    destruct (did_pfr (hero self) hand); [rewrite Hdv by reflexivity; lia|].
    destruct (did_vpip (hero self) hand); lia.
  - rewrite add_hand_unfold. cbn [vpip hands_count].
    destruct (did_vpip (hero self) hand); lia.
  - rewrite add_hand_unfold. cbn [cbet_flop cbet_flop_opportunities].
    rewrite cbet_update_fst. cbn [fst snd].
    destruct (cbet_hit _ _ (street_actions flop hand)); [rewrite Hhf by reflexivity; lia|].
    destruct (cbet_opportunity _ (street_actions flop hand)); lia.
  - rewrite add_hand_unfold. cbn [cbet_turn cbet_turn_opportunities].
    rewrite cbet_update_fst. cbn [fst snd].
    destruct (cbet_hit _ _ (street_actions turn hand)); [rewrite Hht by reflexivity; lia|].
    destruct (cbet_opportunity _ (street_actions turn hand)); lia.
  - rewrite add_hand_unfold. cbn [wsd_wins wtsd].
    destruct (bool_decide (length (board hand) = 5%nat)); simpl; [|lia].
    destruct (negb (Qle_bool (hero_result hand) 0)); lia.
  - rewrite add_hand_unfold. cbn [saw_flop].
    destruct (street_actions flop hand); lia.
  - intros pos' Hsome. apply pos_stats_add_hand_is_Some in Hsome.
    rewrite counter_add_hand. cbv zeta.
    destruct (Horder pos') as [[H0 H1] H2].
    case_bool_decide as Hpos; simpl.
    + rewrite !andb_false_r. simpl. lia.
    + destruct Hsome as [|Hsome]; [contradiction|]. specialize (Hseen pos' Hsome). lia.
  - intros pos'. rewrite !counter_add_hand. cbv zeta.
    destruct (Horder pos') as [[H0 H1] H2].
    case_bool_decide as Hpos; simpl; [|lia].
    rewrite !andb_false_r, !andb_true_r. simpl.
    destruct (did_pfr (hero self) hand); [rewrite Hdv by reflexivity; lia|].
    destruct (did_vpip (hero self) hand); lia.
  - intros pos' cnt. rewrite pos_stats_add_hand. cbv zeta.
    repeat (apply opt_bump_keeps_absent; [discriminate|]).
    apply bump_keeps_absent; [discriminate | exact Hkeys].
Qed.

Lemma ingest_snoc (hero_name : string) (hs : list Hand) (h : Hand) :
  ingest hero_name (hs ++ [h]) = add_hand (ingest hero_name hs) h.
Proof. unfold ingest. rewrite fold_left_app. reflexivity. Qed.

Lemma ingest_hero (hero_name : string) (hs : list Hand) :
  hero (ingest hero_name hs) = hero_name.
Proof.
  induction hs as [|h hs IH] using rev_ind; [reflexivity|].
  rewrite ingest_snoc, add_hand_unfold. exact IH.
Qed.

Lemma ingest_hands (hero_name : string) (hs : list Hand) :
  hands (ingest hero_name hs) = hs.
Proof.
  induction hs as [|h hs IH] using rev_ind; [reflexivity|].
  rewrite ingest_snoc, add_hand_unfold. cbn [hands]. rewrite IH. reflexivity.
Qed.

(** Every aggregator that was fed a list of hands has its counters in order. *)
Lemma counters_ok_ingest (hero_name : string) (hs : list Hand) :
  counters_ok (ingest hero_name hs).
Proof.
  induction hs as [|h hs IH] using rev_ind.
  - apply counters_ok_new.
  - rewrite ingest_snoc. apply counters_ok_add_hand, IH.
Qed.

(** ** [compute] *)

Lemma sum_from (xs : list Q) (a : Q) : (fold_left Qplus xs a == a + foldr Qplus 0 xs)%Q.
Proof.
  revert a. induction xs as [|x xs IH]; intros a; simpl; [lra|].
  rewrite IH. lra.
Qed.

Lemma sum_foldr (xs : list Q) : (py_sum xs == foldr Qplus 0 xs)%Q.
Proof. unfold py_sum. rewrite sum_from. lra. Qed.

Lemma foldr_map_bb (hs : list Hand) :
  foldr Qplus 0%Q (map bb hs) = foldr (fun h acc => bb h + acc)%Q 0%Q hs.
Proof. induction hs as [|h hs IH]; simpl; [reflexivity | rewrite IH; reflexivity]. Qed.

(** The mean big blind of the code is the arithmetic mean. *)
Lemma avg_bb_mean (self : t) :
  hands self <> [] ->
  exists avg, avg_bb self = Ret avg /\ (avg == mean_big_blind (hands self))%Q.
Proof.
  intros Hne. unfold avg_bb, mean, mean_big_blind.
  destruct (hands self) as [|h hs] eqn:E; [contradiction|].
  rewrite <- E. destruct (map bb (hands self)) as [|x xs] eqn:Em.
  { rewrite E in Em. discriminate. }
  rewrite <- Em. eexists. split; [reflexivity|].
  rewrite sum_foldr, foldr_map_bb, length_map. reflexivity.
Qed.

Lemma avg_bb_Ret (self : t) : exists avg, avg_bb self = Ret avg.
Proof.
  destruct (hands self) as [|h hs] eqn:E.
  - exists 1%Q. unfold avg_bb. rewrite E. reflexivity.
  - destruct (avg_bb_mean self) as (avg & H & _); [congruence | eauto].
Qed.

Lemma cbet_pct_Ret (hits opportunities : Z) :
  cbet_pct hits opportunities
  = Ret (if (opportunities =? 0)%Z then 0%Q
         else (inject_Z hits / inject_Z opportunities * 100)%Q).
Proof.
  unfold cbet_pct. destruct (Z.eqb_spec opportunities 0) as [|Hne]; [reflexivity|].
  apply ratio100_Ret, Hne.
Qed.

(** [compute] raises exactly when the mean big blind is zero. *)
Lemma compute_cases (self : t) (avg : Q) :
  avg_bb self = Ret avg ->
  ((avg == 0)%Q /\ compute self = Raise ZeroDivisionError)
  \/ (~ (avg == 0)%Q /\ compute self = Ret (stats_with self avg)).
Proof.
  intros Havg. unfold compute.
  rewrite !ratio100_Ret by apply or1_nonzero. rewrite !cbet_pct_Ret, Havg.
  cbn [mbind exc_bind].
  destruct (Qeq_dec avg 0) as [Hz|Hnz].
  - left. split; [exact Hz|]. rewrite pydiv_Raise by exact Hz. reflexivity.
  - right. split; [exact Hnz|]. rewrite pydiv_Ret by exact Hnz. cbn [mbind exc_bind].
    rewrite pydiv_Ret by apply inject_Z_nonzero, or1_nonzero. reflexivity.
Qed.

(** C6.  An aggregator that was fed no hand computes against the fallback mean
    big blind 1, raises nothing, and reports 0 for every percentage and for
    bb/100. *)
Theorem compute_of_fresh_aggregator (hero_name : string) :
  avg_bb (new hero_name) = Ret 1%Q
  /\ exists s,
       compute (new hero_name) = Ret s
       /\ Stats.hands s = 0%Z
       /\ (Stats.vpip_pct s == 0)%Q /\ (Stats.pfr_pct s == 0)%Q
       /\ (Stats.vpip_pfr_gap s == 0)%Q
       /\ (Stats.cbet_flop_pct s == 0)%Q /\ (Stats.cbet_turn_pct s == 0)%Q
       /\ (Stats.wtsd_pct s == 0)%Q /\ (Stats.wsd_pct s == 0)%Q
       /\ (Stats.bb_per_100 s == 0)%Q.
Proof.
  split; [reflexivity|].
  destruct (compute_cases (new hero_name) 1%Q) as [[Hz _]|[_ Hc]]; [reflexivity | |].
  - discriminate Hz.
  - exists (stats_with (new hero_name) 1). split; [exact Hc|].
    repeat split; reflexivity.
Qed.

(** X23.  The percentages of [compute] other than the showdown rate are within
    bounds whatever hands were fed, and the showdown rate is not negative. *)
Lemma compute_percentages_bounded (hero_name : string) (hs : list Hand) (s : Stats.t) :
  compute (ingest hero_name hs) = Ret s ->
  (0 <= Stats.vpip_pct s /\ Stats.vpip_pct s <= 100)%Q
  /\ (0 <= Stats.pfr_pct s /\ Stats.pfr_pct s <= 100)%Q
  /\ (-100 <= Stats.vpip_pfr_gap s /\ Stats.vpip_pfr_gap s <= 100)%Q
  /\ (0 <= Stats.cbet_flop_pct s /\ Stats.cbet_flop_pct s <= 100)%Q
  /\ (0 <= Stats.cbet_turn_pct s /\ Stats.cbet_turn_pct s <= 100)%Q
  /\ (0 <= Stats.wsd_pct s /\ Stats.wsd_pct s <= 100)%Q
  /\ (0 <= Stats.wtsd_pct s)%Q.
Proof.
  intros Hs.
  destruct (counters_ok_ingest hero_name hs)
    as [Hcount _ Hpfr Hvpip Hcf Hct Hwsd Hsaw _ _ _].
  set (st := ingest hero_name hs) in *.
  destruct (avg_bb_Ret st) as [avg Havg].
  destruct (compute_cases st avg Havg) as [[_ Hc]|[_ Hc]]; [congruence|].
  assert (s = stats_with st avg) as -> by congruence. clear Hs Hc.
  assert (0 <= hands_count st)%Z as Hhc by lia.
  destruct (or1_pos _ Hhc) as [Ht1 Ht2].
  assert (0 <= wtsd st)%Z as Hw by lia.
  destruct (or1_pos _ Hw) as [Hw1 Hw2].
  destruct (or1_pos _ Hsaw) as [Hf1 Hf2].
  pose proof (percentage_bounds (vpip st) (or1 (hands_count st)) ltac:(lia) Ht1) as [Hv0 Hv1].
  pose proof (percentage_bounds (pfr st) (or1 (hands_count st)) ltac:(lia) Ht1) as [Hp0 Hp1].
  pose proof (percentage_bounds (wsd_wins st) (or1 (wtsd st)) ltac:(lia) Hw1) as [Hs0 Hs1].
  assert (forall hits opp, (0 <= hits <= opp)%Z ->
            (0 <= (if (opp =? 0)%Z then 0 else inject_Z hits / inject_Z opp * 100)
             /\ (if (opp =? 0)%Z then 0 else inject_Z hits / inject_Z opp * 100) <= 100)%Q)
    as Hcb.
  { intros hits opp Hho. destruct (Z.eqb_spec opp 0) as [|Hne]; [split; lra|].
    apply percentage_bounds; lia. }
  unfold stats_with. cbn [Stats.vpip_pct Stats.pfr_pct Stats.vpip_pfr_gap Stats.cbet_flop_pct
                            Stats.cbet_turn_pct Stats.wsd_pct Stats.wtsd_pct].
  pose proof (round2_bounds 0 100 _ Hv0 Hv1) as [Hrv0 Hrv1].
  pose proof (round2_bounds 0 100 _ Hp0 Hp1) as [Hrp0 Hrp1].
  change (inject_Z 0) with 0%Q in *. change (inject_Z 100) with 100%Q in *.
  split; [split; assumption|]. split; [split; assumption|].
  split.
  { apply (round2_bounds (-100) 100);
      change (inject_Z (-100)) with (-100)%Q; change (inject_Z 100) with 100%Q; lra. }
  split; [apply (round2_bounds 0 100); apply Hcb; exact Hcf|].
  split; [apply (round2_bounds 0 100); apply Hcb; exact Hct|].
  split; [apply (round2_bounds 0 100); assumption|].
  assert (0 <= inject_Z (wtsd st) / inject_Z (or1 (saw_flop st)) * 100)%Q as Hw0.
  { assert (0 < inject_Z (or1 (saw_flop st)))%Q by (unfold Qlt; simpl; lia).
    assert (0 <= inject_Z (wtsd st))%Q by (unfold Qle; simpl; lia).
    assert (0 <= inject_Z (wtsd st) / inject_Z (or1 (saw_flop st)))%Q
      by (apply Qle_shift_div_l; [assumption | lra]).
    lra. }
  apply (round2_lower 0). exact Hw0.
Qed.

(** C2 fails on the showdown rate.  Two hands that went all-in before the
    flop: each has five board cards and no flop action, so two showdowns are
    counted against no flop seen, and the rate is 200. *)
Theorem wtsd_pct_exceeds_100 :
  parse_hand decimal_int decimal_float literal_search preflop_showdown_block "Hero"
  = Some preflop_showdown_hand
  /\ exists s,
       compute (ingest "Hero" [preflop_showdown_hand; preflop_showdown_hand]) = Ret s
       /\ (Stats.wtsd_pct s == 200)%Q.
Proof.
  split; [vm_compute; reflexivity|].
  eexists. split; [vm_compute; reflexivity|]. reflexivity.
Qed.

(** C8 fails at the one division of [compute] that has no guard.  A single
    hand from a table whose blinds are written as zero: the hand list is not
    empty, so the fallback 1 is not taken, the mean big blind is zero, and
    [compute] raises where the claim has it return a win rate. *)
Theorem compute_raises_on_zero_blinds :
  parse_hand decimal_int decimal_float literal_search zero_blind_block "Hero" = Some zero_blind_hand
  /\ hands (ingest "Hero" [zero_blind_hand]) <> []
  /\ (exists avg, avg_bb (ingest "Hero" [zero_blind_hand]) = Ret avg /\ (avg == 0)%Q)
  /\ compute (ingest "Hero" [zero_blind_hand]) = Raise ZeroDivisionError.
Proof.
  split; [vm_compute; reflexivity|]. split; [discriminate|].
  split; [|vm_compute; reflexivity].
  eexists. split; [vm_compute; reflexivity | reflexivity].
Qed.

(** ** [compute_positional] *)

Lemma mean_bb_Ret (hs : list Hand) :
  hs <> [] ->
  exists avg, mean (map bb hs) = Ret avg /\ (avg == mean_big_blind hs)%Q.
Proof.
  intros Hne. unfold mean, mean_big_blind.
  destruct (map bb hs) as [|x xs] eqn:Em.
  { destruct hs; [contradiction | discriminate]. }
  rewrite <- Em. eexists. split; [reflexivity|].
  rewrite sum_foldr, foldr_map_bb, length_map. reflexivity.
Qed.

Lemma positional_bb100_Ret (self : t) (pos : string) :
  ~ (mean_big_blind (hands self) == 0)%Q ->
  exists q, positional_bb100 self pos = Ret q.
Proof.
  intros Hmean. unfold positional_bb100.
  destruct (results_at self pos) as [|r rs] eqn:Hres; [eauto|].
  assert (hands self <> []) as Hne.
  { intros Hnil. unfold results_at in Hres. rewrite Hnil in Hres. discriminate. }
  destruct (mean_bb_Ret (hands self) Hne) as (avg & -> & Havg). cbn [mbind exc_bind].
  rewrite pydiv_Ret by (rewrite Havg; exact Hmean). cbn [mbind exc_bind].
  rewrite pydiv_Ret by (apply inject_Z_nonzero; simpl; lia). eauto.
Qed.

Lemma filter_none {A} (P : A -> Prop) `{forall x, Decision (P x)} (l : list A) :
  (forall x, x ∈ l -> ~ P x) -> filter P l = [].
Proof.
  induction l as [|x l IH]; intros Hl; [reflexivity|].
  rewrite filter_cons_False by (apply Hl; left). apply IH.
  intros y Hy. apply Hl. right. exact Hy.
Qed.

(** No hand puts hero at a position called UNKNOWN. *)
Lemma results_at_unknown (self : t) : results_at self "UNKNOWN" = [].
Proof.
  unfold results_at. rewrite filter_none; [reflexivity|].
  intros h _ Hpos. apply determine_positions_values in Hpos.
  unfold positions in Hpos. repeat (apply elem_of_cons in Hpos as [Hpos|Hpos]; [discriminate|]).
  inversion Hpos.
Qed.

Lemma positional_row_unfold (self : t) (pos : string) (cnt : gmap string Z) :
  positional_row self pos cnt
  = if (get "hands" 0 cnt =? 0)%Z then Ret None
    else bb100 ← positional_bb100 self pos;
         Ret (Some {| PosRow.hands := get "hands" 0 cnt;
                      PosRow.vpip_pct :=
                        round2 (inject_Z (get "vpip" 0 cnt) / inject_Z (get "hands" 0 cnt) * 100);
                      PosRow.pfr_pct :=
                        round2 (inject_Z (get "pfr" 0 cnt) / inject_Z (get "hands" 0 cnt) * 100);
                      PosRow.bb_per_100 := round2 bb100 |}).
Proof.
  unfold positional_row, positional_cbf.
  destruct (Z.eqb_spec (get "hands" 0 cnt) 0) as [|Hne]; [reflexivity|].
  rewrite !ratio100_Ret by first [exact Hne | apply or1_nonzero]. reflexivity.
Qed.

Lemma positional_row_Ret (self : t) (pos : string) (cnt : gmap string Z) :
  ~ (mean_big_blind (hands self) == 0)%Q ->
  exists row, positional_row self pos cnt = Ret row.
Proof.
  intros Hmean. rewrite positional_row_unfold.
  destruct (get "hands" 0 cnt =? 0)%Z; [eauto|].
  destruct (positional_bb100_Ret self pos Hmean) as [q ->]. cbn [mbind exc_bind]. eauto.
Qed.

(** A mapping that [compute_positional] returns holds, for each position, the
    row of that position. *)
Lemma compute_positional_lookup (self : t) (out : gmap string PosRow.t) :
  compute_positional self = Ret out ->
  forall pos, out !! pos = pos_stats self !! pos ≫= row_of self pos.
Proof.
  unfold compute_positional. revert out.
  apply (map_fold_weak_ind
           (fun r m => forall out, r = Ret out ->
                                   forall pos, out !! pos = m !! pos ≫= row_of self pos)).
  - intros out [= <-] pos. rewrite !lookup_empty. reflexivity.
  - intros i x m r Hi IH out Hout pos.
    destruct r as [acc|e]; [|discriminate]. cbn [mbind exc_bind] in Hout.
    destruct (positional_row self i x) as [row|e] eqn:Hrow; [|discriminate].
    cbn [mbind exc_bind] in Hout. injection Hout as <-.
    specialize (IH acc eq_refl).
    destruct (decide (i = pos)) as [<-|Hne].
    + rewrite lookup_insert_eq. cbn [mbind option_bind]. unfold row_of. rewrite Hrow.
      destruct row as [r|]; [apply lookup_insert_eq|].
      rewrite IH, Hi. reflexivity.
    + rewrite (lookup_insert_ne m) by exact Hne.
      destruct row as [r|]; [rewrite lookup_insert_ne by exact Hne|]; apply IH.
Qed.

(** When no row raises, [compute_positional] returns the mapping of the
    positions to their rows. *)
Lemma compute_positional_Ret (self : t) :
  (forall pos cnt, pos_stats self !! pos = Some cnt ->
                   exists row, positional_row self pos cnt = Ret row) ->
  exists out,
    compute_positional self = Ret out
    /\ forall pos, out !! pos = pos_stats self !! pos ≫= row_of self pos.
Proof.
  unfold compute_positional.
  apply (map_fold_weak_ind
           (fun r m =>
              (forall pos cnt, m !! pos = Some cnt ->
                               exists row, positional_row self pos cnt = Ret row) ->
              exists out, r = Ret out /\ forall pos, out !! pos = m !! pos ≫= row_of self pos)).
  - intros _. exists ∅. split; [reflexivity|].
    intros pos. rewrite !lookup_empty. reflexivity.
  - intros i x m r Hi IH Hrows.
    destruct IH as (out & -> & Hout).
    { intros pos cnt Hpos. apply Hrows.
      rewrite lookup_insert_ne; [exact Hpos|]. intros <-. congruence. }
    destruct (Hrows i x) as [row Hrow]; [apply lookup_insert_eq|].
    cbn [mbind exc_bind]. rewrite Hrow. cbn [mbind exc_bind].
    eexists. split; [reflexivity|].
    intros pos. destruct (decide (i = pos)) as [<-|Hne].
    + rewrite lookup_insert_eq. cbn [mbind option_bind]. unfold row_of. rewrite Hrow.
      destruct row as [r|]; [apply lookup_insert_eq|].
      rewrite Hout, Hi. reflexivity.
    + rewrite (lookup_insert_ne m) by exact Hne.
      destruct row as [r|]; [rewrite lookup_insert_ne by exact Hne|]; apply Hout.
Qed.

(** The sample hands are what the parser makes of the sample blocks. *)
Lemma sample_hands_parse :
  parse_hand decimal_int decimal_float literal_search scenario_block "Hero" = Some scenario_hand
  /\ parse_hand decimal_int decimal_float literal_search folded_block "Hero" = Some folded_hand
  /\ parse_hand decimal_int decimal_float literal_search away_block "Hero" = Some away_hand
  /\ parse_hand decimal_int decimal_float literal_search zero_blind_away_block "Hero"
     = Some zero_blind_away_hand.
Proof. repeat split; vm_compute; reflexivity. Qed.

(** The scenario of the specification, with the values it expects. *)
Lemma scenario_stats :
  exists s,
    compute (ingest "Hero" [scenario_hand]) = Ret s
    /\ (Stats.vpip_pct s == 100)%Q /\ (Stats.pfr_pct s == 100)%Q
    /\ (Stats.cbet_flop_pct s == 100)%Q
    /\ (Stats.wtsd_pct s == 100)%Q /\ (Stats.wsd_pct s == 100)%Q
    /\ (Stats.bb_per_100 s == 2000)%Q.
Proof. eexists. split; [vm_compute; reflexivity|]. repeat split; reflexivity. Qed.

(** C10 fails at the division by the mean big blind, which
    [compute_positional] leaves unguarded as [compute] does.  Hero is seated in
    one hand and away in the next, both at a table whose blinds are written as
    zero: the second hand is counted under UNKNOWN, yet [compute_positional]
    raises and returns no mapping, so the key appears nowhere.  The same two
    seatings at blinds of 0.5 and 1 return a mapping that has the key. *)
Theorem compute_positional_raises_on_zero_blinds :
  let st := ingest "Hero" [zero_blind_hand; zero_blind_away_hand] in
  parse_hand decimal_int decimal_float literal_search zero_blind_block "Hero"
  = Some zero_blind_hand
  /\ parse_hand decimal_int decimal_float literal_search zero_blind_away_block "Hero"
     = Some zero_blind_away_hand
  /\ hero_pos "Hero" zero_blind_away_hand = "UNKNOWN"
  /\ counter "UNKNOWN" "hands" (pos_stats st) = 1%Z
  /\ compute_positional st = Raise ZeroDivisionError
  /\ exists out,
       compute_positional (ingest "Hero" [scenario_hand; away_hand]) = Ret out
       /\ is_Some (out !! "UNKNOWN").
Proof.
  cbv zeta. repeat (split; [vm_compute; reflexivity|]).
  destruct (compute_positional (ingest "Hero" [scenario_hand; away_hand])) as [out|e] eqn:Hc;
    [|exfalso; revert Hc; vm_compute; discriminate].
  exists out. split; [reflexivity|].
  rewrite (compute_positional_lookup _ out Hc). vm_compute. eauto.
Qed.

(** ** The positional c-bet ratio *)

(** [add_hand] never writes a positional opportunity counter, so the local
    ratio of [compute_positional] divides the positional hits by the position's
    hand count. *)
Lemma positional_cbf_divides_by_hands (hero_name : string) (hs : list Hand)
  (pos : string) (cnt : gmap string Z) :
  pos_stats (ingest hero_name hs) !! pos = Some cnt ->
  cnt !! "cbet_flop_opportunities" = None
  /\ positional_cbf cnt (get "hands" 0 cnt)
     = Ret (inject_Z (get "cbet_flop" 0 cnt) / inject_Z (get "hands" 0 cnt) * 100)%Q.
Proof.
  intros Hcnt.
  pose proof (counters_ok_ingest hero_name hs) as Hok.
  pose proof (ok_pos_keys _ Hok pos cnt Hcnt) as Hkey.
  pose proof (ok_pos_seen _ Hok pos (ex_intro _ cnt Hcnt)) as Hn.
  unfold counter in Hn. rewrite Hcnt in Hn. simpl in Hn.
  split; [exact Hkey|].
  unfold positional_cbf. unfold get at 2. rewrite Hkey. simpl.
  assert (or1 (get "hands" 0 cnt) = get "hands" 0 cnt) as ->
    by (unfold or1; destruct (Z.eqb_spec (get "hands" 0 cnt) 0); [lia | reflexivity]).
  apply ratio100_Ret. lia.
Qed.

(** C4 fails.  Hero on the button in two hands, a c-bet in the first and a fold
    before the flop in the second: the position has one hit out of one
    opportunity, as the global rate of 100 says, but no positional opportunity
    counter exists, the local ratio is 1 hit over 2 hands, and the row that is
    returned carries no c-bet ratio at all. *)
Theorem positional_cbet_not_reported :
  let st := ingest "Hero" [scenario_hand; folded_hand] in
  counter "BTN" "cbet_flop" (pos_stats st) = 1%Z
  /\ counter "BTN" "hands" (pos_stats st) = 2%Z
  /\ cbet_flop st = 1%Z /\ cbet_flop_opportunities st = 1%Z
  /\ (exists s, compute st = Ret s /\ (Stats.cbet_flop_pct s == 100)%Q)
  /\ (exists cnt q,
        pos_stats st !! "BTN" = Some cnt
        /\ cnt !! "cbet_flop_opportunities" = None
        /\ positional_cbf cnt 2 = Ret q /\ (q == 50)%Q)
  /\ (exists out row,
        compute_positional st = Ret out
        /\ out !! "BTN" = Some row
        /\ PosRow.hands row = 2%Z
        /\ (PosRow.vpip_pct row == 50)%Q /\ (PosRow.pfr_pct row == 50)%Q
        /\ (PosRow.bb_per_100 row == 1000)%Q).
Proof.
  cbv zeta.
  split; [vm_compute; reflexivity|]. split; [vm_compute; reflexivity|].
  split; [vm_compute; reflexivity|]. split; [vm_compute; reflexivity|].
  split.
  { eexists. split; [vm_compute; reflexivity | reflexivity]. }
  split.
  { eexists _, _. split; [vm_compute; reflexivity|].
    split; [vm_compute; reflexivity|]. split; [vm_compute; reflexivity | reflexivity]. }
  eexists _, _. split; [vm_compute; reflexivity|].
  split; [vm_compute; reflexivity|]. repeat split; reflexivity.
Qed.

(* ================================================================== *)
(** * Further properties *)

(** ** The block splitter *)

Lemma append_nil_r (s : string) : s +:+ "" = s.
Proof.
  induction s as [|a s IH]; [reflexivity|].
  change (String a (s +:+ "") = String a s). rewrite IH. reflexivity.
Qed.

Lemma append_assoc (s t u : string) : (s +:+ t) +:+ u = s +:+ (t +:+ u).
Proof.
  induction s as [|a s IH]; [reflexivity|].
  change (String a ((s +:+ t) +:+ u) = String a (s +:+ (t +:+ u))). rewrite IH. reflexivity.
Qed.

Lemma snoc_append (cur : string) (a : ascii) (s : string) :
  snoc cur a +:+ s = cur +:+ String a s.
Proof. unfold snoc. rewrite append_assoc. reflexivity. Qed.

Lemma prefix_split (p s : string) :
  String.prefix p s = true -> s = p +:+ drop_chars (String.length p) s.
Proof.
  revert s. induction p as [|a p IH]; intros s Hp.
  - destruct s; reflexivity.
  - destruct s as [|b s]; simpl in Hp; [discriminate|].
    destruct (ascii_dec a b) as [<-|]; [|discriminate].
    change (String a s = String a (p +:+ drop_chars (String.length p) s)).
    f_equal. apply IH, Hp.
Qed.

(** Passing over the rest of a matched marker. *)
Lemma re_split_skip (m s cur : string) :
  re_split_from (m +:+ s) false (String.length m) cur = re_split_from s false 0 cur.
Proof.
  induction m as [|a m IH]; [reflexivity|].
  change (re_split_from (String a (m +:+ s)) false (S (String.length m)) cur
          = re_split_from s false 0 cur).
  cbn [re_split_from]. exact IH.
Qed.

(** The scan at a marker that stands at the start of a line. *)
Lemma re_split_at_marker (s cur : string) :
  re_split_from (HAND_MARKER +:+ s) true 0 cur = cur :: re_split_from s false 0 "".
Proof.
  pose proof (re_split_skip "oker Hand #" s "") as Hskip.
  pose proof (prefix_append HAND_MARKER s) as Hp.
  change (HAND_MARKER +:+ s) with (String "P" ("oker Hand #" +:+ s)) in *.
  cbn [re_split_from]. rewrite Hp. cbn [andb]. apply (f_equal (cons cur)). exact Hskip.
Qed.

(** The scan away from a marker. *)
Lemma re_split_step (a : ascii) (s cur : string) (bol : bool) :
  bol && String.prefix HAND_MARKER (String a s) = false ->
  re_split_from (String a s) bol 0 cur = re_split_from s (Ascii.eqb a LF) 0 (snoc cur a).
Proof. intros H. cbn [re_split_from]. rewrite H. reflexivity. Qed.

Lemma re_split_end (cur : string) (bol : bool) : re_split_from "" bol 0 cur = [cur].
Proof. cbn [re_split_from]. rewrite andb_false_r. reflexivity. Qed.

Lemma re_split_rejoin_bounded (k : nat) :
  forall s bol cur,
    (String.length s <= k)%nat ->
    exists part parts,
      re_split_from s bol 0 cur = part :: parts /\ part +:+ rejoin parts = cur +:+ s.
Proof.
  induction k as [|k IH]; intros s bol cur Hlen.
  - destruct s; [|simpl in Hlen; lia].
    exists cur, []. rewrite re_split_end. split; reflexivity.
  - destruct (bol && String.prefix HAND_MARKER s) eqn:Hm.
    + apply andb_true_iff in Hm as [-> Hp].
      apply prefix_split in Hp. set (s' := drop_chars (String.length HAND_MARKER) s) in *.
      assert (String.length s' <= k)%nat as Hlen'.
      { rewrite Hp, length_append in Hlen. simpl in Hlen. lia. }
      destruct (IH s' false "" Hlen') as (part & parts & Hsplit & Hjoin).
      exists cur, (part :: parts). rewrite Hp at 1. rewrite re_split_at_marker, Hsplit.
      split; [reflexivity|].
      unfold rejoin in *. cbn [map concat_strings foldr].
      rewrite append_assoc. fold (concat_strings (map (fun p => HAND_MARKER +:+ p) parts)).
      rewrite Hjoin. change ("" +:+ s') with s'. rewrite <- Hp. reflexivity.
    + destruct s as [|a s].
      * exists cur, []. rewrite re_split_end. split; reflexivity.
      * rewrite re_split_step by exact Hm.
        destruct (IH s (Ascii.eqb a LF) (snoc cur a)) as (part & parts & Hsplit & Hjoin).
        { simpl in Hlen. lia. }
        exists part, parts. split; [exact Hsplit|]. rewrite Hjoin. apply snoc_append.
Qed.

Lemma re_split_rejoin (text : string) :
  exists preamble parts,
    re_split text = preamble :: parts /\ preamble +:+ rejoin parts = text.
Proof.
  destruct (re_split_rejoin_bounded (String.length text) text true "" (le_n _))
    as (part & parts & Hsplit & Hjoin).
  exists part, parts. split; [exact Hsplit | exact Hjoin].
Qed.

Lemma re_split_no_marker (s : string) :
  forall bol cur,
    str_contains HAND_MARKER s = false ->
    re_split_from s bol 0 cur = [cur +:+ s].
Proof.
  induction s as [|a s IH]; intros bol cur Hno.
  - rewrite re_split_end, append_nil_r. reflexivity.
  - cbn [str_contains] in Hno. apply orb_false_iff in Hno as [Hp Hno].
    rewrite re_split_step by (rewrite Hp; apply andb_false_r).
    rewrite IH by exact Hno. rewrite snoc_append. reflexivity.
Qed.

(** X2.  A text in which the marker does not occur yields no block. *)
Theorem iter_hand_texts_no_marker (text : string) :
  str_contains HAND_MARKER text = false -> iter_hand_texts text = [].
Proof.
  intros Hno. unfold iter_hand_texts, re_split.
  rewrite re_split_no_marker by exact Hno. reflexivity.
Qed.

Lemma iter_hand_texts_no_marker_witness : iter_hand_texts "Table Foo" = [].
Proof. apply (iter_hand_texts_no_marker "Table Foo"). reflexivity. Defined.

Lemma prefix_mono (m x y : string) :
  String.prefix m x = true -> String.prefix m (x +:+ y) = true.
Proof.
  revert x. induction m as [|a m IH]; intros x Hp.
  - destruct (x +:+ y); reflexivity.
  - destruct x as [|b x]; simpl in Hp; [discriminate|].
    change (String b x +:+ y) with (String b (x +:+ y)). simpl.
    destruct (ascii_dec a b); [apply IH, Hp | discriminate].
Qed.

(** The first part of a split: it runs up to the first marker at the start of
    a line, and is all there is when it is scanned on its own. *)
Lemma re_split_first (s : string) :
  forall bol cur part parts,
    re_split_from s bol 0 cur = part :: parts ->
    exists p,
      part = cur +:+ p
      /\ re_split_from p bol 0 cur = [cur +:+ p]
      /\ ((parts = [] /\ s = p)
          \/ exists s', s = p +:+ HAND_MARKER +:+ s' /\ parts = re_split_from s' false 0 "").
Proof.
  induction s as [|a s IH]; intros bol cur part parts Hsplit.
  - rewrite re_split_end in Hsplit. injection Hsplit as <- <-.
    exists "". rewrite re_split_end, append_nil_r. auto.
  - destruct (bol && String.prefix HAND_MARKER (String a s)) eqn:Hm.
    + apply andb_true_iff in Hm as [-> Hp]. apply prefix_split in Hp.
      rewrite Hp, re_split_at_marker in Hsplit. injection Hsplit as <- <-.
      exists "". rewrite re_split_end, append_nil_r.
      split; [reflexivity|]. split; [reflexivity|]. right.
      exists (drop_chars (String.length HAND_MARKER) (String a s)).
      split; [exact Hp | reflexivity].
    + rewrite re_split_step in Hsplit by exact Hm.
      destruct (IH _ _ _ _ Hsplit) as (p & -> & Hp & Hrest).
      exists (String a p). rewrite snoc_append. split; [reflexivity|].
      assert (bol && String.prefix HAND_MARKER (String a p) = false) as Hm'.
      { destruct bol; [|reflexivity]. cbn [andb] in *.
        destruct (String.prefix HAND_MARKER (String a p)) eqn:Hpre; [|reflexivity].
        rewrite <- Hm. symmetry.
        destruct Hrest as [[_ ->]|(s' & -> & _)]; [exact Hpre|].
        change (String a (p +:+ HAND_MARKER +:+ s')) with (String a p +:+ HAND_MARKER +:+ s').
        apply prefix_mono, Hpre. }
      rewrite re_split_step by exact Hm'. rewrite Hp, snoc_append.
      split; [reflexivity|].
      destruct Hrest as [[-> ->]|(s' & -> & ->)]; [left; auto|].
      right. exists s'. split; reflexivity.
Qed.

Lemma re_split_parts_closed (k : nat) :
  forall s bol cur part parts,
    (String.length s <= k)%nat ->
    re_split_from s bol 0 cur = part :: parts ->
    forall q, q ∈ parts -> re_split_from q false 0 "" = [q].
Proof.
  induction k as [|k IH]; intros s bol cur part parts Hlen Hsplit q Hq;
    destruct (re_split_first s bol cur part parts Hsplit) as (p & _ & _ & Hrest);
    destruct Hrest as [[-> _]|(s' & Hs & Hparts)]; try solve [inversion Hq].
  - rewrite Hs, !length_append in Hlen.
    change (String.length HAND_MARKER) with 12%nat in Hlen. lia.
  - assert (String.length s' <= k)%nat as Hlen'.
    { rewrite Hs, !length_append in Hlen.
      change (String.length HAND_MARKER) with 12%nat in Hlen. lia. }
    destruct (re_split_from s' false 0 "") as [|part' parts'] eqn:Hs'.
    { subst parts. inversion Hq. }
    subst parts. apply elem_of_cons in Hq as [->|Hq].
    + destruct (re_split_first s' false "" part' parts' Hs') as (p' & -> & Hp' & _).
      exact Hp'.
    + exact (IH s' false "" part' parts' Hlen' Hs' q Hq).
Qed.

(** X3.  A block is a text of one hand: split again, it yields itself and
    nothing else. *)
Theorem iter_hand_texts_block (text b : string) :
  b ∈ iter_hand_texts text -> iter_hand_texts b = [b].
Proof.
  unfold iter_hand_texts at 1. intros Hb.
  destruct (re_split text) as [|preamble parts] eqn:Hsplit; [inversion Hb|].
  assert (exists q, b = HAND_MARKER +:+ q /\ q ∈ parts) as (q & -> & Hq).
  { destruct parts as [|p parts]; [inversion Hb|].
    apply list_elem_of_In, in_map_iff in Hb as (q & <- & Hq).
    exists q. split; [reflexivity | apply list_elem_of_In, Hq]. }
  pose proof (re_split_parts_closed (String.length text) text true "" preamble parts
                (le_n _) Hsplit q Hq) as Hclosed.
  unfold iter_hand_texts, re_split. rewrite re_split_at_marker, Hclosed. reflexivity.
Qed.

Lemma iter_hand_texts_block_witness :
  iter_hand_texts (HAND_MARKER +:+ "1" +:+ nl) = [HAND_MARKER +:+ "1" +:+ nl].
Proof.
  apply (iter_hand_texts_block
           ("junk" +:+ nl +:+ HAND_MARKER +:+ "1" +:+ nl +:+ HAND_MARKER +:+ "2")
           (HAND_MARKER +:+ "1" +:+ nl)).
  vm_compute. left.
Defined.

(** ** The blocks, told without the splitter *)

Lemma ends_line_cons (a : ascii) (p : string) :
  ends_line p = true -> (Ascii.eqb a LF = false -> p <> "") ->
  ends_line (String a p) = true.
Proof.
  intros Hp Hne. destruct p as [|b p]; [|exact Hp].
  cbn [ends_line]. destruct (Ascii.eqb a LF); [reflexivity|].
  exfalso. apply Hne; reflexivity.
Qed.

Lemma ends_line_append (u v : string) : v <> "" -> ends_line (u +:+ v) = ends_line v.
Proof.
  intros Hv. induction u as [|a u IH]; [reflexivity|].
  change (String a u +:+ v) with (String a (u +:+ v)).
  destruct (u +:+ v) as [|b w] eqn:E.
  - destruct u; [|discriminate E]. change ("" +:+ v) with v in E. contradiction.
  - change (ends_line (String a (String b w))) with (ends_line (String b w)). exact IH.
Qed.

(** The first part of a split, told without the splitter: it has no marker
    at the start of a line, and when a marker follows it, the marker starts
    a line. *)
Lemma re_split_first_spec (s : string) :
  forall bol cur part parts,
    re_split_from s bol 0 cur = part :: parts ->
    exists p,
      part = cur +:+ p
      /\ marker_free p bol = true
      /\ ((parts = [] /\ s = p)
          \/ exists s', s = p +:+ HAND_MARKER +:+ s'
                        /\ parts = re_split_from s' false 0 ""
                        /\ ends_line p = true
                        /\ (bol = false -> p <> "")).
Proof.
  induction s as [|a s IH]; intros bol cur part parts Hsplit.
  - rewrite re_split_end in Hsplit. injection Hsplit as <- <-.
    exists "". rewrite append_nil_r. split; [reflexivity|].
    split; [destruct bol; reflexivity | left; auto].
  - destruct (bol && String.prefix HAND_MARKER (String a s)) eqn:Hm.
    + apply andb_true_iff in Hm as [-> Hp]. apply prefix_split in Hp.
      rewrite Hp, re_split_at_marker in Hsplit. injection Hsplit as <- <-.
      exists "". rewrite append_nil_r.
      split; [reflexivity|]. split; [reflexivity|]. right.
      exists (drop_chars (String.length HAND_MARKER) (String a s)).
      split; [exact Hp|]. split; [reflexivity|]. split; [reflexivity | discriminate].
    + rewrite re_split_step in Hsplit by exact Hm.
      destruct (IH _ _ _ _ Hsplit) as (p & -> & Hfree & Hrest).
      exists (String a p). rewrite snoc_append. split; [reflexivity|].
      assert (bol && String.prefix HAND_MARKER (String a p) = false) as Hm'.
      { destruct bol; [|reflexivity]. cbn [andb] in *.
        destruct (String.prefix HAND_MARKER (String a p)) eqn:Hpre; [|reflexivity].
        rewrite <- Hm. symmetry.
        destruct Hrest as [[_ ->]|(s' & -> & _)]; [exact Hpre|].
        change (String a (p +:+ HAND_MARKER +:+ s')) with (String a p +:+ HAND_MARKER +:+ s').
        apply prefix_mono, Hpre. }
      split.
      { cbn [marker_free]. rewrite Hm', Hfree. reflexivity. }
      destruct Hrest as [[-> ->]|(s' & -> & -> & Hend & Hne)]; [left; auto|].
      right. exists s'. split; [reflexivity|]. split; [reflexivity|].
      split; [apply ends_line_cons; assumption | discriminate].
Qed.

Lemma re_split_parts_spec (k : nat) :
  forall s part parts,
    (String.length s <= k)%nat ->
    re_split_from s false 0 "" = part :: parts ->
    Forall (fun q => marker_free q false = true) (part :: parts)
    /\ forall i q, (part :: parts) !! i = Some q -> (S i < length (part :: parts))%nat ->
                   q <> "" /\ ends_line q = true.
Proof.
  induction k as [|k IH]; intros s part parts Hlen Hsplit;
    destruct (re_split_first_spec s false "" part parts Hsplit) as (p & -> & Hfree & Hrest);
    change ("" +:+ p) with p;
    (destruct Hrest as [[-> _]|(s' & Hs & Hparts & Hend & Hne)];
     [split; [repeat constructor; exact Hfree|];
      intros [|i] q Hq Hi; simpl in Hi; lia|]).
  - rewrite Hs, !length_append in Hlen.
    change (String.length HAND_MARKER) with 12%nat in Hlen. lia.
  - assert (String.length s' <= k)%nat as Hlen'.
    { rewrite Hs, !length_append in Hlen.
      change (String.length HAND_MARKER) with 12%nat in Hlen. lia. }
    destruct (re_split_from s' false 0 "") as [|part' parts'] eqn:Hs'; subst parts.
    { split; [repeat constructor; exact Hfree|].
      intros [|i] q Hq Hi; simpl in Hi; lia. }
    destruct (IH s' part' parts' Hlen' Hs') as [Hall Hcut].
    split; [constructor; [exact Hfree | exact Hall]|].
    intros [|i] q Hq Hi.
    + injection Hq as <-. split; [apply Hne; reflexivity | exact Hend].
    + apply (Hcut i q Hq). cbn [length] in *. lia.
Qed.

Lemma iter_hand_texts_split (text : string) :
  exists preamble,
    head (re_split text) = Some preamble
    /\ split_at_markers text preamble (iter_hand_texts text).
Proof.
  destruct (re_split_rejoin text) as (preamble & parts & Hsplit & Hjoin).
  assert (iter_hand_texts text = map (fun part => HAND_MARKER +:+ part) parts) as Hblocks.
  { unfold iter_hand_texts. rewrite Hsplit. destruct parts; reflexivity. }
  unfold split_at_markers. rewrite Hblocks. exists preamble. rewrite Hsplit.
  split; [reflexivity|]. split; [symmetry; exact Hjoin|].
  unfold re_split in Hsplit.
  destruct (re_split_first_spec text true "" preamble parts Hsplit) as (p & -> & Hfree & Hrest).
  change ("" +:+ p) with p in *. split; [exact Hfree|].
  destruct Hrest as [[-> _]|(s' & Hs & Hparts & Hend & _)].
  { split; [intros H; contradiction H; reflexivity|]. intros i b Hb. discriminate Hb. }
  split; [intros _; exact Hend|].
  intros i b Hb. rewrite list_lookup_fmap in Hb.
  destruct (parts !! i) as [part|] eqn:Hi; [|discriminate]. injection Hb as <-.
  destruct parts as [|part0 parts]; [discriminate Hi|].
  destruct (re_split_parts_spec (String.length s') s' part0 parts (le_n _) (eq_sym Hparts))
    as [Hall Hcut].
  rewrite Forall_forall in Hall.
  split.
  - exists part. split; [reflexivity|]. apply Hall. eapply list_elem_of_lookup_2, Hi.
  - rewrite length_map. intros Hlt. destruct (Hcut i part Hi Hlt) as [Hne Hendp].
    rewrite ends_line_append by exact Hne. exact Hendp.
Qed.

Lemma prefix_append_cases (m p rest : string) :
  String.prefix m (p +:+ rest) = true ->
  String.prefix m p = true \/ String.prefix p m = true.
Proof.
  revert p. induction m as [|a m IH]; intros p H.
  - left. destruct p; reflexivity.
  - destruct p as [|b p]; [right; reflexivity|].
    change (String b p +:+ rest) with (String b (p +:+ rest)) in H.
    cbn [String.prefix] in *. destruct (ascii_dec a b) as [<-|]; [|discriminate].
    destruct (IH p H) as [Hl|Hr]; [left; exact Hl|].
    right. destruct (ascii_dec a a); [exact Hr | congruence].
Qed.

Lemma prefix_lacks (c : ascii) (p m : string) :
  String.prefix p m = true -> lacks c m = true -> lacks c p = true.
Proof.
  revert m. induction p as [|a p IH]; intros m Hp Hm; [reflexivity|].
  destruct m as [|b m]; [discriminate|].
  cbn [String.prefix] in Hp. destruct (ascii_dec a b) as [<-|]; [|discriminate].
  cbn [lacks] in *. apply andb_true_iff in Hm as [Ha Hm].
  rewrite Ha. exact (IH m Hp Hm).
Qed.

Lemma ends_line_has_newline (p : string) :
  p <> "" -> ends_line p = true -> lacks LF p = false.
Proof.
  induction p as [|a p IH]; intros Hne Hend; [contradiction|].
  destruct p as [|b p].
  - cbn [ends_line] in Hend. cbn [lacks]. rewrite Hend. reflexivity.
  - change (ends_line (String a (String b p))) with (ends_line (String b p)) in Hend.
    change (lacks LF (String a (String b p)))
      with (negb (Ascii.eqb a LF) && lacks LF (String b p)).
    rewrite IH by first [discriminate | exact Hend]. apply andb_false_r.
Qed.

(** A text without a marker at the start of a line is one part. *)
Lemma re_split_free (p : string) :
  forall bol cur, marker_free p bol = true -> re_split_from p bol 0 cur = [cur +:+ p].
Proof.
  induction p as [|a p IH]; intros bol cur Hfree.
  - rewrite re_split_end, append_nil_r. reflexivity.
  - cbn [marker_free] in Hfree. apply andb_true_iff in Hfree as [Hm Hfree].
    apply negb_true_iff in Hm.
    rewrite re_split_step by exact Hm. rewrite IH by exact Hfree.
    rewrite snoc_append. reflexivity.
Qed.

(** A text without a marker at the start of a line, then a marker that starts
    a line: the scan cuts at that marker and nowhere before. *)
Lemma re_split_free_then_marker (p : string) :
  forall bol cur s',
    marker_free p bol = true ->
    ends_line p = true -> (bol = false -> p <> "") ->
    re_split_from (p +:+ HAND_MARKER +:+ s') bol 0 cur
    = (cur +:+ p) :: re_split_from s' false 0 "".
Proof.
  induction p as [|a p IH]; intros bol cur s' Hfree Hend Hne.
  - destruct bol; [|exfalso; apply Hne; reflexivity].
    change ("" +:+ HAND_MARKER +:+ s') with (HAND_MARKER +:+ s').
    rewrite re_split_at_marker, append_nil_r. reflexivity.
  - cbn [marker_free] in Hfree. apply andb_true_iff in Hfree as [Hm Hfree].
    apply negb_true_iff in Hm.
    change (String a p +:+ HAND_MARKER +:+ s') with (String a (p +:+ HAND_MARKER +:+ s')).
    assert (bol && String.prefix HAND_MARKER (String a (p +:+ HAND_MARKER +:+ s')) = false)
      as Hm'.
    { destruct bol; [|reflexivity]. cbn [andb] in *.
      destruct (String.prefix HAND_MARKER (String a (p +:+ HAND_MARKER +:+ s'))) eqn:Hpre;
        [|reflexivity].
      change (String a (p +:+ HAND_MARKER +:+ s')) with (String a p +:+ HAND_MARKER +:+ s')
        in Hpre.
      apply prefix_append_cases in Hpre as [Hpre|Hpre]; [congruence|].
      apply (prefix_lacks LF) in Hpre; [|reflexivity].
      rewrite ends_line_has_newline in Hpre by first [discriminate | exact Hend].
      discriminate. }
    rewrite re_split_step by exact Hm'.
    rewrite IH; [rewrite snoc_append; reflexivity | exact Hfree | |].
    + destruct p; [reflexivity | exact Hend].
    + intros Hb ->. cbn [ends_line] in Hend. congruence.
Qed.

Lemma ends_line_marker_part (q : string) :
  ends_line (HAND_MARKER +:+ q) = true -> q <> "" /\ ends_line q = true.
Proof.
  intros Hend. assert (q <> "") as Hne by (intros ->; discriminate Hend).
  split; [exact Hne|]. rewrite ends_line_append in Hend by exact Hne. exact Hend.
Qed.

(** The parts after the first marker, scanned again, come out as they are. *)
Lemma re_split_parts_complete (qs : list string) :
  forall q,
    Forall (fun q => marker_free q false = true) (q :: qs) ->
    (forall i x, (q :: qs) !! i = Some x -> (S i < length (q :: qs))%nat ->
                 x <> "" /\ ends_line x = true) ->
    re_split_from (q +:+ rejoin qs) false 0 "" = q :: qs.
Proof.
  induction qs as [|q' qs IH]; intros q Hall Hcut.
  - unfold rejoin. cbn [map concat_strings foldr]. rewrite append_nil_r.
    apply Forall_inv in Hall. rewrite re_split_free by exact Hall. reflexivity.
  - apply Forall_cons in Hall as [Hq Hall].
    destruct (Hcut 0%nat q eq_refl) as [Hne Hend]; [cbn [length]; lia|].
    assert (q +:+ rejoin (q' :: qs) = q +:+ HAND_MARKER +:+ (q' +:+ rejoin qs)) as ->.
    { unfold rejoin. cbn [map concat_strings foldr]. rewrite append_assoc. reflexivity. }
    rewrite re_split_free_then_marker; [|exact Hq | exact Hend | intros _; exact Hne].
    change ("" +:+ q) with q. f_equal. apply IH; [exact Hall|].
    intros i x Hx Hi. apply (Hcut (S i) x Hx). cbn [length] in *. lia.
Qed.

Lemma drop_marker (q : string) : drop_chars (String.length HAND_MARKER) (HAND_MARKER +:+ q) = q.
Proof. apply drop_chars_append. Qed.

Lemma split_at_markers_unique (text preamble : string) (blocks : list string) :
  split_at_markers text preamble blocks ->
  head (re_split text) = Some preamble /\ iter_hand_texts text = blocks.
Proof.
  intros (Htext & Hfree & Hpre & Hblocks).
  set (parts := map (drop_chars (String.length HAND_MARKER)) blocks).
  assert (blocks = map (fun part => HAND_MARKER +:+ part) parts) as Hmap.
  { apply list_eq. intros i. unfold parts. rewrite !list_lookup_fmap.
    destruct (blocks !! i) as [b|] eqn:Hi; [|reflexivity].
    destruct (Hblocks i b Hi) as [(part & -> & _) _]. cbn [fmap option_fmap option_map].
    rewrite drop_marker. reflexivity. }
  assert (Forall (fun q => marker_free q false = true) parts) as Hall.
  { apply Forall_forall. intros q Hq. apply list_elem_of_lookup_1 in Hq as [i Hi].
    assert (blocks !! i = Some (HAND_MARKER +:+ q)) as Hb
      by (rewrite Hmap, list_lookup_fmap, Hi; reflexivity).
    destruct (Hblocks i _ Hb) as [(part & Heq & Hpart) _].
    apply (f_equal (drop_chars (String.length HAND_MARKER))) in Heq.
    rewrite !drop_marker in Heq. subst part. exact Hpart. }
  assert (forall i x, parts !! i = Some x -> (S i < length parts)%nat ->
                      x <> "" /\ ends_line x = true) as Hcut.
  { intros i x Hi Hlt.
    assert (blocks !! i = Some (HAND_MARKER +:+ x)) as Hb
      by (rewrite Hmap, list_lookup_fmap, Hi; reflexivity).
    destruct (Hblocks i _ Hb) as [_ Hend].
    apply ends_line_marker_part, Hend. rewrite Hmap, length_map. exact Hlt. }
  clearbody parts. subst blocks. unfold iter_hand_texts, re_split.
  destruct parts as [|q qs].
  - cbn [map concat_strings foldr] in Htext. rewrite append_nil_r in Htext. subst text.
    rewrite re_split_free by exact Hfree. split; reflexivity.
  - assert (text = preamble +:+ HAND_MARKER +:+ (q +:+ rejoin qs)) as ->.
    { rewrite Htext. unfold rejoin. cbn [map concat_strings foldr].
      rewrite append_assoc. reflexivity. }
    rewrite re_split_free_then_marker;
      [|exact Hfree | apply Hpre; discriminate | discriminate].
    rewrite re_split_parts_complete by assumption.
    split; reflexivity.
Qed.

(** X1.  Splitting loses nothing and invents nothing, and cuts where the
    markers are and nowhere else.  The text is a preamble followed by the
    blocks, one after the other; the preamble has no marker at the start of
    any of its lines; each block is the marker followed by a part that has no
    marker at the start of a line; and every cut stands at the start of a
    line, the preamble (when a block follows it) and every block but the last
    being empty or ended by a newline.  The blocks that are yielded are the
    only way to cut the text like this. *)
Theorem iter_hand_texts_concat (text : string) :
  (exists preamble,
      head (re_split text) = Some preamble
      /\ split_at_markers text preamble (iter_hand_texts text))
  /\ Forall (fun b => str_startswith HAND_MARKER b = true) (iter_hand_texts text)
  /\ forall preamble blocks,
       split_at_markers text preamble blocks ->
       head (re_split text) = Some preamble /\ blocks = iter_hand_texts text.
Proof.
  split; [apply iter_hand_texts_split|]. split.
  - destruct (iter_hand_texts_split text) as (preamble & _ & _ & _ & _ & Hblocks).
    apply Forall_forall. intros b Hb. apply list_elem_of_lookup_1 in Hb as [i Hi].
    destruct (Hblocks i b Hi) as [(part & -> & _) _]. apply prefix_append.
  - intros preamble blocks Hspec.
    destruct (split_at_markers_unique text preamble blocks Hspec) as [Hhead Hiter].
    split; [exact Hhead | symmetry; exact Hiter].
Qed.

(** ** The loop of [main] *)

Lemma fold_left_omap {A B C} (f : B -> option C) (g : A -> C -> A) (l : list B) (a : A) :
  fold_left (fun acc b => match f b with Some c => g acc c | None => acc end) l a
  = fold_left g (omap f l) a.
Proof.
  revert a. induction l as [|b l IH]; intros a; [reflexivity|].
  cbn [fold_left omap list_omap]. destruct (f b) as [c|]; apply IH.
Qed.

Lemma fold_add_hand_hands (hs : list Hand) (agg : t) :
  hands (fold_left add_hand hs agg) = hands agg ++ hs
  /\ hands_count (fold_left add_hand hs agg) = (hands_count agg + Z.of_nat (length hs))%Z
  /\ hero (fold_left add_hand hs agg) = hero agg.
Proof.
  revert agg. induction hs as [|h hs IH]; intros agg.
  - rewrite app_nil_r. simpl. repeat split; lia.
  - cbn [fold_left]. destruct (IH (add_hand agg h)) as (H1 & H2 & H3).
    rewrite H1, H2, H3, add_hand_unfold. cbn [hands hands_count hero].
    rewrite <- app_assoc. cbn [length]. repeat split; lia.
Qed.

Section MainFacts.

Variable py_int : string -> option Z.
Variable py_float : string -> option Q.
Variable re_search_hero : string -> re -> string -> hero_match.

(** X4.  Feeding a text ingests, in order, exactly the hands of its blocks
    that parse; a block that does not parse leaves the aggregator as it was.
    So the hand list grows by the parsed hands and the hand count by their
    number, and a fresh aggregator fed one text is the aggregator of those
    hands. *)
Theorem feed_text_ingests_parsed (hero_name : string) (agg : t) (text : string) :
  let parsed :=
    omap (fun b => parse_hand py_int py_float re_search_hero b hero_name)
         (iter_hand_texts text) in
  let agg' := feed_text py_int py_float re_search_hero hero_name agg text in
  agg' = fold_left add_hand parsed agg
  /\ hands agg' = hands agg ++ parsed
  /\ hands_count agg' = (hands_count agg + Z.of_nat (length parsed))%Z
  /\ feed_text py_int py_float re_search_hero hero_name (new hero_name) text
     = ingest hero_name parsed.
Proof.
  cbv zeta. unfold feed_text, ingest.
  rewrite !(fold_left_omap
              (fun b => parse_hand py_int py_float re_search_hero b hero_name) add_hand).
  destruct (fold_add_hand_hands
              (omap (fun b => parse_hand py_int py_float re_search_hero b hero_name)
                    (iter_hand_texts text)) agg) as (H1 & H2 & _).
  auto.
Qed.

End MainFacts.

(** ** More about one call of [add_hand] *)

Lemma street_actions_has (s : Street) (hand : Hand) :
  has_action_on s hand <-> street_actions s hand <> [].
Proof.
  split.
  - intros Hhas Hnil. apply street_actions_nil in Hnil. contradiction.
  - intros Hne. destruct (street_actions s hand) as [|a l] eqn:Hs; [contradiction|].
    exists a. assert (a ∈ street_actions s hand) as Hin by (rewrite Hs; left).
    apply list_elem_of_filter in Hin as [Ha Hin]. auto.
Qed.

Lemma cbet_opportunity_spec (hero_name : string) (s : Street) (hand : Hand) :
  cbet_opportunity (did_pfr hero_name hand) (street_actions s hand) = true
  <-> hero_was_pfr hero_name hand /\ has_action_on s hand.
Proof.
  unfold cbet_opportunity. rewrite andb_true_iff, did_pfr_spec, street_actions_has.
  destruct (street_actions s hand) as [|a l]; split; intros [Hp H]; split;
    try assumption; try discriminate; try reflexivity. contradiction.
Qed.

Lemma cbet_hit_spec (hero_name : string) (s : Street) (hand : Hand) :
  cbet_hit hero_name (did_pfr hero_name hand) (street_actions s hand) = true
  <-> hero_was_pfr hero_name hand /\ hero_acts_first_on s hero_name hand.
Proof.
  unfold cbet_hit, hero_acts_first_on.
  rewrite andb_true_iff, did_pfr_spec, <- head_street_actions.
  destruct (street_actions s hand) as [|a l]; cbn [head fmap option_fmap option_map].
  - split; intros [Hp H]; discriminate.
  - rewrite bool_decide_eq_true. split; intros [Hp H]; split; congruence.
Qed.

(** A counter that goes up by one under a condition. *)
Lemma incr_cases (b : bool) (P : Prop) (x y : Z) :
  (b = true <-> P) ->
  y = (x + (if b then 1 else 0))%Z ->
  (P -> y = (x + 1)%Z) /\ (~ P -> y = x).
Proof.
  intros Hb ->. destruct b.
  - split; [reflexivity|]. intros Hn. exfalso. apply Hn, Hb. reflexivity.
  - split; [|intros _; lia]. intros HP. apply Hb in HP. discriminate.
Qed.

Ltac key_simpl :=
  repeat match goal with
         | |- context [bool_decide (?a = ?b)] =>
             first [ rewrite (bool_decide_eq_true_2 (a = b)) by reflexivity
                   | rewrite (bool_decide_eq_false_2 (a = b)) by discriminate ]
         end;
  rewrite ?andb_true_r, ?andb_false_r; cbn [andb]; cbv beta iota.

(** The counters of hero's position after [add_hand]. *)
Lemma counter_add_hand_hero (self : t) (hand : Hand) :
  let pos := hero_pos (hero self) hand in
  let dp := did_pfr (hero self) hand in
  let after key := counter pos key (pos_stats (add_hand self hand)) in
  let before key := counter pos key (pos_stats self) in
  after "hands" = (before "hands" + 1)%Z
  /\ after "vpip" = (before "vpip" + (if did_vpip (hero self) hand then 1 else 0))%Z
  /\ after "pfr" = (before "pfr" + (if dp then 1 else 0))%Z
  /\ after "cbet_flop"
     = (before "cbet_flop"
        + (if cbet_hit (hero self) dp (street_actions flop hand) then 1 else 0))%Z
  /\ after "cbet_turn"
     = (before "cbet_turn"
        + (if cbet_hit (hero self) dp (street_actions turn hand) then 1 else 0))%Z.
Proof.
  cbv beta zeta. rewrite !counter_add_hand. cbv zeta. key_simpl.
  repeat split; lia.
Qed.

(** X5.  The turn c-bet counters follow the rule of the flop ones: the
    opportunity counter goes up by one exactly when hero was the preflop raiser
    and the hand has a turn action, the hit counter and the positional hit
    counter of hero's position exactly when moreover the first turn action is
    hero's. *)
Theorem turn_cbet_counters (self : t) (hand : Hand) :
  let self' := add_hand self hand in
  let pos := hero_pos (hero self) hand in
  let opportunity := hero_was_pfr (hero self) hand /\ has_action_on turn hand in
  let hit := hero_was_pfr (hero self) hand /\ hero_acts_first_on turn (hero self) hand in
  (opportunity -> cbet_turn_opportunities self' = (cbet_turn_opportunities self + 1)%Z)
  /\ (~ opportunity -> cbet_turn_opportunities self' = cbet_turn_opportunities self)
  /\ (hit -> opportunity
             /\ cbet_turn self' = (cbet_turn self + 1)%Z
             /\ counter pos "cbet_turn" (pos_stats self')
                = (counter pos "cbet_turn" (pos_stats self) + 1)%Z)
  /\ (~ hit -> cbet_turn self' = cbet_turn self
               /\ counter pos "cbet_turn" (pos_stats self')
                  = counter pos "cbet_turn" (pos_stats self)).
Proof.
  cbv zeta.
  destruct (counter_add_hand_hero self hand) as (_ & _ & _ & _ & Hpos).
  pose proof (cbet_opportunity_spec (hero self) turn hand) as Hopp.
  pose proof (cbet_hit_spec (hero self) turn hand) as Hhit.
  pose proof (cbet_hit_opportunity (hero self) (did_pfr (hero self) hand)
                (street_actions turn hand)) as Hho.
  assert (cbet_turn_opportunities (add_hand self hand)
          = (cbet_turn_opportunities self
             + (if cbet_opportunity (did_pfr (hero self) hand) (street_actions turn hand)
                then 1 else 0))%Z
          /\ cbet_turn (add_hand self hand)
             = (cbet_turn self
                + (if cbet_hit (hero self) (did_pfr (hero self) hand)
                        (street_actions turn hand) then 1 else 0))%Z) as [Ho Hh].
  { rewrite add_hand_unfold. cbn [cbet_turn cbet_turn_opportunities].
    rewrite cbet_update_fst. split; reflexivity. }
  destruct (incr_cases _ _ _ _ Hopp Ho) as [Ho1 Ho0].
  destruct (incr_cases _ _ _ _ Hhit Hh) as [Hh1 Hh0].
  destruct (incr_cases _ _ _ _ Hhit Hpos) as [Hp1 Hp0].
  split; [exact Ho1|]. split; [exact Ho0|]. split.
  - intros H. split; [|split; auto]. apply Hopp, Hho, Hhit, H.
  - intros H. split; auto.
Qed.

(** X6.  VPIP and PFR: the global counter and the counter of hero's position go
    up by one exactly when hero has a preflop call, raise, bet or all-in (VPIP),
    or a preflop raise, bet or all-in (PFR); a hand that counts for PFR counts
    for VPIP. *)
Theorem vpip_pfr_counters (self : t) (hand : Hand) :
  let self' := add_hand self hand in
  let pos := hero_pos (hero self) hand in
  let was_vpip := hero_was_vpip (hero self) hand in
  let was_pfr := hero_was_pfr (hero self) hand in
  (was_vpip -> vpip self' = (vpip self + 1)%Z
               /\ counter pos "vpip" (pos_stats self')
                  = (counter pos "vpip" (pos_stats self) + 1)%Z)
  /\ (~ was_vpip -> vpip self' = vpip self
                    /\ counter pos "vpip" (pos_stats self') = counter pos "vpip" (pos_stats self))
  /\ (was_pfr -> pfr self' = (pfr self + 1)%Z
              /\ counter pos "pfr" (pos_stats self')
                 = (counter pos "pfr" (pos_stats self) + 1)%Z)
  /\ (~ was_pfr -> pfr self' = pfr self
                   /\ counter pos "pfr" (pos_stats self') = counter pos "pfr" (pos_stats self))
  /\ (was_pfr -> was_vpip).
Proof.
  cbv zeta.
  destruct (counter_add_hand_hero self hand) as (_ & Hpv & Hpp & _ & _).
  pose proof (did_vpip_spec (hero self) hand) as Hv.
  pose proof (did_pfr_spec (hero self) hand) as Hp.
  assert (vpip (add_hand self hand)
          = (vpip self + (if did_vpip (hero self) hand then 1 else 0))%Z
          /\ pfr (add_hand self hand)
             = (pfr self + (if did_pfr (hero self) hand then 1 else 0))%Z) as [Hgv Hgp].
  { rewrite add_hand_unfold. cbn [vpip pfr].
    destruct (did_vpip (hero self) hand), (did_pfr (hero self) hand); split; lia. }
  destruct (incr_cases _ _ _ _ Hv Hgv) as [Hv1 Hv0].
  destruct (incr_cases _ _ _ _ Hv Hpv) as [Hpv1 Hpv0].
  destruct (incr_cases _ _ _ _ Hp Hgp) as [Hp1 Hp0].
  destruct (incr_cases _ _ _ _ Hp Hpp) as [Hpp1 Hpp0].
  repeat split; auto.
  intros H. apply Hv, did_pfr_vpip, Hp, H.
Qed.

(** X7.  Flop seen and showdown: the saw-flop counter goes up by one exactly
    when the hand has a flop action; the showdown counter exactly when the
    board has five cards; the showdowns-won counter exactly when moreover
    hero's result is positive. *)
Theorem showdown_counters (self : t) (hand : Hand) :
  let self' := add_hand self hand in
  let showdown := length (board hand) = 5%nat in
  (has_action_on flop hand -> saw_flop self' = (saw_flop self + 1)%Z)
  /\ (~ has_action_on flop hand -> saw_flop self' = saw_flop self)
  /\ (showdown -> wtsd self' = (wtsd self + 1)%Z)
  /\ (~ showdown -> wtsd self' = wtsd self)
  /\ (showdown /\ (0 < hero_result hand)%Q -> wsd_wins self' = (wsd_wins self + 1)%Z)
  /\ (~ (showdown /\ (0 < hero_result hand)%Q) -> wsd_wins self' = wsd_wins self).
Proof.
  cbv zeta. rewrite add_hand_unfold. cbn [saw_flop wtsd wsd_wins].
  pose proof (street_actions_has flop hand) as Hflop.
  assert (negb (Qle_bool (hero_result hand) 0) = true <-> (0 < hero_result hand)%Q) as Hres.
  { rewrite negb_true_iff. split.
    - intros Hle. apply Qnot_le_lt. intros H. apply Qle_bool_iff in H. congruence.
    - intros Hlt. destruct (Qle_bool (hero_result hand) 0) eqn:E; [|reflexivity].
      apply Qle_bool_iff in E. exfalso. exact (Qlt_not_le _ _ Hlt E). }
  split; [|split].
  - intros Hhas. apply Hflop in Hhas. destruct (street_actions flop hand); [contradiction|].
    reflexivity.
  - intros Hno. destruct (street_actions flop hand) as [|a l] eqn:E; [reflexivity|].
    exfalso. apply Hno, Hflop. discriminate.
  - case_bool_decide as Hsd; cbn [andb].
    + split; [reflexivity|]. split; [tauto|].
      destruct (negb (Qle_bool (hero_result hand) 0)).
      * split; [reflexivity|]. intros Hn. exfalso. apply Hn. split; [exact Hsd|].
        apply Hres. reflexivity.
      * split; [|reflexivity]. intros [_ Hpos]. apply Hres in Hpos. discriminate.
    + split; [tauto|]. split; [reflexivity|]. split; [tauto | reflexivity].
Qed.

Lemma opt_bump_other (b : bool) (pos key pos' : string) (ps : gmap string (gmap string Z)) :
  pos <> pos' -> opt_bump b pos key ps !! pos' = ps !! pos'.
Proof.
  intros Hne. unfold opt_bump. destruct b; [|reflexivity].
  rewrite bump_lookup. destruct (decide (pos = pos')); [contradiction | reflexivity].
Qed.

(** X8.  [add_hand] works on the counters of one position only, the one hero
    is resolved to: there the hand counter goes up by one, and the counters of
    every other position are left as they are. *)
Theorem add_hand_other_positions (self : t) (hand : Hand) (pos' : string) :
  let pos := hero_pos (hero self) hand in
  counter pos "hands" (pos_stats (add_hand self hand))
  = (counter pos "hands" (pos_stats self) + 1)%Z
  /\ (pos' <> pos -> pos_stats (add_hand self hand) !! pos' = pos_stats self !! pos').
Proof.
  cbv zeta. split; [apply (counter_add_hand_hero self hand)|].
  intros Hne. rewrite pos_stats_add_hand. cbv zeta.
  rewrite !opt_bump_other by congruence.
  rewrite bump_lookup. destruct (decide (hero_pos (hero self) hand = pos')); congruence.
Qed.

(** ** More about the counters after any number of hands *)

Lemma cbet_opportunity_pfr (dp : bool) (acts : list Action) :
  cbet_opportunity dp acts = true -> dp = true.
Proof. unfold cbet_opportunity. destruct dp; [reflexivity | discriminate]. Qed.

(** X9.  Opportunity gating, whatever hands were fed: c-bet hits never exceed
    c-bet opportunities, which never exceed the hands hero raised before the
    flop, which never exceed the hands hero put money in, which never exceed
    the hands; showdowns won never exceed showdowns; and neither showdowns nor
    flops seen exceed the hands. *)
Theorem opportunity_gating (hero_name : string) (hs : list Hand) :
  let st := ingest hero_name hs in
  (0 <= cbet_flop st <= cbet_flop_opportunities st)%Z
  /\ (0 <= cbet_turn st <= cbet_turn_opportunities st)%Z
  /\ (cbet_flop_opportunities st <= pfr st)%Z
  /\ (cbet_turn_opportunities st <= pfr st)%Z
  /\ (pfr st <= vpip st <= hands_count st)%Z
  /\ (0 <= wsd_wins st <= wtsd st)%Z
  /\ (wtsd st <= hands_count st)%Z
  /\ (0 <= saw_flop st <= hands_count st)%Z.
Proof.
  cbv zeta.
  destruct (counters_ok_ingest hero_name hs) as [_ _ Hpfr Hvpip Hcf Hct Hwsd Hsaw _ _ _].
  assert ((cbet_flop_opportunities (ingest hero_name hs) <= pfr (ingest hero_name hs))%Z
          /\ (cbet_turn_opportunities (ingest hero_name hs) <= pfr (ingest hero_name hs))%Z
          /\ (wtsd (ingest hero_name hs) <= hands_count (ingest hero_name hs))%Z
          /\ (saw_flop (ingest hero_name hs) <= hands_count (ingest hero_name hs))%Z)
    as (H1 & H2 & H3 & H4).
  { clear. induction hs as [|h hs IH] using rev_ind; [simpl; lia|].
    rewrite ingest_snoc. set (st := ingest hero_name hs) in *.
    rewrite add_hand_unfold.
    cbn [cbet_flop_opportunities cbet_turn_opportunities pfr wtsd hands_count saw_flop].
    rewrite !cbet_update_fst. cbn [fst].
    pose proof (cbet_opportunity_pfr (did_pfr (hero st) h) (street_actions flop h)) as Hf.
    pose proof (cbet_opportunity_pfr (did_pfr (hero st) h) (street_actions turn h)) as Ht.
    destruct (did_pfr (hero st) h);
      destruct (cbet_opportunity _ (street_actions flop h));
      destruct (cbet_opportunity _ (street_actions turn h));
      try (specialize (Hf eq_refl); discriminate);
      try (specialize (Ht eq_refl); discriminate);
      destruct (bool_decide (length (board h) = 5%nat));
      destruct (street_actions flop h); lia. }
  repeat split; lia.
Qed.

(** X10.  Bookkeeping, whatever hands were fed: the aggregator keeps its hero,
    its hand list is the hands in the order they came, its hand count their
    number and its cumulative result the sum of their results; and the 3-bet
    and fold-to-3-bet counters and their opportunity counters are never
    written, so they stay 0. *)
Theorem ingest_bookkeeping (hero_name : string) (hs : list Hand) :
  let st := ingest hero_name hs in
  hero st = hero_name
  /\ hands st = hs
  /\ hands_count st = Z.of_nat (length hs)
  /\ (total_won_chips st == total_result hs)%Q
  /\ threebet st = 0%Z /\ threebet_opportunities st = 0%Z
  /\ fold_to_3bet st = 0%Z /\ vs_3bet_opportunities st = 0%Z.
Proof.
  cbv zeta.
  destruct (counters_ok_ingest hero_name hs) as [Hcount Htotal _ _ _ _ _ _ _ _ _].
  rewrite ingest_hands in Hcount, Htotal.
  split; [apply ingest_hero|]. split; [apply ingest_hands|].
  split; [exact Hcount|]. split; [exact Htotal|]. clear Hcount Htotal.
  induction hs as [|h hs IH] using rev_ind; [repeat split; reflexivity|].
  rewrite ingest_snoc, add_hand_unfold.
  cbn [threebet threebet_opportunities fold_to_3bet vs_3bet_opportunities]. exact IH.
Qed.

(** A bump adds one to the total of its key and nothing to the others. *)
Lemma pos_total_bump (pos key key' : string) (ps : gmap string (gmap string Z)) :
  pos_total key' (bump pos key ps)
  = (pos_total key' ps + (if bool_decide (key = key') then 1 else 0))%Z.
Proof.
  unfold pos_total, bump.
  set (f := fun (_ : string) (cnt : gmap string Z) (acc : Z) => (get key' 0 cnt + acc)%Z).
  assert (forall (m : gmap string (gmap string Z)) j1 j2 z1 z2 y,
            j1 <> j2 -> m !! j1 = Some z1 -> m !! j2 = Some z2 ->
            f j1 z1 (f j2 z2 y) = f j2 z2 (f j1 z1 y)) as Hcomm.
  { intros. unfold f. lia. }
  rewrite <- insert_delete_eq.
  rewrite (map_fold_insert_L f 0%Z pos _ (delete pos ps));
    [|intros; unfold f; lia | apply lookup_delete_eq].
  assert (map_fold f 0%Z ps
          = (get key' 0 (default ∅ (ps !! pos)) + map_fold f 0%Z (delete pos ps))%Z) as ->.
  { destruct (ps !! pos) as [cnt|] eqn:E.
    - rewrite (map_fold_delete_L f 0%Z pos cnt ps);
        [reflexivity | intros; unfold f; lia | exact E].
    - rewrite delete_id by exact E. unfold get. simpl. rewrite lookup_empty. simpl. lia. }
  unfold f at 1. unfold get at 1.
  case_bool_decide as Hk.
  - subst key'. rewrite lookup_insert_eq. simpl. unfold get. lia.
  - rewrite lookup_insert_ne by exact Hk. unfold get. lia.
Qed.

Lemma pos_total_opt_bump (b : bool) (pos key key' : string)
  (ps : gmap string (gmap string Z)) :
  pos_total key' (opt_bump b pos key ps)
  = (pos_total key' ps + (if b && bool_decide (key = key') then 1 else 0))%Z.
Proof.
  unfold opt_bump. destruct b; [apply pos_total_bump | simpl; lia].
Qed.

(** X11.  Every counter that is kept per position adds up, over the
    positions, to the global counter of the same name: hands, vpip, pfr, flop
    c-bets and turn c-bets. *)
Theorem positional_counters_add_up (hero_name : string) (hs : list Hand) :
  let st := ingest hero_name hs in
  pos_total "hands" (pos_stats st) = hands_count st
  /\ pos_total "vpip" (pos_stats st) = vpip st
  /\ pos_total "pfr" (pos_stats st) = pfr st
  /\ pos_total "cbet_flop" (pos_stats st) = cbet_flop st
  /\ pos_total "cbet_turn" (pos_stats st) = cbet_turn st.
Proof.
  cbv zeta. induction hs as [|h hs IH] using rev_ind.
  - repeat split; reflexivity.
  - rewrite ingest_snoc. set (st := ingest hero_name hs) in *.
    destruct IH as (IH1 & IH2 & IH3 & IH4 & IH5).
    rewrite pos_stats_add_hand. cbv zeta.
    change (bump (hero_pos (hero st) h) "hands" (pos_stats st))
      with (opt_bump true (hero_pos (hero st) h) "hands" (pos_stats st)).
    rewrite !pos_total_opt_bump. key_simpl.
    rewrite IH1, IH2, IH3, IH4, IH5.
    rewrite add_hand_unfold. cbn [hands_count vpip pfr cbet_flop cbet_turn].
    rewrite !cbet_update_fst. cbn [fst snd].
    destruct (did_vpip (hero st) h), (did_pfr (hero st) h); repeat split; lia.
Qed.

(** ** More about [compute] *)

(** X12.  [compute] raises in one case only, whatever the state of the
    aggregator: it has hands and the mean of their big blinds is zero; the
    exception is then the division's.  In every other state it returns. *)
Theorem compute_raises_iff (self : t) :
  (compute self = Raise ZeroDivisionError
   <-> hands self <> [] /\ (mean_big_blind (hands self) == 0)%Q)
  /\ (forall e, compute self = Raise e -> e = ZeroDivisionError)
  /\ ((exists s, compute self = Ret s)
      <-> hands self = [] \/ ~ (mean_big_blind (hands self) == 0)%Q).
Proof.
  destruct (hands self) as [|h hs] eqn:Hh.
  - assert (avg_bb self = Ret 1%Q) as Havg by (unfold avg_bb; rewrite Hh; reflexivity).
    destruct (compute_cases self 1%Q Havg) as [[Hz _]|[_ Hc]]; [discriminate Hz|].
    rewrite Hc. split; [|split].
    + split; [discriminate | intros [H _]; contradiction].
    + discriminate.
    + split; [auto | eauto].
  - destruct (avg_bb_mean self) as (avg & Havg & Hmean); [congruence|].
    rewrite Hh in Hmean.
    destruct (compute_cases self avg Havg) as [[Hz Hc]|[Hnz Hc]]; rewrite Hc.
    + rewrite Hmean in Hz. split; [|split].
      * split; [intros _; split; [discriminate | exact Hz] | reflexivity].
      * intros e [= <-]. reflexivity.
      * split; [intros [s Hs]; discriminate|]. intros [H|H]; [discriminate | contradiction].
    + rewrite Hmean in Hnz. split; [|split].
      * split; [discriminate | intros [_ Hz]; contradiction].
      * discriminate.
      * split; [auto | eauto].
Qed.

Lemma compute_percentages_bounded_witness :
  let s := stats_with (ingest "Hero" [scenario_hand; folded_hand]) 1 in
  (0 <= Stats.vpip_pct s /\ Stats.vpip_pct s <= 100)%Q
  /\ (0 <= Stats.pfr_pct s /\ Stats.pfr_pct s <= 100)%Q
  /\ (-100 <= Stats.vpip_pfr_gap s /\ Stats.vpip_pfr_gap s <= 100)%Q
  /\ (0 <= Stats.cbet_flop_pct s /\ Stats.cbet_flop_pct s <= 100)%Q
  /\ (0 <= Stats.cbet_turn_pct s /\ Stats.cbet_turn_pct s <= 100)%Q
  /\ (0 <= Stats.wsd_pct s /\ Stats.wsd_pct s <= 100)%Q
  /\ (0 <= Stats.wtsd_pct s)%Q.
Proof.
  apply (compute_percentages_bounded "Hero" [scenario_hand; folded_hand]).
  vm_compute. reflexivity.
Defined.

(** Rounding is monotone. *)
Lemma round_half_even_mono (x y : Q) :
  (x <= y)%Q -> (round_half_even x <= round_half_even y)%Z.
Proof.
  intros Hxy. pose proof (Qfloor_resp_le x y Hxy) as Hf.
  destruct (Z.eq_dec (Qfloor x) (Qfloor y)) as [Heq|Hne].
  - unfold round_half_even. rewrite <- Heq.
    destruct (Qcompare_spec (x - inject_Z (Qfloor x)) (1 # 2)) as [Hx|Hx|Hx];
      destruct (Qcompare_spec (y - inject_Z (Qfloor x)) (1 # 2)) as [Hy|Hy|Hy];
      try lia; try (exfalso; lra); destruct (Z.even (Qfloor x)); lia.
  - assert (round_half_even x <= Qfloor x + 1)%Z
      by (destruct (round_half_even_cases x) as [->|[-> _]]; lia).
    assert (Qfloor y <= round_half_even y)%Z
      by (destruct (round_half_even_cases y) as [->|[-> _]]; lia).
    lia.
Qed.

Lemma round2_mono (x y : Q) : (x <= y)%Q -> (round2 x <= round2 y)%Q.
Proof.
  intros Hxy. unfold round2.
  assert (round_half_even (x * 100) <= round_half_even (y * 100))%Z as H
    by (apply round_half_even_mono; lra).
  rewrite Zle_Qle in H.
  unfold Qdiv. apply Qmult_le_compat_r; [exact H|].
  unfold Qle; simpl; lia.
Qed.

Lemma ratio_mono (a b n : Z) :
  (a <= b)%Z -> (0 < n)%Z ->
  (inject_Z a / inject_Z n * 100 <= inject_Z b / inject_Z n * 100)%Q.
Proof.
  intros Hab Hn.
  assert (0 < inject_Z n)%Q as Hn' by (unfold Qlt; simpl; lia).
  assert (inject_Z a <= inject_Z b)%Q as Hab' by (rewrite <- Zle_Qle; exact Hab).
  assert (inject_Z a / inject_Z n <= inject_Z b / inject_Z n)%Q as H.
  { unfold Qdiv. apply Qmult_le_compat_r; [exact Hab'|].
    apply Qlt_le_weak, Qinv_lt_0_compat, Hn'. }
  lra.
Qed.

(** X13.  Whatever hands were fed, the PFR percentage that [compute] returns
    is never above the VPIP percentage, and the gap between them is never
    negative. *)
Theorem vpip_pfr_gap_nonnegative (hero_name : string) (hs : list Hand) (s : Stats.t) :
  compute (ingest hero_name hs) = Ret s ->
  (Stats.pfr_pct s <= Stats.vpip_pct s)%Q /\ (0 <= Stats.vpip_pfr_gap s)%Q.
Proof.
  intros Hs.
  destruct (counters_ok_ingest hero_name hs) as [Hcount _ Hpfr Hvpip _ _ _ _ _ _ _].
  set (st := ingest hero_name hs) in *.
  destruct (avg_bb_Ret st) as [avg Havg].
  destruct (compute_cases st avg Havg) as [[_ Hc]|[_ Hc]]; [congruence|].
  assert (s = stats_with st avg) as -> by congruence. clear Hs Hc.
  destruct (or1_pos (hands_count st)) as [Ht _]; [lia|].
  unfold stats_with. cbn [Stats.pfr_pct Stats.vpip_pct Stats.vpip_pfr_gap].
  assert (round2 (inject_Z (pfr st) / inject_Z (or1 (hands_count st)) * 100)
          <= round2 (inject_Z (vpip st) / inject_Z (or1 (hands_count st)) * 100))%Q as Hle.
  { apply round2_mono, ratio_mono; [lia | exact Ht]. }
  split; [exact Hle|].
  apply (round2_lower 0). change (inject_Z 0) with 0%Q. lra.
Qed.

Lemma vpip_pfr_gap_nonnegative_witness :
  let s := stats_with (ingest "Hero" [scenario_hand; folded_hand]) 1 in
  (Stats.pfr_pct s <= Stats.vpip_pct s)%Q /\ (0 <= Stats.vpip_pfr_gap s)%Q.
Proof.
  apply (vpip_pfr_gap_nonnegative "Hero" [scenario_hand; folded_hand]).
  vm_compute. reflexivity.
Defined.

(** ** More about the positions *)

Lemma assign_from_in (n : string) (sp : list Player) :
  forall start m,
    n ∈ map name sp -> is_Some (assign_from start sp m !! n).
Proof.
  induction sp as [|p sp IH]; intros start m Hn; [inversion Hn|].
  rewrite assign_from_cons.
  destruct (decide (n ∈ map name sp)) as [Hin|Hout]; [apply IH, Hin|].
  rewrite assign_from_other.
  - simpl in Hn. apply elem_of_cons in Hn as [->|Hn]; [|contradiction].
    rewrite lookup_insert_eq. eauto.
  - intros q Hq <-. apply Hout, list_elem_of_fmap. eauto.
Qed.

Lemma determine_positions_is_Some (h : Hand) (n : string) :
  is_Some (determine_positions h !! n) <-> n ∈ map name (players h).
Proof.
  split.
  - intros Hs. destruct (decide (n ∈ map name (players h))) as [Hin|Hout]; [exact Hin|].
    rewrite determine_positions_absent in Hs by exact Hout. destruct Hs; discriminate.
  - intros Hn. rewrite determine_positions_assign. apply assign_from_in.
    apply list_elem_of_fmap in Hn as (p & -> & Hp). apply list_elem_of_fmap.
    exists p. split; [reflexivity|]. rewrite sorted_by_seat_perm. exact Hp.
Qed.

Lemma unknown_not_position : "UNKNOWN" ∉ positions.
Proof.
  unfold positions. intros H.
  repeat (apply elem_of_cons in H as [H|H]; [discriminate|]). inversion H.
Qed.

(** X14.  The resolver gives a label to the names of the hand's players and to
    no other name; the label is one of the six, so never UNKNOWN; and the key
    under which [add_hand] counts the hand is UNKNOWN exactly when hero's name
    is not among the players. *)
Theorem determine_positions_domain (h : Hand) (n : string) :
  (is_Some (determine_positions h !! n) <-> n ∈ map name (players h))
  /\ (forall v, determine_positions h !! n = Some v -> v ∈ positions /\ v <> "UNKNOWN")
  /\ (hero_pos n h = "UNKNOWN" <-> n ∉ map name (players h))
  /\ (hero_pos n h ∈ positions <-> n ∈ map name (players h)).
Proof.
  pose proof (determine_positions_is_Some h n) as Hdom.
  assert (forall v, determine_positions h !! n = Some v -> v ∈ positions /\ v <> "UNKNOWN")
    as Hval.
  { intros v Hv. apply determine_positions_values in Hv. split; [exact Hv|].
    intros ->. exact (unknown_not_position Hv). }
  split; [exact Hdom|]. split; [exact Hval|].
  unfold hero_pos. destruct (determine_positions h !! n) as [v|] eqn:E; simpl.
  - destruct (Hval v eq_refl) as [Hin Hne].
    assert (n ∈ map name (players h)) as Hn by (apply Hdom; eauto).
    split; split; intros; first [tauto | assumption].
  - assert (n ∉ map name (players h)) as Hn.
    { intros Hn. apply Hdom in Hn as [v Hv]. discriminate. }
    split; split; intros H; first [tauto | exfalso; exact (unknown_not_position H)].
Qed.

(** A list sorted by seat is determined by its elements when no seat number
    occurs twice. *)
Lemma sorted_by_seat_unique (l1 : list Player) :
  forall l2,
    StronglySorted seat_le l1 -> StronglySorted seat_le l2 ->
    l1 ≡ₚ l2 ->
    (forall p q, p ∈ l1 -> q ∈ l1 -> seat p = seat q -> p = q) ->
    l1 = l2.
Proof.
  induction l1 as [|x l1 IH]; intros l2 Hs1 Hs2 Hperm Hinj.
  - symmetry. apply Permutation_nil. exact Hperm.
  - destruct l2 as [|y l2].
    { symmetry in Hperm. apply Permutation_nil in Hperm. discriminate. }
    apply StronglySorted_inv in Hs1 as [Hs1 Hx].
    apply StronglySorted_inv in Hs2 as [Hs2 Hy].
    rewrite Forall_forall in Hx, Hy.
    assert (x = y) as <-.
    { assert (x ∈ y :: l2) as Hxin by (rewrite <- Hperm; left).
      assert (y ∈ x :: l1) as Hyin by (rewrite Hperm; left).
      apply elem_of_cons in Hxin as [Hxy|Hxin]; [exact Hxy|].
      apply elem_of_cons in Hyin as [Hyx|Hyin]; [symmetry; exact Hyx|].
      apply Hinj; [left | right; exact Hyin |].
      pose proof (Hx y Hyin) as H1. pose proof (Hy x Hxin) as H2.
      unfold seat_le in H1, H2. lia. }
    f_equal. apply IH; [exact Hs1 | exact Hs2 | |].
    + apply (Permutation_cons_inv Hperm).
    + intros p q Hp Hq. apply Hinj; right; assumption.
Qed.

Lemma seat_injective (l : list Player) :
  NoDup (map seat l) ->
  forall p q, p ∈ l -> q ∈ l -> seat p = seat q -> p = q.
Proof.
  induction l as [|x l IH]; intros Hnd p q Hp Hq Hseat; [inversion Hp|].
  simpl in Hnd. apply NoDup_cons in Hnd as [Hx Hnd].
  apply elem_of_cons in Hp as [->|Hp]; apply elem_of_cons in Hq as [->|Hq].
  - reflexivity.
  - exfalso. apply Hx. rewrite Hseat. apply list_elem_of_fmap. eauto.
  - exfalso. apply Hx. rewrite <- Hseat. apply list_elem_of_fmap. eauto.
  - apply IH; assumption.
Qed.

(** X15.  The labels do not depend on the order in which the seat lines of a
    hand come, as long as no seat number occurs twice. *)
Theorem determine_positions_order_irrelevant (h h' : Hand) :
  players h ≡ₚ players h' ->
  NoDup (map seat (players h)) ->
  determine_positions h = determine_positions h'.
Proof.
  intros Hperm Hnd.
  rewrite !determine_positions_assign. f_equal.
  apply sorted_by_seat_unique.
  - apply sorted_by_seat_sorted.
  - apply sorted_by_seat_sorted.
  - rewrite !sorted_by_seat_perm. exact Hperm.
  - intros p q Hp Hq. rewrite sorted_by_seat_perm in Hp, Hq.
    apply (seat_injective (players h)); assumption.
Qed.

Lemma determine_positions_order_irrelevant_witness :
  determine_positions scenario_hand
  = determine_positions (with_players scenario_hand (rev (players scenario_hand))).
Proof.
  apply determine_positions_order_irrelevant.
  - simpl. apply Permutation_rev.
  - simpl. repeat (apply NoDup_cons; split; [intros H;
      repeat (apply elem_of_cons in H as [H|H]; [discriminate|]); inversion H|]).
    apply NoDup_nil. exact I.
Defined.

(** ** More about [compute_positional] *)

Lemma hero_pos_known (hero_name : string) (h : Hand) (pos : string) :
  pos <> "UNKNOWN" ->
  (determine_positions h !! hero_name = Some pos <-> hero_pos hero_name h = pos).
Proof.
  intros Hpos. unfold hero_pos.
  destruct (determine_positions h !! hero_name) as [v|]; simpl.
  - split; [intros [= ->]; reflexivity | intros ->; reflexivity].
  - split; [discriminate | intros <-; contradiction].
Qed.

Lemma counter_ingest_hands (hero_name : string) (hs : list Hand) (pos : string) :
  counter pos "hands" (pos_stats (ingest hero_name hs))
  = Z.of_nat (length (filter (fun h => hero_pos hero_name h = pos) hs)).
Proof.
  induction hs as [|h hs IH] using rev_ind.
  - unfold counter. simpl. rewrite lookup_empty. reflexivity.
  - rewrite ingest_snoc, counter_add_hand, IH, ingest_hero. cbv zeta.
    rewrite filter_app, length_app, filter_cons, filter_nil.
    destruct (decide (hero_pos hero_name h = pos)) as [Hp|Hp].
    + rewrite (bool_decide_eq_true_2 _ Hp). key_simpl. simpl. lia.
    + rewrite (bool_decide_eq_false_2 _ Hp). simpl. lia.
Qed.

Lemma pos_stats_ingest_is_Some (hero_name : string) (hs : list Hand) (pos : string) :
  is_Some (pos_stats (ingest hero_name hs) !! pos)
  <-> exists h, h ∈ hs /\ hero_pos hero_name h = pos.
Proof.
  induction hs as [|h hs IH] using rev_ind.
  - simpl. rewrite lookup_empty. split.
    + intros [x Hx]. discriminate.
    + intros (h & Hh & _). inversion Hh.
  - rewrite ingest_snoc, pos_stats_add_hand_is_Some, IH, ingest_hero. split.
    + intros [Hp|(x & Hx & Hp)].
      * exists h. split; [apply elem_of_app; right; left | exact Hp].
      * exists x. split; [apply elem_of_app; left; exact Hx | exact Hp].
    + intros (x & Hx & Hp). apply elem_of_app in Hx as [Hx|Hx].
      * right. eauto.
      * apply list_elem_of_singleton in Hx as ->. left. exact Hp.
Qed.

(** X16.  Whatever hands were fed, the positional table has a key exactly for
    the positions hero was counted at, and the hand counter under a key is the
    number of hands counted there.  For each of the six labels this is also
    the number of results the positional win rate sums and divides by; under
    UNKNOWN no result is ever found. *)
Theorem positional_hand_counts (hero_name : string) (hs : list Hand) (pos : string) :
  let st := ingest hero_name hs in
  let n := length (filter (fun h => hero_pos hero_name h = pos) hs) in
  counter pos "hands" (pos_stats st) = Z.of_nat n
  /\ (is_Some (pos_stats st !! pos) <-> exists h, h ∈ hs /\ hero_pos hero_name h = pos)
  /\ (pos <> "UNKNOWN" -> length (results_at st pos) = n)
  /\ results_at st "UNKNOWN" = [].
Proof.
  cbv zeta. split; [apply counter_ingest_hands|].
  split; [apply pos_stats_ingest_is_Some|].
  split; [|apply results_at_unknown].
  intros Hpos. unfold results_at. rewrite length_map, ingest_hands, ingest_hero.
  f_equal. apply list_filter_iff. intros h. apply hero_pos_known, Hpos.
Qed.

(** A mapping is returned only when every row was computed. *)
Lemma compute_positional_all_rows (self : t) (out : gmap string PosRow.t) :
  compute_positional self = Ret out ->
  forall pos cnt, pos_stats self !! pos = Some cnt ->
                  exists row, positional_row self pos cnt = Ret row.
Proof.
  unfold compute_positional. revert out.
  apply (map_fold_weak_ind
           (fun r m => forall out, r = Ret out ->
                                   forall pos cnt, m !! pos = Some cnt ->
                                   exists row, positional_row self pos cnt = Ret row)).
  - intros out _ pos cnt Hpos. rewrite lookup_empty in Hpos. discriminate.
  - intros i x m r Hi IH out Hout pos cnt Hpos.
    destruct r as [acc|e]; [|discriminate]. cbn [mbind exc_bind] in Hout.
    destruct (positional_row self i x) as [row|e] eqn:Hrow; [|discriminate].
    destruct (decide (i = pos)) as [<-|Hne].
    + rewrite lookup_insert_eq in Hpos. injection Hpos as <-. eauto.
    + rewrite lookup_insert_ne in Hpos by exact Hne. exact (IH acc eq_refl pos cnt Hpos).
Qed.

(** An exception of [compute_positional] is the exception of one of its rows. *)
Lemma compute_positional_Raise (self : t) (e : exn) :
  compute_positional self = Raise e ->
  exists pos cnt, pos_stats self !! pos = Some cnt /\ positional_row self pos cnt = Raise e.
Proof.
  unfold compute_positional.
  apply (map_fold_weak_ind
           (fun r m => r = Raise e ->
                       exists pos cnt, m !! pos = Some cnt
                                       /\ positional_row self pos cnt = Raise e)).
  - discriminate.
  - intros i x m r Hi IH Hr.
    destruct r as [acc|e0]; cbn [mbind exc_bind] in Hr.
    + destruct (positional_row self i x) as [row|e1] eqn:Hrow;
        cbn [mbind exc_bind] in Hr; [discriminate|].
      injection Hr as ->. exists i, x. split; [apply lookup_insert_eq | exact Hrow].
    + destruct (IH Hr) as (pos & cnt & Hpos & Hrow).
      exists pos, cnt. split; [|exact Hrow].
      rewrite lookup_insert_ne; [exact Hpos|]. intros <-. congruence.
Qed.

Lemma positional_row_Raise (self : t) (pos : string) (cnt : gmap string Z) (e : exn) :
  positional_row self pos cnt = Raise e ->
  e = ZeroDivisionError
  /\ results_at self pos <> []
  /\ (mean_big_blind (hands self) == 0)%Q.
Proof.
  rewrite positional_row_unfold.
  destruct (get "hands" 0 cnt =? 0)%Z; [discriminate|].
  unfold positional_bb100.
  destruct (results_at self pos) as [|r rs] eqn:Hres; [discriminate|].
  assert (hands self <> []) as Hne.
  { intros Hnil. unfold results_at in Hres. rewrite Hnil in Hres. discriminate. }
  destruct (mean_bb_Ret (hands self) Hne) as (avg & -> & Havg). cbn [mbind exc_bind].
  destruct (Qeq_bool avg 0) eqn:Hz.
  - apply Qeq_bool_iff in Hz. rewrite (pydiv_Raise _ avg Hz). cbn [mbind exc_bind].
    intros [= <-]. split; [reflexivity|]. split; [discriminate|].
    rewrite <- Havg. exact Hz.
  - assert (~ (avg == 0)%Q) as Hnz.
    { intros H. apply Qeq_bool_iff in H. congruence. }
    rewrite pydiv_Ret by exact Hnz. cbn [mbind exc_bind].
    rewrite pydiv_Ret by (apply inject_Z_nonzero; simpl; lia). discriminate.
Qed.

Lemma positional_row_zero_blinds (self : t) (pos : string) (cnt : gmap string Z) :
  get "hands" 0 cnt <> 0%Z ->
  results_at self pos <> [] ->
  (mean_big_blind (hands self) == 0)%Q ->
  positional_row self pos cnt = Raise ZeroDivisionError.
Proof.
  intros Hn Hres Hmean. rewrite positional_row_unfold.
  destruct (Z.eqb_spec (get "hands" 0 cnt) 0) as [|_]; [contradiction|].
  unfold positional_bb100.
  destruct (results_at self pos) as [|r rs] eqn:Hr; [contradiction|].
  assert (hands self <> []) as Hne.
  { intros Hnil. unfold results_at in Hr. rewrite Hnil in Hr. discriminate. }
  destruct (mean_bb_Ret (hands self) Hne) as (avg & -> & Havg). cbn [mbind exc_bind].
  rewrite pydiv_Raise by (rewrite Havg; exact Hmean). reflexivity.
Qed.

(** X17.  Whatever hands were fed, [compute_positional] raises in one case
    only: the mean big blind of the hands is zero and hero was seated in one of
    them.  The exception is then the division's. *)
Theorem compute_positional_raises_iff (hero_name : string) (hs : list Hand) :
  let st := ingest hero_name hs in
  (compute_positional st = Raise ZeroDivisionError
   <-> (mean_big_blind hs == 0)%Q
       /\ exists h, h ∈ hs /\ hero_name ∈ map name (players h))
  /\ (forall e, compute_positional st = Raise e -> e = ZeroDivisionError).
Proof.
  cbv zeta. set (st := ingest hero_name hs).
  assert (forall e, compute_positional st = Raise e ->
                    e = ZeroDivisionError
                    /\ (mean_big_blind hs == 0)%Q
                    /\ exists h, h ∈ hs /\ hero_name ∈ map name (players h)) as Hraise.
  { intros e He. apply compute_positional_Raise in He as (pos & cnt & _ & Hrow).
    apply positional_row_Raise in Hrow as (-> & Hres & Hmean).
    unfold st in Hmean. rewrite ingest_hands in Hmean.
    split; [reflexivity|]. split; [exact Hmean|].
    unfold results_at in Hres. unfold st in Hres. rewrite ingest_hands, ingest_hero in Hres.
    destruct (filter _ hs) as [|h l] eqn:Hf; [contradiction|].
    assert (h ∈ filter (fun h => determine_positions h !! hero_name = Some pos) hs) as Hh
      by (rewrite Hf; left).
    apply list_elem_of_filter in Hh as [Hpos Hh].
    exists h. split; [exact Hh|]. apply determine_positions_is_Some. eauto. }
  split; [|intros e He; apply (Hraise e He)].
  split; [intros He; apply (Hraise _ He)|].
  intros (Hmean & h & Hh & Hseated).
  apply determine_positions_is_Some in Hseated as [pos Hpos].
  assert (hero_pos hero_name h = pos) as Hhp by (unfold hero_pos; rewrite Hpos; reflexivity).
  destruct (proj2 (pos_stats_ingest_is_Some hero_name hs pos)) as [cnt Hcnt]; [eauto|].
  assert (positional_row st pos cnt = Raise ZeroDivisionError) as Hrow.
  { apply positional_row_zero_blinds.
    - pose proof (ok_pos_seen _ (counters_ok_ingest hero_name hs) pos (ex_intro _ cnt Hcnt)) as Hn.
      unfold counter in Hn. rewrite Hcnt in Hn. simpl in Hn.
      lia.
    - unfold results_at, st. rewrite ingest_hands, ingest_hero.
      assert (h ∈ filter (fun h => determine_positions h !! hero_name = Some pos) hs) as Hin
        by (apply list_elem_of_filter; split; assumption).
      intros Hnil. apply (f_equal length) in Hnil. rewrite length_map in Hnil. simpl in Hnil.
      apply length_zero_iff_nil in Hnil. rewrite Hnil in Hin. inversion Hin.
    - unfold st. rewrite ingest_hands. exact Hmean. }
  destruct (compute_positional st) as [out|e] eqn:Hc.
  - destruct (compute_positional_all_rows st out Hc pos cnt Hcnt) as [row Hr]. congruence.
  - f_equal. apply (Hraise e eq_refl).
Qed.

(** X18.  A mapping that [compute_positional] returns has a row exactly for
    the positions hero was counted at, UNKNOWN among them; a row gives the
    number of hands counted at its position, which is at least one, and
    percentages between 0 and 100 of which the PFR one is not above the VPIP
    one. *)
Theorem compute_positional_rows (hero_name : string) (hs : list Hand)
  (out : gmap string PosRow.t) (pos : string) :
  compute_positional (ingest hero_name hs) = Ret out ->
  (is_Some (out !! pos) <-> exists h, h ∈ hs /\ hero_pos hero_name h = pos)
  /\ (forall row, out !! pos = Some row ->
        PosRow.hands row
        = Z.of_nat (length (filter (fun h => hero_pos hero_name h = pos) hs))
        /\ (1 <= PosRow.hands row)%Z
        /\ (0 <= PosRow.pfr_pct row)%Q
        /\ (PosRow.pfr_pct row <= PosRow.vpip_pct row)%Q
        /\ (PosRow.vpip_pct row <= 100)%Q).
Proof.
  intros Hout. set (st := ingest hero_name hs) in *.
  pose proof (compute_positional_lookup st out Hout pos) as Hlook.
  pose proof (counters_ok_ingest hero_name hs) as Hok. fold st in Hok.
  destruct (pos_stats st !! pos) as [cnt|] eqn:Hcnt; cbn [mbind option_bind] in Hlook.
  - pose proof (ok_pos_seen _ Hok pos (ex_intro _ cnt Hcnt)) as Hn.
    destruct (ok_pos_order _ Hok pos) as [Hpv Hvh].
    pose proof (counter_ingest_hands hero_name hs pos) as Hcount. fold st in Hcount.
    unfold counter in Hn, Hpv, Hvh, Hcount. rewrite Hcnt in Hn, Hpv, Hvh, Hcount.
    change (default ∅ (Some cnt)) with cnt in Hn, Hpv, Hvh, Hcount.
    destruct (compute_positional_all_rows st out Hout pos cnt Hcnt) as [row0 Hrow].
    unfold row_of in Hlook. rewrite Hrow in Hlook.
    rewrite positional_row_unfold in Hrow.
    destruct (Z.eqb_spec (get "hands" 0 cnt) 0) as [Hz|_]; [lia|].
    destruct (positional_bb100 st pos) as [q|e]; cbn [mbind exc_bind] in Hrow; [|discriminate].
    injection Hrow as <-. split.
    + split; [intros _|intros _; rewrite Hlook; eauto].
      apply pos_stats_ingest_is_Some. fold st. rewrite Hcnt. eauto.
    + intros row Hr. rewrite Hlook in Hr. injection Hr as <-.
      cbn [PosRow.hands PosRow.pfr_pct PosRow.vpip_pct].
      split; [exact Hcount|]. split; [lia|].
      destruct (percentage_bounds (get "pfr" 0 cnt) (get "hands" 0 cnt)) as [Hp0 _]; [lia|lia|].
      destruct (percentage_bounds (get "vpip" 0 cnt) (get "hands" 0 cnt)) as [_ Hv100]; [lia|lia|].
      split; [apply (round2_lower 0); exact Hp0|].
      split; [apply round2_mono, ratio_mono; lia|].
      apply (round2_bounds 0 100); [|exact Hv100].
      destruct (percentage_bounds (get "vpip" 0 cnt) (get "hands" 0 cnt)) as [Hv0 _];
        [lia|lia|exact Hv0].
  - split.
    + rewrite Hlook. split; [intros [x Hx]; discriminate|].
      intros Hex. apply pos_stats_ingest_is_Some in Hex. fold st in Hex.
      rewrite Hcnt in Hex. destruct Hex; discriminate.
    + intros row Hr. rewrite Hlook in Hr. discriminate.
Qed.

Lemma compute_positional_rows_witness :
  exists out row,
    compute_positional (ingest "Hero" [scenario_hand; away_hand]) = Ret out
    /\ out !! "UNKNOWN" = Some row
    /\ PosRow.hands row = 1%Z
    /\ (PosRow.pfr_pct row <= PosRow.vpip_pct row)%Q.
Proof.
  destruct (compute_positional (ingest "Hero" [scenario_hand; away_hand])) as [out|e] eqn:Hc;
    [|exfalso; revert Hc; vm_compute; discriminate].
  destruct (compute_positional_rows "Hero" [scenario_hand; away_hand] out "UNKNOWN" Hc)
    as [Hkey Hrow].
  destruct (proj2 Hkey) as [row Hr].
  { exists away_hand. split; [right; left | vm_compute; reflexivity]. }
  destruct (Hrow row Hr) as (Hn & _ & _ & Hle & _).
  exists out, row. split; [reflexivity|]. split; [exact Hr|]. split; [|exact Hle].
  rewrite Hn. vm_compute. reflexivity.
Defined.

(** ** The shape of a parsed hand *)

Lemma star_greedy_sound {R} (c : cclass) (s : string) (k : string -> option R) (x : R) :
  star_greedy c s k = Some x ->
  exists u t, s = u +:+ t /\ all_in c u = true /\ k t = Some x.
Proof.
  induction s as [|a s IH]; simpl; intros H.
  - exists "", "". auto.
  - destruct (in_class c a) eqn:Ha.
    + destruct (star_greedy c s k) as [y|] eqn:Hs.
      * injection H as ->. destruct (IH eq_refl) as (u & t & -> & Hu & Hk).
        exists (String a u), t. split; [reflexivity|]. simpl. rewrite Ha, Hu. auto.
      * exists "", (String a s). auto.
    + exists "", (String a s). auto.
Qed.

Lemma star_lazy_sound {R} (c : cclass) (s : string) (k : string -> option R) (x : R) :
  star_lazy c s k = Some x ->
  exists u t, s = u +:+ t /\ all_in c u = true /\ k t = Some x.
Proof.
  induction s as [|a s IH]; simpl; intros H.
  - destruct (k "") as [y|] eqn:Hk; [|discriminate].
    exists "", "". rewrite Hk. auto.
  - destruct (k (String a s)) as [y|] eqn:Hk.
    + exists "", (String a s). rewrite Hk. auto.
    + destruct (in_class c a) eqn:Ha; [|discriminate].
      destruct (IH H) as (u & t & -> & Hu & Hkt).
      exists (String a u), t. split; [reflexivity|]. simpl. rewrite Ha, Hu. auto.
Qed.

Lemma first_word_sound {R} (ws : list string) (s : string) (k : string -> option R) (x : R) :
  first_word ws s k = Some x ->
  exists w t, w ∈ ws /\ s = w +:+ t /\ k t = Some x.
Proof.
  induction ws as [|w ws IH]; simpl; intros H; [discriminate|].
  destruct (String.prefix w s) eqn:Hp.
  - destruct (k (drop_chars (String.length w) s)) as [y|] eqn:Hk.
    + injection H as ->. exists w, (drop_chars (String.length w) s).
      split; [left|]. split; [apply prefix_split, Hp | exact Hk].
    + destruct (IH H) as (w' & t & Hw & Hs & Hkt). exists w', t.
      split; [right; exact Hw | auto].
  - destruct (IH H) as (w' & t & Hw & Hs & Hkt). exists w', t.
    split; [right; exact Hw | auto].
Qed.

Lemma matches_suffix (r : re) :
  forall s caps t caps', matches r s caps t caps' -> exists u, s = u +:+ t.
Proof.
  induction r as [| l | c | c | a | ws | n r IH | r IH | r1 IH1 r2 IH2];
    intros s caps t caps' H; simpl in H.
  - destruct H as [-> _]. exists "". reflexivity.
  - destruct H as [-> _]. eauto.
  - destruct H as (u & -> & _). eauto.
  - destruct H as (u & -> & _). eauto.
  - destruct H as [[->| ->] _]; [exists (String a "") | exists ""]; reflexivity.
  - destruct H as (w & _ & -> & _). eauto.
  - destruct H as (u & _ & -> & _). eauto.
  - destruct H as [H|[-> _]]; [eapply IH, H | exists ""; reflexivity].
  - destruct H as (m & capsm & H1 & H2).
    apply IH1 in H1 as [u1 ->]. apply IH2 in H2 as [u2 ->].
    exists (u1 +:+ u2). symmetry. apply append_assoc.
Qed.

Lemma rmatch_sound {R} (r : re) :
  forall s caps (k : string -> captures -> option R) x,
    rmatch r s caps k = Some x ->
    exists t caps', matches r s caps t caps' /\ k t caps' = Some x.
Proof.
  induction r as [| l | c | c | a | ws | n r IH | r IH | r1 IH1 r2 IH2];
    intros s caps k x H; cbn [rmatch] in H.
  - exists s, caps. simpl. auto.
  - destruct (String.prefix l s) eqn:Hp; [|discriminate].
    exists (drop_chars (String.length l) s), caps. simpl.
    split; [split; [apply prefix_split, Hp | reflexivity] | exact H].
  - destruct s as [|a s]; [discriminate|].
    destruct (in_class c a) eqn:Ha; [|discriminate].
    apply star_greedy_sound in H as (u & t & -> & Hu & Hk).
    exists t, caps. split; [|exact Hk]. simpl.
    exists (String a u). split; [reflexivity|]. split; [discriminate|].
    simpl. rewrite Ha, Hu. auto.
  - apply star_lazy_sound in H as (u & t & -> & Hu & Hk).
    exists t, caps. split; [|exact Hk]. simpl. eauto.
  - destruct s as [|b s].
    + exists "", caps. simpl. auto.
    + destruct (Ascii.eqb a b) eqn:Hab.
      * apply Ascii.eqb_eq in Hab as <-.
        destruct (k s caps) as [y|] eqn:Hk.
        -- injection H as ->. exists s, caps. simpl. auto.
        -- exists (String a s), caps. simpl. auto.
      * exists (String b s), caps. simpl. auto.
  - apply first_word_sound in H as (w & t & Hw & -> & Hk).
    exists t, caps. split; [|exact Hk]. simpl. eauto.
  - apply IH in H as (t & caps1 & Hm & Hk).
    destruct (matches_suffix _ _ _ _ _ Hm) as [u Hu].
    exists t, (<[n := u]> caps1). split.
    + simpl. exists u, caps1. auto.
    + rewrite <- Hk. do 2 f_equal. subst s.
      rewrite length_append, Nat.add_sub. symmetry. apply take_chars_append.
  - destruct (rmatch r s caps k) as [y|] eqn:Hr.
    + injection H as ->. apply IH in Hr as (t & caps' & Hm & Hk).
      exists t, caps'. simpl. auto.
    + exists s, caps. simpl. auto.
  - apply IH1 in H as (m & capsm & H1 & H).
    apply IH2 in H as (t & caps' & H2 & Hk).
    exists t, caps'. split; [|exact Hk]. simpl. eauto.
Qed.

Lemma re_match_sound (r : re) (s t : string) (caps : captures) :
  re_match r s = Some (caps, t) -> matches r s ∅ t caps.
Proof.
  unfold re_match. intros H. apply rmatch_sound in H as (t' & caps' & Hm & [= <- <-]).
  exact Hm.
Qed.

Lemma re_search_sound (r : re) (s t : string) (caps : captures) :
  re_search r s = Some (caps, t) -> exists pre s', s = pre +:+ s' /\ matches r s' ∅ t caps.
Proof.
  induction s as [|a s IH]; simpl; intros H.
  - destruct (re_match r "") as [[c t']|] eqn:Hm; [|discriminate].
    injection H as -> ->. exists "", "". split; [reflexivity | apply re_match_sound, Hm].
  - destruct (re_match r (String a s)) as [[c t']|] eqn:Hm.
    + injection H as -> ->. exists "", (String a s).
      split; [reflexivity | apply re_match_sound, Hm].
    + destruct (IH H) as (pre & s' & -> & Hs).
      exists (String a pre), s'. split; [reflexivity | exact Hs].
Qed.

Lemma findall_from_sound (r : re) (s : string) :
  forall skip caps,
    caps ∈ findall_from r s skip -> exists s' t, matches r s' ∅ t caps.
Proof.
  induction s as [|a s IH]; intros skip caps H.
  - destruct skip; simpl in H; [|inversion H].
    destruct (re_match r "") as [[c t]|] eqn:Hm; [|inversion H].
    apply list_elem_of_singleton in H as ->. exists "", t. apply re_match_sound, Hm.
  - destruct skip; simpl in H; [|eapply IH, H].
    destruct (re_match r (String a s)) as [[c t]|] eqn:Hm; [|eapply IH, H].
    apply elem_of_cons in H as [->|H]; [|eapply IH, H].
    exists (String a s), t. apply re_match_sound, Hm.
Qed.

Lemma append_inj_r (u v t : string) : u +:+ t = v +:+ t -> u = v.
Proof.
  revert v. induction u as [|a u IH]; intros [|b v] H.
  - reflexivity.
  - apply (f_equal String.length) in H. rewrite !length_append in H. simpl in H. lia.
  - apply (f_equal String.length) in H. rewrite !length_append in H. simpl in H. lia.
  - change (String a (u +:+ t) = String b (v +:+ t)) in H. injection H as -> H.
    f_equal. apply IH, H.
Qed.

Lemma all_in_append (c : cclass) (u v : string) :
  all_in c (u +:+ v) = all_in c u && all_in c v.
Proof.
  induction u as [|a u IH]; [reflexivity|].
  change (all_in c (String a (u +:+ v)) = all_in c (String a u) && all_in c v).
  simpl. rewrite IH. apply andb_assoc.
Qed.

Lemma matches_Plus_group (n : nat) (c : cclass) (s : string) (caps : captures)
  (t : string) (caps' : captures) :
  matches (Group n (Plus c)) s caps t caps' ->
  exists u, s = u +:+ t /\ token c u /\ caps' = <[n := u]> caps.
Proof.
  cbn [matches]. intros (u & caps1 & Hs & (u' & Hs' & Hne & Hall & ->) & ->).
  assert (u' = u) as -> by (apply (append_inj_r _ _ t); congruence).
  exists u. split; [exact Hs|]. split; [split; assumption | reflexivity].
Qed.

Lemma matches_Seq (r1 r2 : re) s caps t caps' :
  matches (Seq r1 r2) s caps t caps' <->
  exists m capsm, matches r1 s caps m capsm /\ matches r2 m capsm t caps'.
Proof. reflexivity. Qed.

Lemma matches_Lit (l : string) s caps t caps' :
  matches (Lit l) s caps t caps' <-> s = l +:+ t /\ caps' = caps.
Proof. reflexivity. Qed.

Lemma matches_Eps s caps t caps' :
  matches Eps s caps t caps' <-> t = s /\ caps' = caps.
Proof. reflexivity. Qed.

Lemma id_re_group (s t : string) (caps : captures) :
  matches ID_RE s ∅ t caps -> token CDigit (group 1 caps).
Proof.
  unfold ID_RE. cbn [cat foldr].
  intros (m1 & c1 & [_ ->]%matches_Lit & m2 & c2 & Hg%matches_Plus_group & [_ ->]%matches_Eps).
  destruct Hg as (u & _ & Htok & ->). unfold group. rewrite lookup_insert_eq. exact Htok.
Qed.

Lemma seat_re_groups (s t : string) (caps : captures) :
  matches SEAT_RE s ∅ t caps ->
  token CDigit (group 1 caps) /\ token CNonSpace (group 2 caps)
  /\ token CDigitDot (group 3 caps).
Proof.
  unfold SEAT_RE. cbn [cat foldr].
  intros (m1 & c1 & [_ ->]%matches_Lit
          & m2 & c2 & (u1 & _ & Ht1 & ->)%matches_Plus_group
          & m3 & c3 & [_ ->]%matches_Lit
          & m4 & c4 & (u2 & _ & Ht2 & ->)%matches_Plus_group
          & m5 & c5 & [_ ->]%matches_Lit
          & m6 & c6 & (u3 & _ & Ht3 & ->)%matches_Plus_group
          & m7 & c7 & [_ ->]%matches_Lit
          & [_ ->]%matches_Eps).
  unfold group.
  rewrite lookup_insert_eq, !lookup_insert_ne, !lookup_insert_eq by discriminate.
  rewrite lookup_insert_ne, lookup_insert_eq by discriminate.
  auto.
Qed.

Lemma remove_dollar_id (u : string) :
  all_in CDigitDot u = true -> remove_char "$" u = u.
Proof.
  induction u as [|a u IH]; [reflexivity|]. simpl. intros H.
  apply andb_true_iff in H as [Ha Hu].
  destruct (Ascii.eqb_spec a "$") as [->|_]; [discriminate Ha|].
  rewrite IH by exact Hu. reflexivity.
Qed.

Lemma matches_Alt_group (n : nat) (ws : list string) (s : string) (caps : captures)
  (t : string) (caps' : captures) :
  matches (Group n (Alt ws)) s caps t caps' ->
  exists w, s = w +:+ t /\ w ∈ ws /\ caps' = <[n := w]> caps.
Proof.
  cbn [matches]. intros (u & caps1 & Hs & (w & Hw & Hs' & ->) & ->).
  assert (w = u) as -> by (apply (append_inj_r _ _ t); congruence).
  exists u. auto.
Qed.

(** The amount group of the action pattern: an optional dollar sign before a
    run of digits and dots. *)
Lemma matches_amount_group (s : string) (caps : captures) (t : string) (caps' : captures) :
  matches (Group 3 (cat [OptChar "$"; Plus CDigitDot])) s caps t caps' ->
  exists a, caps' = <[3%nat := a]> caps /\ is_empty a = false
            /\ token CDigitDot (remove_char "$" a).
Proof.
  cbn [matches cat foldr].
  intros (u3 & caps1 & Hs & (m & c & [Hopt ->] & m' & c' & (u & Hm & Hne & Hall & ->)
                             & [-> ->]) & ->).
  exists u3. split; [reflexivity|].
  assert (u3 = String "$" u \/ u3 = u) as [-> | ->].
  { destruct Hopt as [Hd|Hd]; [left|right]; apply (append_inj_r _ _ m').
    - change (String "$" u +:+ m') with (String "$" (u +:+ m')). congruence.
    - congruence. }
  - split; [reflexivity|]. simpl. rewrite remove_dollar_id by exact Hall. split; assumption.
  - split; [destruct u; [contradiction | reflexivity]|].
    rewrite remove_dollar_id by exact Hall. split; assumption.
Qed.

Lemma action_re_groups (s t : string) (caps : captures) :
  matches ACTION_RE s ∅ t caps ->
  token CNonSpace (group 1 caps)
  /\ group 2 caps ∈ ACTION_VERBS
  /\ forall a, caps !! 3%nat = Some a ->
               is_empty a = false /\ token CDigitDot (remove_char "$" a).
Proof.
  unfold ACTION_RE. cbn [cat foldr].
  intros (m1 & c1 & (u1 & _ & Ht1 & ->)%matches_Plus_group
          & m2 & c2 & [_ ->]%matches_Lit
          & m3 & c3 & (w & _ & Hw & ->)%matches_Alt_group
          & m4 & c4 & Hopt & [_ ->]%matches_Eps).
  cbn [matches] in Hopt. destruct Hopt as [Hamt | [_ ->]].
  - destruct Hamt as (m5 & c5 & [_ ->]%matches_Lit
                      & m6 & c6 & (a & -> & Hne & Htok)%matches_amount_group
                      & [_ ->]%matches_Eps).
    unfold group.
    repeat first [rewrite lookup_insert_eq | rewrite lookup_insert_ne by discriminate].
    split; [exact Ht1|]. split; [exact Hw|].
    intros a' [= <-]. auto.
  - unfold group.
    repeat first [rewrite lookup_insert_eq | rewrite lookup_insert_ne by discriminate].
    split; [exact Ht1|]. split; [exact Hw|].
    intros a'. rewrite lookup_empty. discriminate.
Qed.

Lemma split_from_tokens (s : string) :
  forall cur, all_in CNonSpace cur = true ->
              Forall (token CNonSpace) (split_from s cur).
Proof.
  induction s as [|a s IH]; intros cur Hcur; simpl.
  - destruct cur as [|b cur]; simpl; [constructor|].
    constructor; [split; [discriminate | exact Hcur] | constructor].
  - destruct (is_space a) eqn:Ha.
    + destruct cur as [|b cur]; simpl; [apply IH; reflexivity|].
      constructor; [split; [discriminate | exact Hcur] | apply IH; reflexivity].
    + apply IH. unfold snoc. rewrite all_in_append, Hcur. simpl. rewrite Ha. reflexivity.
Qed.

Section ParserShape.

Variable py_int : string -> option Z.
Variable py_float : string -> option Q.
Variable re_search_hero : string -> re -> string -> hero_match.

Lemma action_step_ok (lines : list string) (st st' : option Street)
  (acts acts' : list Action) (l : string) :
  l ∈ lines ->
  street_ok lines st -> Forall (action_ok py_float lines) acts ->
  action_step py_float (st, acts) l = Ret (st', acts') ->
  street_ok lines st' /\ Forall (action_ok py_float lines) acts'.
Proof.
  intros Hl Hst Hacts. unfold action_step.
  destruct (str_startswith "***" (str_strip l)) eqn:Hm.
  - intros [= <- <-]. split; [|exact Hacts].
    intros s [= <-]. exists l. auto.
  - destruct (re_match ACTION_RE (str_strip l)) as [[m t]|] eqn:Hre;
      [|intros [= <- <-]; auto].
    destruct st as [s|]; [|intros [= <- <-]; auto].
    apply re_match_sound, action_re_groups in Hre as (Hactor & Hverb & Hamt).
    destruct (m !! 3%nat) as [a|] eqn:Ha.
    + destruct (Hamt a eq_refl) as [Hne Htok]. rewrite Hne.
      unfold to_float. destruct (py_float (remove_char "$" a)) as [q|] eqn:Hq;
        cbn [fmap exc_fmap mbind exc_bind]; [|discriminate].
      intros [= <- <-]. split; [exact Hst|].
      apply Forall_app. split; [exact Hacts|]. constructor; [|constructor].
      split; [exact Hverb|]. split; [exact Hactor|]. split; [|apply Hst; reflexivity].
      cbn [amount]. intros q' [= <-]. eauto.
    + cbn [mbind exc_bind]. intros [= <- <-]. split; [exact Hst|].
      apply Forall_app. split; [exact Hacts|]. constructor; [|constructor].
      split; [exact Hverb|]. split; [exact Hactor|]. split; [|apply Hst; reflexivity].
      cbn [amount]. discriminate.
Qed.

Lemma run_lines_ok (lines : list string) (ls : list string) :
  forall st acts st' acts',
    (forall l, l ∈ ls -> l ∈ lines) ->
    street_ok lines st -> Forall (action_ok py_float lines) acts ->
    run_lines py_float (st, acts) ls = Ret (st', acts') ->
    street_ok lines st' /\ Forall (action_ok py_float lines) acts'.
Proof.
  unfold run_lines. induction ls as [|l ls IH]; intros st acts st' acts' Hin Hst Hacts.
  - intros [= <- <-]. auto.
  - cbn [foldM].
    destruct (action_step py_float (st, acts) l) as [[st1 acts1]|e] eqn:Hstep;
      cbn [mbind exc_bind]; [|discriminate].
    intros Hrun.
    destruct (action_step_ok lines st st1 acts acts1 l) as [Hst1 Hacts1];
      [apply Hin; left | exact Hst | exact Hacts | exact Hstep |].
    apply (IH st1 acts1 st' acts'); [|exact Hst1 | exact Hacts1 | exact Hrun].
    intros l' Hl'. apply Hin. right. exact Hl'.
Qed.

Lemma parse_actions_ok (hand_text : string) (acts : list Action) :
  parse_actions py_float hand_text = Ret acts ->
  Forall (action_ok py_float (str_splitlines hand_text)) acts.
Proof.
  unfold parse_actions.
  destruct (run_lines py_float (None, []) (str_splitlines hand_text)) as [[st acts']|e] eqn:Hrun;
    cbn [fmap exc_fmap]; [|discriminate].
  intros [= <-].
  apply (run_lines_ok (str_splitlines hand_text) (str_splitlines hand_text)
           None [] st acts'); [auto | discriminate | constructor | exact Hrun].
Qed.

Lemma parse_player_ok (m : captures) (p : Player) (s t : string) :
  matches SEAT_RE s ∅ t m ->
  parse_player py_int py_float m = Ret p -> player_ok py_int py_float p.
Proof.
  intros (H1 & H2 & H3)%seat_re_groups. unfold parse_player, to_int, to_float.
  destruct (py_int (group 1 m)) as [n|] eqn:Hn; cbn [mbind exc_bind]; [|discriminate].
  destruct (py_float (group 3 m)) as [q|] eqn:Hq; cbn [mbind exc_bind]; [|discriminate].
  intros [= <-]. split; [exact H2|]. split; simpl; eauto.
Qed.

Lemma parse_players_ok (hand_text : string) (ps : list Player) :
  parse_players py_int py_float hand_text = Ret ps ->
  Forall (player_ok py_int py_float) ps.
Proof.
  unfold parse_players.
  assert (forall ms acc ps,
             (forall m, m ∈ ms -> exists s t, matches SEAT_RE s ∅ t m) ->
             Forall (player_ok py_int py_float) acc ->
             foldM (fun players m => p ← parse_player py_int py_float m; Ret (players ++ [p]))
                   acc ms = Ret ps ->
             Forall (player_ok py_int py_float) ps) as Hgen.
  { induction ms as [|m ms IH]; intros acc ps' Hms Hacc; cbn [foldM].
    - intros [= <-]. exact Hacc.
    - destruct (parse_player py_int py_float m) as [p|e] eqn:Hp;
        cbn [mbind exc_bind]; [|discriminate].
      apply IH.
      + intros m' Hm'. apply Hms. right. exact Hm'.
      + apply Forall_app. split; [exact Hacc|]. constructor; [|constructor].
        destruct (Hms m) as (s & t & Hm); [left|]. exact (parse_player_ok m p s t Hm Hp). }
  apply Hgen; [|constructor].
  intros m Hm. apply findall_from_sound in Hm. exact Hm.
Qed.

Lemma parse_hand_id_shape (hand_text : string) :
  parse_hand_id hand_text = "UNKNOWN" \/ token CDigit (parse_hand_id hand_text).
Proof.
  unfold parse_hand_id.
  destruct (re_search ID_RE hand_text) as [[m t]|] eqn:Hs; [|left; reflexivity].
  right. apply re_search_sound in Hs as (pre & s' & _ & Hm). exact (id_re_group s' t m Hm).
Qed.

Lemma parse_board_tokens (hand_text : string) :
  Forall (token CNonSpace) (parse_board hand_text).
Proof.
  unfold parse_board. destruct (re_search BOARD_RE hand_text) as [[m t]|]; [|constructor].
  apply split_from_tokens. reflexivity.
Qed.

Lemma parse_hero_cards_length (hero_name hand_text : string) (cards : list (option string)) :
  parse_hero_cards re_search_hero hero_name hand_text = Ret cards ->
  cards = [] \/ length cards = 2%nat.
Proof.
  unfold parse_hero_cards.
  destruct (re_search_hero hero_name CARDS_SUFFIX hand_text) as [| |gs]; [discriminate| |].
  - intros [= <-]. left. reflexivity.
  - destruct (hgroup 1 gs) as [c1|e]; cbn [mbind exc_bind]; [|discriminate].
    destruct (hgroup 2 gs) as [c2|e]; cbn [mbind exc_bind]; [|discriminate].
    intros [= <-]. right. reflexivity.
Qed.

Lemma parse_hand_Some (hand_text hero_name : string) (hand : Hand) :
  parse_hand py_int py_float re_search_hero hand_text hero_name = Some hand ->
  exists stakes ps cards acts res,
    parse_stakes py_float hand_text = Ret stakes
    /\ parse_players py_int py_float hand_text = Ret ps
    /\ parse_hero_cards re_search_hero hero_name hand_text = Ret cards
    /\ parse_actions py_float hand_text = Ret acts
    /\ parse_result py_float re_search_hero hero_name hand_text = Ret res
    /\ hand = hand_of hand_text hero_name stakes ps cards acts res.
Proof.
  unfold parse_hand. intros H. apply try_except_Some in H.
  destruct (parse_hand_body_cases py_int py_float re_search_hero hand_text hero_name)
    as [(stakes & ps & cards & acts & res & H1 & H2 & H3 & H4 & H5 & Hb) | [_ [e He]]];
    [|congruence].
  exists stakes, ps, cards, acts, res. repeat (split; [assumption|]). congruence.
Qed.

(** X19.  Every action of a parsed hand has one of the six verbs of the
    action pattern and an actor that is a non-empty run of non-space
    characters; an amount, when it has one, is the float of a non-empty run of
    digits and dots (the dollar sign removed); and its street is the one that a
    section marker among the lines of the block names. *)
Theorem parsed_actions_wellformed (hand_text hero_name : string) (hand : Hand) (a : Action) :
  parse_hand py_int py_float re_search_hero hand_text hero_name = Some hand ->
  a ∈ actions hand ->
  action a ∈ ACTION_VERBS
  /\ token CNonSpace (actor a)
  /\ (forall q, amount a = Some q ->
                exists tok, token CDigitDot tok /\ py_float tok = Some q)
  /\ exists l, l ∈ str_splitlines hand_text /\ is_marker l = true
               /\ marker_street (str_strip l) = street a.
Proof.
  intros (stakes & ps & cards & acts & res & _ & _ & _ & Hacts & _ & ->)%parse_hand_Some Ha.
  apply parse_actions_ok in Hacts. rewrite Forall_forall in Hacts. exact (Hacts a Ha).
Qed.

(** X20.  Every player of a parsed hand has a name that is a non-empty run of
    non-space characters, a seat that is the int of a non-empty run of digits,
    and a stack that is the float of a non-empty run of digits and dots. *)
Theorem parsed_players_wellformed (hand_text hero_name : string) (hand : Hand) (p : Player) :
  parse_hand py_int py_float re_search_hero hand_text hero_name = Some hand ->
  p ∈ players hand ->
  token CNonSpace (name p)
  /\ (exists d, token CDigit d /\ py_int d = Some (seat p))
  /\ (exists tok, token CDigitDot tok /\ py_float tok = Some (stack p)).
Proof.
  intros (stakes & ps & cards & acts & res & _ & Hps & _ & _ & _ & ->)%parse_hand_Some Hp.
  apply parse_players_ok in Hps. rewrite Forall_forall in Hps. exact (Hps p Hp).
Qed.

(** X21.  The id of a parsed hand is a non-empty run of digits, or UNKNOWN;
    the hero's cards are none or two; and every board card is a non-empty run
    of non-space characters. *)
Theorem parsed_id_cards_board (hand_text hero_name : string) (hand : Hand) :
  parse_hand py_int py_float re_search_hero hand_text hero_name = Some hand ->
  (hand_id hand = "UNKNOWN" \/ token CDigit (hand_id hand))
  /\ (hero_cards hand = [] \/ length (hero_cards hand) = 2%nat)
  /\ (forall c, c ∈ board hand -> token CNonSpace c).
Proof.
  intros (stakes & ps & cards & acts & res & _ & _ & Hc & _ & _ & ->)%parse_hand_Some.
  split; [apply parse_hand_id_shape|].
  split; [exact (parse_hero_cards_length _ _ _ Hc)|].
  apply Forall_forall, parse_board_tokens.
Qed.

End ParserShape.

Lemma parsed_actions_wellformed_witness :
  action_ok decimal_float (str_splitlines scenario_block)
            {| street := preflop; actor := "Hero"; action := "raises"; amount := Some 3%Q |}.
Proof.
  apply (parsed_actions_wellformed decimal_int decimal_float literal_search
           scenario_block "Hero" scenario_hand).
  - vm_compute. reflexivity.
  - simpl. left.
Defined.

Lemma parsed_players_wellformed_witness :
  player_ok decimal_int decimal_float {| seat := 2; name := "Bob"; stack := 100 |}.
Proof.
  apply (parsed_players_wellformed decimal_int decimal_float literal_search
           scenario_block "Hero" scenario_hand).
  - vm_compute. reflexivity.
  - simpl. right. left.
Defined.

Lemma parsed_id_cards_board_witness :
  (hand_id scenario_hand = "UNKNOWN" \/ token CDigit (hand_id scenario_hand))
  /\ (hero_cards scenario_hand = [] \/ length (hero_cards scenario_hand) = 2%nat)
  /\ (forall c, c ∈ board scenario_hand -> token CNonSpace c).
Proof.
  apply (parsed_id_cards_board decimal_int decimal_float literal_search scenario_block "Hero").
  vm_compute. reflexivity.
Defined.

Lemma str_contains_false (l s : string) :
  str_contains l s = false ->
  String.prefix l s = false
  /\ forall a s', s = String a s' -> str_contains l s' = false.
Proof.
  destruct s as [|b s]; cbn [str_contains]; intros H; apply orb_false_iff in H as [Hp Hr].
  - split; [exact Hp | discriminate].
  - split; [exact Hp|]. intros a s' [= _ <-]. exact Hr.
Qed.

Lemma re_match_lit_None (l : string) (r : re) (s : string) :
  String.prefix l s = false -> re_match (Seq (Lit l) r) s = None.
Proof. intros H. unfold re_match. cbn [rmatch]. rewrite H. reflexivity. Qed.

Lemma re_search_lit_None (l : string) (r : re) (s : string) :
  str_contains l s = false -> re_search (Seq (Lit l) r) s = None.
Proof.
  induction s as [|a s IH]; intros H; apply str_contains_false in H as [Hp Hr];
    cbn [re_search]; rewrite (re_match_lit_None l r _ Hp); [reflexivity|].
  apply IH, (Hr a s eq_refl).
Qed.

Lemma findall_lit_nil (l : string) (r : re) (s : string) :
  forall skip, str_contains l s = false -> findall_from (Seq (Lit l) r) s skip = [].
Proof.
  induction s as [|a s IH]; intros skip H; apply str_contains_false in H as [Hp Hr].
  - destruct skip; cbn [findall_from]; [|reflexivity].
    rewrite (re_match_lit_None l r _ Hp). reflexivity.
  - destruct skip; cbn [findall_from].
    + rewrite (re_match_lit_None l r _ Hp). apply IH, (Hr a s eq_refl).
    + apply IH, (Hr a s eq_refl).
Qed.

Section ParserDefaults.

Variable py_int : string -> option Z.
Variable py_float : string -> option Q.

(** X22.  What a block lacks is filled in, not refused: without the text
    [Poker Hand #] the id is UNKNOWN, without [Table] the table is
    UnknownTable, without [Blinds] the blinds are 0.5 and 1, without [Seat ]
    there are no players, and without [Board [] the board is empty. *)
Theorem missing_lines_default (hand_text : string) :
  (str_contains "Poker Hand #" hand_text = false -> parse_hand_id hand_text = "UNKNOWN")
  /\ (str_contains "Table" hand_text = false -> parse_table hand_text = "UnknownTable")
  /\ (str_contains "Blinds" hand_text = false ->
      parse_stakes py_float hand_text = Ret (1 # 2, 1)%Q)
  /\ (str_contains "Seat " hand_text = false ->
      parse_players py_int py_float hand_text = Ret [])
  /\ (str_contains "Board [" hand_text = false -> parse_board hand_text = []).
Proof.
  repeat split; intros H.
  - unfold parse_hand_id, ID_RE. cbn [cat foldr]. rewrite re_search_lit_None by exact H.
    reflexivity.
  - unfold parse_table, TABLE_RE. cbn [cat foldr]. rewrite re_search_lit_None by exact H.
    reflexivity.
  - unfold parse_stakes, STAKE_RE. cbn [cat foldr]. rewrite re_search_lit_None by exact H.
    reflexivity.
  - unfold parse_players, re_findall, SEAT_RE. cbn [cat foldr].
    rewrite findall_lit_nil by exact H. reflexivity.
  - unfold parse_board, BOARD_RE. cbn [cat foldr]. rewrite re_search_lit_None by exact H.
    reflexivity.
Qed.

End ParserDefaults.

(** ** The report *)

(** X24.  The report computes the global statistics first and the positional
    ones after them.  Whatever hands were fed, once [compute] has returned,
    [compute_positional] returns too: it divides by nothing that [compute] has
    not divided by. *)
Theorem compute_positional_after_compute (hero_name : string) (hs : list Hand) (s : Stats.t) :
  compute (ingest hero_name hs) = Ret s ->
  exists out, compute_positional (ingest hero_name hs) = Ret out.
Proof.
  intros Hs. set (st := ingest hero_name hs) in *.
  destruct (compute_positional_Ret st) as (out & Hout & _); [|eauto].
  intros pos cnt Hcnt.
  pose proof (ingest_hands hero_name hs) as Hh. fold st in Hh.
  destruct hs as [|h hs'].
  - unfold st in Hcnt. simpl in Hcnt. rewrite lookup_empty in Hcnt. discriminate.
  - apply positional_row_Ret.
    assert (hands st <> []) as Hne by (rewrite Hh; discriminate).
    destruct (avg_bb_mean st Hne) as (avg & Havg & Hmean).
    destruct (compute_cases st avg Havg) as [[_ Hc]|[Hnz _]]; [congruence|].
    rewrite <- Hmean. exact Hnz.
Qed.

Lemma compute_positional_after_compute_witness :
  exists out, compute_positional (ingest "Hero" [scenario_hand; folded_hand]) = Ret out.
Proof.
  apply (compute_positional_after_compute "Hero" [scenario_hand; folded_hand]
           (stats_with (ingest "Hero" [scenario_hand; folded_hand]) 1)).
  vm_compute. reflexivity.
Defined.

(** ** The board of a parsed hand *)

Lemma re_search_from_find (l : string) (r : re) (pre s : string) :
  str_find l (pre +:+ s) = Some (String.length pre) ->
  re_search (Seq (Lit l) r) (pre +:+ s) = re_search (Seq (Lit l) r) s.
Proof.
  induction pre as [|a pre IH]; [reflexivity|].
  change (String a pre +:+ s) with (String a (pre +:+ s)).
  cbn [str_find String.length]. intros Hfind.
  destruct (String.prefix l (String a (pre +:+ s))) eqn:Hp; [discriminate|].
  cbn [re_search]. rewrite (re_match_lit_None l r _ Hp).
  apply IH. destruct (str_find l (pre +:+ s)) as [n|]; [|discriminate].
  cbn in Hfind. congruence.
Qed.

Lemma star_lazy_to_bracket {R} (inner rest : string) (k : string -> option R) :
  all_in CAny inner = true -> lacks "]" inner = true ->
  (forall a t, a <> "]"%char -> k (String a t) = None) ->
  star_lazy CAny (inner +:+ rest) k = star_lazy CAny rest k.
Proof.
  intros Hany Hlacks Hk. induction inner as [|a inner IH]; [reflexivity|].
  cbn [all_in lacks] in Hany, Hlacks.
  apply andb_true_iff in Hany as [Ha Hany]. apply andb_true_iff in Hlacks as [Hb Hlacks].
  change (String a inner +:+ rest) with (String a (inner +:+ rest)).
  rewrite star_lazy_step; [apply IH; assumption | | exact Ha].
  apply Hk. intros ->. discriminate Hb.
Qed.

Lemma re_match_board (inner post : string) :
  all_in CAny inner = true -> lacks "]" inner = true ->
  re_match BOARD_RE ("Board [" +:+ inner +:+ "]" +:+ post) = Some ({[ 1%nat := inner ]}, post).
Proof.
  intros Hany Hlacks.
  unfold re_match, BOARD_RE. cbn [cat foldr rmatch].
  rewrite prefix_append, drop_chars_append.
  rewrite star_lazy_to_bracket; [| exact Hany | exact Hlacks |].
  - change ("]" +:+ post) with (String "]" post).
    cbn [star_lazy String.prefix drop_chars String.length].
    destruct (ascii_dec "]" "]") as [_|Hne]; [|congruence].
    assert (String.prefix "" post = true) as -> by (destruct post; reflexivity).
    rewrite length_append. cbn [String.length].
    replace (String.length inner + S (String.length post) - S (String.length post))%nat
      with (String.length inner) by lia.
    rewrite take_chars_append. reflexivity.
  - intros a t Ha. cbn [String.prefix].
    destruct (ascii_dec "]" a); [congruence | reflexivity].
Qed.

Lemma nonspace_any (t : string) : all_in CNonSpace t = true -> all_in CAny t = true.
Proof.
  induction t as [|a t IH]; [reflexivity|]. cbn [all_in]. intros H.
  apply andb_true_iff in H as [Ha Ht]. rewrite (IH Ht), andb_true_r.
  cbn [in_class] in *. destruct (Ascii.eqb_spec a LF) as [->|_]; [discriminate Ha | reflexivity].
Qed.

Lemma lacks_append (c : ascii) (u v : string) : lacks c (u +:+ v) = lacks c u && lacks c v.
Proof.
  induction u as [|a u IH]; [reflexivity|].
  change (lacks c (String a (u +:+ v)) = lacks c (String a u) && lacks c v).
  cbn [lacks]. rewrite IH. apply andb_assoc.
Qed.

(** The cards of a Board line, joined by spaces, are what the lazy group of
    the board pattern takes. *)
Lemma join_spaces_inner (ts : list string) :
  Forall card_token ts ->
  all_in CAny (join_spaces ts) = true /\ lacks "]" (join_spaces ts) = true.
Proof.
  induction 1 as [|t ts (Hne & Hns & Hl) Hts [IHa IHl]]; [split; reflexivity|].
  destruct ts as [|t' ts].
  - cbn [join_spaces]. split; [apply nonspace_any, Hns | exact Hl].
  - change (join_spaces (t :: t' :: ts)) with (t +:+ " " +:+ join_spaces (t' :: ts)).
    rewrite !all_in_append, !lacks_append, IHa, IHl, Hl, (nonspace_any t Hns).
    split; reflexivity.
Qed.

Lemma split_from_run (t rest cur : string) :
  all_in CNonSpace t = true ->
  split_from (t +:+ rest) cur = split_from rest (cur +:+ t).
Proof.
  revert cur. induction t as [|a t IH]; intros cur Ht.
  - rewrite append_nil_r. reflexivity.
  - cbn [all_in in_class] in Ht. apply andb_true_iff in Ht as [Ha Ht].
    apply negb_true_iff in Ha.
    change (String a t +:+ rest) with (String a (t +:+ rest)).
    cbn [split_from]. rewrite Ha, IH by exact Ht. rewrite snoc_append. reflexivity.
Qed.

Lemma str_split_join (ts : list string) :
  Forall card_token ts -> str_split (join_spaces ts) = ts.
Proof.
  unfold str_split.
  induction 1 as [|t ts (Hne & Hns & _) Hts IH]; [reflexivity|].
  destruct ts as [|t' ts].
  - cbn [join_spaces]. rewrite <- (append_nil_r t) at 1.
    rewrite split_from_run by exact Hns. cbn [split_from].
    change ("" +:+ t) with t. destruct t; [contradiction | reflexivity].
  - change (join_spaces (t :: t' :: ts)) with (t +:+ String " " (join_spaces (t' :: ts))).
    rewrite split_from_run by exact Hns. change ("" +:+ t) with t.
    cbn [split_from]. change (is_space " ") with true. cbv iota.
    destruct t; [contradiction|]. cbn [is_empty]. f_equal. exact IH.
Qed.

(** The board step on a text whose first [Board [] is followed by cards and
    the closing bracket. *)
Lemma parse_board_cards (pre post : string) (ts : list string) :
  let hand_text := pre +:+ "Board [" +:+ join_spaces ts +:+ "]" +:+ post in
  str_find "Board [" hand_text = Some (String.length pre) ->
  Forall card_token ts ->
  parse_board hand_text = ts.
Proof.
  intros hand_text Hfind Hts. unfold parse_board, hand_text, BOARD_RE. cbn [cat foldr].
  rewrite re_search_from_find by exact Hfind.
  destruct (join_spaces_inner ts Hts) as [Hany Hlacks].
  pose proof (re_match_board (join_spaces ts) post Hany Hlacks) as Hm.
  unfold BOARD_RE in Hm. cbn [cat foldr] in Hm.
  change ("Board [" +:+ join_spaces ts +:+ "]" +:+ post)
    with (String "B" ("oard [" +:+ join_spaces ts +:+ "]" +:+ post)) in *.
  cbn [re_search]. rewrite Hm.
  unfold group. rewrite lookup_singleton_eq. apply str_split_join, Hts.
Qed.

Section BoardFacts.

Variable py_int : string -> option Z.
Variable py_float : string -> option Q.
Variable re_search_hero : string -> re -> string -> hero_match.

(** C3, as the code has it.  The parser never looks at the length of the
    board.  Whenever the steps that can raise all return, a [Hand] comes back:
    its board is empty when the block has no [Board [], and when the first
    [Board [] of the block is followed by cards separated by single spaces and
    the closing bracket, its board is the list of these cards, however many
    they are. *)
Theorem parse_hand_board_unvalidated (hand_text hero_name : string) stakes ps cards acts res :
  parse_stakes py_float hand_text = Ret stakes ->
  parse_players py_int py_float hand_text = Ret ps ->
  parse_hero_cards re_search_hero hero_name hand_text = Ret cards ->
  parse_actions py_float hand_text = Ret acts ->
  parse_result py_float re_search_hero hero_name hand_text = Ret res ->
  exists h,
    parse_hand py_int py_float re_search_hero hand_text hero_name = Some h
    /\ (str_contains "Board [" hand_text = false -> board h = [])
    /\ (forall pre post ts,
          hand_text = pre +:+ "Board [" +:+ join_spaces ts +:+ "]" +:+ post ->
          str_find "Board [" hand_text = Some (String.length pre) ->
          Forall card_token ts ->
          board h = ts /\ length (board h) = length ts).
Proof.
  intros H1 H2 H3 H4 H5.
  exists (hand_of hand_text hero_name stakes ps cards acts res).
  split.
  { unfold parse_hand.
    rewrite (parse_hand_body_Ret _ _ _ _ _ _ _ _ _ _ H1 H2 H3 H4 H5). reflexivity. }
  cbn [board hand_of]. split.
  - intros Hno. unfold parse_board, BOARD_RE. cbn [cat foldr].
    rewrite re_search_lit_None by exact Hno. reflexivity.
  - intros pre post ts -> Hfind Hts.
    rewrite (parse_board_cards pre post ts Hfind Hts). split; reflexivity.
Qed.

End BoardFacts.

Lemma parse_hand_board_unvalidated_witness :
  exists h,
    parse_hand decimal_int decimal_float literal_search long_board_block "Hero" = Some h
    /\ board h = ["Ah"; "Kd"; "Qc"; "Js"; "Th"; "9d"].
Proof.
  destruct (parse_hand_board_unvalidated decimal_int decimal_float literal_search
              long_board_block "Hero" (1 # 2, 1)%Q [] [] [] (0 + 0 - 0)%Q)
    as (h & Hh & _ & Hboard); try reflexivity.
  exists h. split; [exact Hh|].
  apply (Hboard ("Poker Hand #1" +:+ nl) nl ["Ah"; "Kd"; "Qc"; "Js"; "Th"; "9d"]).
  - reflexivity.
  - reflexivity.
  - repeat (constructor; [split; [discriminate | split; reflexivity]|]). constructor.
Defined.
